(** * Analytics queries of the PhonePe / business-analytics repository

    A shallow embedding of the analytical SQL of the repository
    ([supabase/migrations/20250709072849_snowy_summit.sql], the schema and the
    views of the schema script), of the query validator shown in
    [docs/technical_documentation.md] and of the growth figures computed by
    the dashboard components.

    Tables are lists of records.  A [DECIMAL(10, 2)] column holds an integer
    number of cents; every number a query computes is an exact rational
    (type [Q], kept in lowest terms).  A nullable column has an [option] type
    and the aggregates follow SQL: they skip NULL, and [SUM] and [AVG] of no
    value are NULL. *)

From Stdlib Require Import String Ascii.
From Stdlib Require Import List Bool Arith ZArith QArith Qround Qreduction Qabs Lia Lqa.
From Stdlib Require Import Permutation Sorted.
From Stdlib Require Import OrdersEx.
Import ListNotations.

Set Implicit Arguments.

Local Open Scope Z_scope.

(* ------------------------------------------------------------------ *)
(** ** Relational operators on lists *)

Section Distinct.
Variable K : Type.
Variable eqb : K -> K -> bool.

(** The distinct values of a column, in order of first occurrence. *)
Fixpoint distinct (ks : list K) : list K :=
  match ks with
  | [] => []
  | k :: rest => k :: filter (fun k' => negb (eqb k' k)) (distinct rest)
  end.

End Distinct.

Section GroupBy.
Variables A K : Type.
Variable eqb : K -> K -> bool.
Variable key : A -> K.

(** The rows of one group. *)
Definition group_of (k : K) (rows : list A) : list A :=
  filter (fun a => eqb (key a) k) rows.

(** [GROUP BY key]: one group per distinct key, each with its rows in
    table order. *)
Definition group_by (rows : list A) : list (K * list A) :=
  map (fun k => (k, group_of k rows)) (distinct eqb (map key rows)).

End GroupBy.

(** [a JOIN b ON on a b]: the pairs of the nested loop that satisfy [ON]. *)
Definition inner_join (A B : Type) (on : A -> B -> bool)
    (la : list A) (lb : list B) : list (A * B) :=
  flat_map (fun a => map (pair a) (filter (on a) lb)) la.

(** [a LEFT JOIN b ON on a b]: a row of [a] without a match is kept once,
    with NULL for the columns of [b]. *)
Definition left_join (A B : Type) (on : A -> B -> bool)
    (la : list A) (lb : list B) : list (A * option B) :=
  flat_map (fun a =>
              match filter (on a) lb with
              | [] => [(a, None)]
              | ms => map (fun b => (a, Some b)) ms
              end) la.

(* ------------------------------------------------------------------ *)
(** ** Aggregates *)

(** The non-NULL values of a column. *)
Fixpoint non_null (A : Type) (col : list (option A)) : list A :=
  match col with
  | [] => []
  | Some v :: rest => v :: non_null rest
  | None :: rest => non_null rest
  end.

Definition Qsum (vs : list Q) : Q := fold_right Qplus 0%Q vs.
Definition Zsum (vs : list Z) : Z := fold_right Z.add 0 vs.

(** [COUNT(col)] counts the non-NULL values, [COUNT( * )] the rows. *)
Definition COUNT (A : Type) (col : list (option A)) : Z :=
  Z.of_nat (length (non_null col)).
Definition COUNT_star (A : Type) (rows : list A) : Z :=
  Z.of_nat (length rows).
Definition COUNT_DISTINCT (col : list (option Z)) : Z :=
  Z.of_nat (length (distinct Z.eqb (non_null col))).

Definition SUM (col : list (option Q)) : option Q :=
  match non_null col with
  | [] => None
  | vs => Some (Qred (Qsum vs))
  end.

Definition AVG (col : list (option Q)) : option Q :=
  match non_null col with
  | [] => None
  | vs => Some (Qred (Qsum vs / inject_Z (Z.of_nat (length vs))))
  end.

(** [ROUND(x, d)]: to [d] decimals, halves away from zero. *)
Definition round_half_away (q : Q) : Z :=
  if Qle_bool 0 q then Qfloor (q + (1 # 2)) else Qceiling (q - (1 # 2)).
Definition ROUND (q : Q) (d : nat) : Q :=
  Qred (inject_Z (round_half_away (q * inject_Z (10 ^ Z.of_nat d)))
        / inject_Z (10 ^ Z.of_nat d)).

(** The value of a [DECIMAL(10, 2)] cell holding [c] cents. *)
Definition decimal (c : Z) : Q := c # 100.

(* ------------------------------------------------------------------ *)
(** ** ORDER BY and LIMIT *)

Section OrderBy.
Variable A : Type.
(** [before a b]: the sort key allows row [a] to stand before row [b]. *)
Variable before : A -> A -> bool.

(** SQL fixes the order of the result only as far as the sort key
    goes; rows with equal keys may come in any order.  [ordered_by rows out]
    holds of every [out] the clause permits. *)
Definition ordered_by (rows out : list A) : Prop :=
  Permutation rows out /\
  StronglySorted (fun a b => before a b = true) out.

(** One such result: a stable insertion sort. *)
Fixpoint insert_row (a : A) (l : list A) : list A :=
  match l with
  | [] => [a]
  | b :: rest => if before a b then a :: b :: rest else b :: insert_row a rest
  end.

Definition sort_rows (rows : list A) : list A := fold_right insert_row [] rows.

End OrderBy.

(** [LIMIT n]. *)
Definition LIMIT (A : Type) (n : nat) (rows : list A) : list A := firstn n rows.


(* ------------------------------------------------------------------ *)
(** ** Comparison of cell values *)

Definition option_eqb (A : Type) (eqb : A -> A -> bool) (x y : option A) : bool :=
  match x, y with
  | None, None => true
  | Some a, Some b => eqb a b
  | _, _ => false
  end.

Definition pair_eqb (A B : Type) (eqa : A -> A -> bool) (eqb : B -> B -> bool)
    (x y : A * B) : bool :=
  eqa (fst x) (fst y) && eqb (snd x) (snd y).

(** NULL sorts before every value; values by their numeric order. *)
Definition value_leb (x y : option Q) : bool :=
  match x, y with
  | None, _ => true
  | Some _, None => false
  | Some a, Some b => Qle_bool a b
  end.

(** TEXT is compared bytewise. *)
Definition text_leb (s1 s2 : string) : bool :=
  match String_as_OT.compare s1 s2 with
  | Gt => false
  | _ => true
  end.

Definition text_lt (s1 s2 : string) : Prop := String_as_OT.compare s1 s2 = Lt.

(* ------------------------------------------------------------------ *)
(** ** The schema

    The tables of the schema script, with the columns the queries read.
    [INTEGER PRIMARY KEY] and [NOT NULL] columns are plain, the others
    optional; a [CHECK (col IN (...))] constraint admits NULL. *)

Inductive segment : Type := Premium | Standard | Basic.
Inductive payment : Type := Credit_Card | Debit_Card | Cash | PayPal.
Inductive channel : Type := Online | In_Store | Mobile_App.

Definition segment_eqb (x y : segment) : bool :=
  match x, y with
  | Premium, Premium | Standard, Standard | Basic, Basic => true
  | _, _ => false
  end.

Definition payment_eqb (x y : payment) : bool :=
  match x, y with
  | Credit_Card, Credit_Card | Debit_Card, Debit_Card
  | Cash, Cash | PayPal, PayPal => true
  | _, _ => false
  end.

Definition channel_eqb (x y : channel) : bool :=
  match x, y with
  | Online, Online | In_Store, In_Store | Mobile_App, Mobile_App => true
  | _, _ => false
  end.

(** A [DATE] cell, as the sample data writes it: ['2023-05-01']. *)
Record date : Type := { year : nat; month : nat; day : nat }.

Definition digit (n : nat) : ascii := ascii_of_nat (48 + n mod 10).

(** [strftime('%Y-%m', d)]: four digits of year, a dash, two of month. *)
Definition strftime_Ym (d : date) : string :=
  String (digit (year d / 1000))
    (String (digit (year d / 100))
      (String (digit (year d / 10))
        (String (digit (year d))
          (String "-"%char
            (String (digit (month d / 10))
              (String (digit (month d)) EmptyString)))))).

Definition date_leb (d1 d2 : date) : bool :=
  if (year d1 =? year d2)%nat then
    if (month d1 =? month d2)%nat then (day d1 <=? day d2)%nat
    else (month d1 <? month d2)%nat
  else (year d1 <? year d2)%nat.

Fixpoint MAX_date (col : list (option date)) : option date :=
  match col with
  | [] => None
  | None :: rest => MAX_date rest
  | Some d :: rest =>
      match MAX_date rest with
      | None => Some d
      | Some m => Some (if date_leb m d then d else m)
      end
  end.

Fixpoint MIN_date (col : list (option date)) : option date :=
  match col with
  | [] => None
  | None :: rest => MIN_date rest
  | Some d :: rest =>
      match MIN_date rest with
      | None => Some d
      | Some m => Some (if date_leb d m then d else m)
      end
  end.

Module Customers.
Record row : Type := {
  customer_id : Z;
  first_name : string;
  last_name : string;
  city : option string;
  state : option string;
  customer_segment : option segment
}.
End Customers.

Module Products.
Record row : Type := {
  product_id : Z;
  product_name : string;
  category : string;
  brand : option string;
  price : Z;
  cost : Z
}.
End Products.

Module Transactions.
Record row : Type := {
  transaction_id : Z;
  customer_id : Z;
  product_id : Z;
  transaction_date : date;
  quantity : Z;
  unit_price : Z;
  total_amount : Z;
  discount_amount : option Z;
  payment_method : option payment;
  sales_channel : option channel
}.
End Transactions.

Definition customer : Type := Customers.row.
Definition product : Type := Products.row.
Definition transaction : Type := Transactions.row.

(** The columns every report aggregates. *)
Definition amounts (ts : list transaction) : list (option Q) :=
  map (fun t => Some (decimal (Transactions.total_amount t))) ts.
Definition quantities (ts : list transaction) : list (option Q) :=
  map (fun t => Some (inject_Z (Transactions.quantity t))) ts.
Definition transaction_ids (ts : list transaction) : list (option Z) :=
  map (fun t => Some (Transactions.transaction_id t)) ts.
Definition customer_ids (ts : list transaction) : list (option Z) :=
  map (fun t => Some (Transactions.customer_id t)) ts.

(** [ON c.customer_id = t.customer_id] and [ON p.product_id = t.product_id]. *)
Definition on_customer (c : customer) (t : transaction) : bool :=
  Customers.customer_id c =? Transactions.customer_id t.
Definition on_product (p : product) (t : transaction) : bool :=
  Products.product_id p =? Transactions.product_id t.

(* ------------------------------------------------------------------ *)
(** ** The views of the schema script *)

(** [CREATE VIEW customer_metrics]: every customer, with the aggregates of
    the transactions joined to it; a customer without transactions keeps
    one row, whose transaction columns are NULL. *)
Module CustomerMetrics.
Record row : Type := {
  customer_id : Z;
  customer_name : string;
  customer_segment : option segment;
  city : option string;
  state : option string;
  total_transactions : Z;
  total_spent : option Q;
  avg_order_value : option Q;
  last_purchase_date : option date;
  first_purchase_date : option date
}.

Definition joined (cs : list customer) (txs : list transaction)
  : list (customer * option transaction) :=
  left_join on_customer cs txs.

Definition t_amounts (g : list (customer * option transaction)) : list (option Q) :=
  map (fun ct => option_map (fun t => decimal (Transactions.total_amount t)) (snd ct)) g.

(** The columns of [c] outside [GROUP BY c.customer_id] are read from the
    first row [c0] of the group. *)
Definition select (c0 : customer) (g : list (customer * option transaction)) : row :=
  {| customer_id := Customers.customer_id c0;
     customer_name := (Customers.first_name c0 ++ " " ++ Customers.last_name c0)%string;
     customer_segment := Customers.customer_segment c0;
     city := Customers.city c0;
     state := Customers.state c0;
     total_transactions :=
       COUNT (map (fun ct => option_map Transactions.transaction_id (snd ct)) g);
     total_spent := SUM (t_amounts g);
     avg_order_value := AVG (t_amounts g);
     last_purchase_date :=
       MAX_date (map (fun ct => option_map Transactions.transaction_date (snd ct)) g);
     first_purchase_date :=
       MIN_date (map (fun ct => option_map Transactions.transaction_date (snd ct)) g) |}.

Definition view (cs : list customer) (txs : list transaction) : list row :=
  flat_map (fun kg =>
              match snd kg with
              | [] => []
              | ct :: _ => [select (fst ct) (snd kg)]
              end)
           (group_by Z.eqb (fun ct => Customers.customer_id (fst ct)) (joined cs txs)).
End CustomerMetrics.

(* ------------------------------------------------------------------ *)
(** ** The analytical queries

    Each query has a relation [result], the outputs that its [ORDER BY]
    permits, and a function [run] that computes one of them.  For the ten
    queries of the analysis script [run] is the output of SQLite on the
    schema of the schema script.  Each of them sorts by one column, and
    the sorter keeps rows with equal values in the order in which the
    groups reach it.  That order comes from the plan of the query.
    Queries 1, 3 and 7 read their first table through its index
    ([idx_customers_segment], [idx_products_category]): in ascending order
    of the indexed column and, within one value, of the key.  Queries 4,
    5, 6, 9 and 10 group with a sorter on their single [GROUP BY] column,
    which takes its direction from the single [ORDER BY] term, [DESC] in
    all five.  Queries 2 and 8 sort by their grouping column.  TEXT is
    compared bytewise and NULL is the smallest value.  The [CHECK]
    constraints fix the texts of the three enumerated columns; these are
    their places in text order. *)

(** The texts that the [CHECK] constraints admit. *)
Definition segment_text (s : segment) : string :=
  match s with
  | Premium => "Premium"
  | Standard => "Standard"
  | Basic => "Basic"
  end.

Definition channel_text (c : channel) : string :=
  match c with
  | Online => "Online"
  | In_Store => "In-Store"
  | Mobile_App => "Mobile App"
  end.

Definition payment_text (p : payment) : string :=
  match p with
  | Credit_Card => "Credit Card"
  | Debit_Card => "Debit Card"
  | Cash => "Cash"
  | PayPal => "PayPal"
  end.

(** NULL, 'Basic', 'Premium', 'Standard'. *)
Definition segment_place (s : option segment) : Z :=
  match s with
  | None => 0
  | Some Basic => 1
  | Some Premium => 2
  | Some Standard => 3
  end.

(** NULL, 'In-Store', 'Mobile App', 'Online'. *)
Definition channel_place (c : option channel) : Z :=
  match c with
  | None => 0
  | Some In_Store => 1
  | Some Mobile_App => 2
  | Some Online => 3
  end.

(** NULL, 'Cash', 'Credit Card', 'Debit Card', 'PayPal'. *)
Definition payment_place (p : option payment) : Z :=
  match p with
  | None => 0
  | Some Cash => 1
  | Some Credit_Card => 2
  | Some Debit_Card => 3
  | Some PayPal => 4
  end.

(** The order of a nullable TEXT column. *)
Definition null_text_leb (x y : option string) : bool :=
  match x, y with
  | None, _ => true
  | Some _, None => false
  | Some s1, Some s2 => text_leb s1 s2
  end.

(** Query 1, top customers by total spending.  [result_limit n] is the
    query with [LIMIT n]; the script writes [LIMIT 10]. *)
Module TopCustomers.
Record row : Type := {
  customer_id : Z;
  customer_name : string;
  customer_segment : option segment;
  total_spent : option Q;
  total_orders : Z;
  avg_order_value : option Q
}.

Definition key : Type := Z * (string * (string * option segment)).

Definition key_eqb : key -> key -> bool :=
  pair_eqb Z.eqb (pair_eqb String.eqb (pair_eqb String.eqb (option_eqb segment_eqb))).

Definition group_key (ct : customer * transaction) : key :=
  (Customers.customer_id (fst ct),
   (Customers.first_name (fst ct),
    (Customers.last_name (fst ct), Customers.customer_segment (fst ct)))).

Definition select (kg : key * list (customer * transaction)) : row :=
  let ts := map snd (snd kg) in
  {| customer_id := fst (fst kg);
     customer_name := (fst (snd (fst kg)) ++ " " ++ fst (snd (snd (fst kg))))%string;
     customer_segment := snd (snd (snd (fst kg)));
     total_spent := SUM (amounts ts);
     total_orders := COUNT (transaction_ids ts);
     avg_order_value := AVG (amounts ts) |}.

Definition groups (cs : list customer) (txs : list transaction) : list row :=
  map select (group_by key_eqb group_key (inner_join on_customer cs txs)).

(** [ORDER BY total_spent DESC] *)
Definition before (a b : row) : bool := value_leb (total_spent b) (total_spent a).

Definition result_limit (n : nat) (cs : list customer) (txs : list transaction)
    (out : list row) : Prop :=
  exists sorted, ordered_by before (groups cs txs) sorted /\ out = LIMIT n sorted.

Definition result := result_limit 10.

(** The row of the group of customer [c]: the join keeps the transactions
    of [c], all of them. *)
Definition row_of (c : customer) (txs : list transaction) : row :=
  let ts := filter (on_customer c) txs in
  {| customer_id := Customers.customer_id c;
     customer_name := (Customers.first_name c ++ " " ++ Customers.last_name c)%string;
     customer_segment := Customers.customer_segment c;
     total_spent := SUM (amounts ts);
     total_orders := COUNT (transaction_ids ts);
     avg_order_value := AVG (amounts ts) |}.

(** The order of [idx_customers_segment]: by segment, then by id. *)
Definition read_before (a b : customer) : bool :=
  (segment_place (Customers.customer_segment a) <? segment_place (Customers.customer_segment b))
  || ((segment_place (Customers.customer_segment a)
       =? segment_place (Customers.customer_segment b))
      && (Customers.customer_id a <=? Customers.customer_id b)).

Definition idx_customers_segment (cs : list customer) : list customer :=
  sort_rows read_before cs.

(** The customers are read in the order of the index, so the groups reach
    the sorter in that order. *)
Definition run_limit (n : nat) (cs : list customer) (txs : list transaction) : list row :=
  LIMIT n (sort_rows before (groups (idx_customers_segment cs) txs)).

Definition run := run_limit 10.
End TopCustomers.

(** Query 2, monthly sales trend (also the view [monthly_sales_trend],
    which lacks [total_items_sold]). *)
Module MonthlyTrend.
Record row : Type := {
  month : string;
  total_transactions : Z;
  total_revenue : option Q;
  avg_order_value : option Q;
  unique_customers : Z;
  total_items_sold : option Q
}.

Definition group_key (t : transaction) : string :=
  strftime_Ym (Transactions.transaction_date t).

Definition select (kg : string * list transaction) : row :=
  {| month := fst kg;
     total_transactions := COUNT (transaction_ids (snd kg));
     total_revenue := SUM (amounts (snd kg));
     avg_order_value := AVG (amounts (snd kg));
     unique_customers := COUNT_DISTINCT (customer_ids (snd kg));
     total_items_sold := SUM (quantities (snd kg)) |}.

Definition groups (txs : list transaction) : list row :=
  map select (group_by String.eqb group_key txs).

(** [ORDER BY month] *)
Definition before (a b : row) : bool := text_leb (month a) (month b).

Definition result (txs : list transaction) (out : list row) : Prop :=
  ordered_by before (groups txs) out.

Definition run (txs : list transaction) : list row :=
  sort_rows before (groups txs).
End MonthlyTrend.

(** Query 3, product category performance. *)
Module CategoryPerformance.
Record row : Type := {
  category : string;
  total_sales : Z;
  total_revenue : option Q;
  avg_sale_amount : option Q;
  total_quantity_sold : option Q;
  unique_customers : Z
}.

Definition group_key (pt : product * transaction) : string :=
  Products.category (fst pt).

Definition select (kg : string * list (product * transaction)) : row :=
  let ts := map snd (snd kg) in
  {| category := fst kg;
     total_sales := COUNT (transaction_ids ts);
     total_revenue := SUM (amounts ts);
     avg_sale_amount := AVG (amounts ts);
     total_quantity_sold := SUM (quantities ts);
     unique_customers := COUNT_DISTINCT (customer_ids ts) |}.

Definition groups (ps : list product) (txs : list transaction) : list row :=
  map select (group_by String.eqb group_key (inner_join on_product ps txs)).

(** [ORDER BY total_revenue DESC] *)
Definition before (a b : row) : bool := value_leb (total_revenue b) (total_revenue a).

Definition result (ps : list product) (txs : list transaction) (out : list row) : Prop :=
  ordered_by before (groups ps txs) out.

(** The groups come in the order of [idx_products_category]. *)
Definition emitted_before (a b : row) : bool := text_leb (category a) (category b).

Definition run (ps : list product) (txs : list transaction) : list row :=
  sort_rows before (sort_rows emitted_before (groups ps txs)).
End CategoryPerformance.

(** Query 4, customer segmentation, over the view [customer_metrics]. *)
Module CustomerSegmentation.
Record row : Type := {
  customer_segment : option segment;
  customer_count : Z;
  avg_customer_value : option Q;
  avg_transactions_per_customer : option Q;
  avg_order_value : option Q
}.

Definition select (kg : option segment * list CustomerMetrics.row) : row :=
  {| customer_segment := fst kg;
     customer_count := COUNT_star (snd kg);
     avg_customer_value := AVG (map CustomerMetrics.total_spent (snd kg));
     avg_transactions_per_customer :=
       AVG (map (fun m => Some (inject_Z (CustomerMetrics.total_transactions m))) (snd kg));
     avg_order_value := AVG (map CustomerMetrics.avg_order_value (snd kg)) |}.

Definition groups (cs : list customer) (txs : list transaction) : list row :=
  map select (group_by (option_eqb segment_eqb) CustomerMetrics.customer_segment
                       (CustomerMetrics.view cs txs)).

(** [ORDER BY avg_customer_value DESC] *)
Definition before (a b : row) : bool :=
  value_leb (avg_customer_value b) (avg_customer_value a).

Definition result (cs : list customer) (txs : list transaction) (out : list row) : Prop :=
  ordered_by before (groups cs txs) out.

(** The groups come in descending order of the segment. *)
Definition emitted_before (a b : row) : bool :=
  segment_place (customer_segment b) <=? segment_place (customer_segment a).

Definition run (cs : list customer) (txs : list transaction) : list row :=
  sort_rows before (sort_rows emitted_before (groups cs txs)).
End CustomerSegmentation.

(** "Product Profitability Analysis" of the presentation: profit per
    category over the same join as query 3. *)
Module ProductProfitability.
Record row : Type := {
  category : string;
  total_profit : option Q;
  total_revenue : option Q;
  profit_margin : option Q
}.

(** [(p.price - p.cost) * t.quantity] for each joined pair. *)
Definition profits (g : list (product * transaction)) : list (option Q) :=
  map (fun pt =>
         Some ((decimal (Products.price (fst pt)) - decimal (Products.cost (fst pt)))
               * inject_Z (Transactions.quantity (snd pt)))%Q) g.

(** [ROUND(profit * 100.0 / revenue, 2)]; a division by zero is NULL. *)
Definition margin (profit revenue : option Q) : option Q :=
  match profit, revenue with
  | Some p, Some r => if Qeq_bool r 0 then None else Some (ROUND (p * 100 / r) 2)
  | _, _ => None
  end.

Definition select (kg : string * list (product * transaction)) : row :=
  {| category := fst kg;
     total_profit := SUM (profits (snd kg));
     total_revenue := SUM (amounts (map snd (snd kg)));
     profit_margin := margin (SUM (profits (snd kg))) (SUM (amounts (map snd (snd kg)))) |}.

Definition groups (ps : list product) (txs : list transaction) : list row :=
  map select (group_by String.eqb (fun pt => Products.category (fst pt))
                       (inner_join on_product ps txs)).

(** [ORDER BY total_profit DESC] *)
Definition before (a b : row) : bool := value_leb (total_profit b) (total_profit a).

Definition result (ps : list product) (txs : list transaction) (out : list row) : Prop :=
  ordered_by before (groups ps txs) out.

Definition run (ps : list product) (txs : list transaction) : list row :=
  sort_rows before (groups ps txs).
End ProductProfitability.

(** [ROUND(COUNT(transaction_id) * 100.0 / (SELECT COUNT( * ) FROM transactions), 2)] *)
Definition percentage_of (g all : list transaction) : Q :=
  ROUND (inject_Z (COUNT (transaction_ids g)) * 100 / inject_Z (COUNT_star all)) 2.

(** Query 5, sales channel performance. *)
Module ChannelPerformance.
Record row : Type := {
  sales_channel : option channel;
  total_transactions : Z;
  total_revenue : option Q;
  avg_order_value : option Q;
  unique_customers : Z;
  percentage_of_total : Q
}.

Definition select (all : list transaction) (kg : option channel * list transaction) : row :=
  {| sales_channel := fst kg;
     total_transactions := COUNT (transaction_ids (snd kg));
     total_revenue := SUM (amounts (snd kg));
     avg_order_value := AVG (amounts (snd kg));
     unique_customers := COUNT_DISTINCT (customer_ids (snd kg));
     percentage_of_total := percentage_of (snd kg) all |}.

Definition groups (txs : list transaction) : list row :=
  map (select txs) (group_by (option_eqb channel_eqb) Transactions.sales_channel txs).

(** [ORDER BY total_revenue DESC] *)
Definition before (a b : row) : bool := value_leb (total_revenue b) (total_revenue a).

Definition result (txs : list transaction) (out : list row) : Prop :=
  ordered_by before (groups txs) out.

(** The groups come in descending order of the channel. *)
Definition emitted_before (a b : row) : bool :=
  channel_place (sales_channel b) <=? channel_place (sales_channel a).

Definition run (txs : list transaction) : list row :=
  sort_rows before (sort_rows emitted_before (groups txs)).
End ChannelPerformance.

(** Query 6, payment method analysis. *)
Module PaymentAnalysis.
Record row : Type := {
  payment_method : option payment;
  transaction_count : Z;
  total_amount : option Q;
  avg_transaction_value : option Q;
  usage_percentage : Q
}.

Definition select (all : list transaction) (kg : option payment * list transaction) : row :=
  {| payment_method := fst kg;
     transaction_count := COUNT (transaction_ids (snd kg));
     total_amount := SUM (amounts (snd kg));
     avg_transaction_value := AVG (amounts (snd kg));
     usage_percentage := percentage_of (snd kg) all |}.

Definition groups (txs : list transaction) : list row :=
  map (select txs) (group_by (option_eqb payment_eqb) Transactions.payment_method txs).

(** [ORDER BY transaction_count DESC] *)
Definition before (a b : row) : bool := transaction_count b <=? transaction_count a.

Definition result (txs : list transaction) (out : list row) : Prop :=
  ordered_by before (groups txs) out.

(** The groups come in descending order of the payment method. *)
Definition emitted_before (a b : row) : bool :=
  payment_place (payment_method b) <=? payment_place (payment_method a).

Definition run (txs : list transaction) : list row :=
  sort_rows before (sort_rows emitted_before (groups txs)).
End PaymentAnalysis.

(** Query 7, top performing products; [LIMIT 10] in the script. *)
Module TopProducts.
Record row : Type := {
  product_name : string;
  category : string;
  brand : option string;
  price : Q;
  times_sold : Z;
  total_quantity : option Q;
  total_revenue : option Q;
  total_profit : option Q
}.

Definition key : Type := Z * (string * (string * (option string * (Z * Z)))).

Definition key_eqb : key -> key -> bool :=
  pair_eqb Z.eqb
    (pair_eqb String.eqb
       (pair_eqb String.eqb
          (pair_eqb (option_eqb String.eqb) (pair_eqb Z.eqb Z.eqb)))).

Definition group_key (pt : product * transaction) : key :=
  (Products.product_id (fst pt),
   (Products.product_name (fst pt),
    (Products.category (fst pt),
     (Products.brand (fst pt),
      (Products.price (fst pt), Products.cost (fst pt)))))).

Definition key_price (k : key) : Z := fst (snd (snd (snd (snd k)))).
Definition key_cost (k : key) : Z := snd (snd (snd (snd (snd k)))).

(** [ROUND((p.price - p.cost) * SUM(t.quantity), 2)] *)
Definition profit (price cost : Z) (ts : list transaction) : option Q :=
  option_map (fun q => ROUND ((decimal price - decimal cost) * q) 2)
             (SUM (quantities ts)).

Definition select (kg : key * list (product * transaction)) : row :=
  let ts := map snd (snd kg) in
  {| product_name := fst (snd (fst kg));
     category := fst (snd (snd (fst kg)));
     brand := fst (snd (snd (snd (fst kg))));
     price := decimal (key_price (fst kg));
     times_sold := COUNT (transaction_ids ts);
     total_quantity := SUM (quantities ts);
     total_revenue := SUM (amounts ts);
     total_profit := profit (key_price (fst kg)) (key_cost (fst kg)) ts |}.

Definition groups (ps : list product) (txs : list transaction) : list row :=
  map select (group_by key_eqb group_key (inner_join on_product ps txs)).

(** [ORDER BY total_revenue DESC] *)
Definition before (a b : row) : bool := value_leb (total_revenue b) (total_revenue a).

Definition result_limit (n : nat) (ps : list product) (txs : list transaction)
    (out : list row) : Prop :=
  exists sorted, ordered_by before (groups ps txs) sorted /\ out = LIMIT n sorted.

Definition result := result_limit 10.

(** The row of the group of product [p]: the join keeps the transactions
    of [p], all of them. *)
Definition row_of (p : product) (txs : list transaction) : row :=
  let ts := filter (on_product p) txs in
  {| product_name := Products.product_name p;
     category := Products.category p;
     brand := Products.brand p;
     price := decimal (Products.price p);
     times_sold := COUNT (transaction_ids ts);
     total_quantity := SUM (quantities ts);
     total_revenue := SUM (amounts ts);
     total_profit := profit (Products.price p) (Products.cost p) ts |}.

(** The order of [idx_products_category]: by category, then by id. *)
Definition read_before (a b : product) : bool :=
  match String_as_OT.compare (Products.category a) (Products.category b) with
  | Lt => true
  | Eq => Products.product_id a <=? Products.product_id b
  | Gt => false
  end.

Definition idx_products_category (ps : list product) : list product :=
  sort_rows read_before ps.

(** The products are read in the order of the index, so the groups reach
    the sorter in that order. *)
Definition run_limit (n : nat) (ps : list product) (txs : list transaction) : list row :=
  LIMIT n (sort_rows before (groups (idx_products_category ps) txs)).

Definition run := run_limit 10.
End TopProducts.

(** Query 9, discount impact.  The four branches of the [CASE] are the
    constructors of [discount_bucket]; [discount_label] is the text each
    branch yields.  Thresholds are in cents. *)
Inductive discount_bucket : Type :=
| No_Discount | Low_Discount | Medium_Discount | High_Discount.

Definition discount_label (b : discount_bucket) : string :=
  match b with
  | No_Discount => "No Discount"
  | Low_Discount => "Low Discount (â‰¤$10)"
  | Medium_Discount => "Medium Discount ($11-$25)"
  | High_Discount => "High Discount (>$25)"
  end.

Definition bucket_eqb (x y : discount_bucket) : bool :=
  match x, y with
  | No_Discount, No_Discount | Low_Discount, Low_Discount
  | Medium_Discount, Medium_Discount | High_Discount, High_Discount => true
  | _, _ => false
  end.

(** A comparison with NULL is not true, so a NULL discount reaches [ELSE]. *)
Definition case_discount_amount (t : transaction) : discount_bucket :=
  match Transactions.discount_amount t with
  | Some d =>
      if d =? 0 then No_Discount
      else if d <=? 1000 then Low_Discount
      else if d <=? 2500 then Medium_Discount
      else High_Discount
  | None => High_Discount
  end.

Module DiscountImpact.
Record row : Type := {
  discount_category : discount_bucket;
  transaction_count : Z;
  avg_order_value : option Q;
  avg_items_per_order : option Q;
  total_revenue : option Q
}.

Definition select (kg : discount_bucket * list transaction) : row :=
  {| discount_category := fst kg;
     transaction_count := COUNT (transaction_ids (snd kg));
     avg_order_value := AVG (amounts (snd kg));
     avg_items_per_order := AVG (quantities (snd kg));
     total_revenue := SUM (amounts (snd kg)) |}.

Definition groups (txs : list transaction) : list row :=
  map select (group_by bucket_eqb case_discount_amount txs).

(** [ORDER BY avg_order_value DESC] *)
Definition before (a b : row) : bool := value_leb (avg_order_value b) (avg_order_value a).

Definition result (txs : list transaction) (out : list row) : Prop :=
  ordered_by before (groups txs) out.

(** The groups come in descending order of the text of the category. *)
Definition emitted_before (a b : row) : bool :=
  text_leb (discount_label (discount_category b)) (discount_label (discount_category a)).

Definition run (txs : list transaction) : list row :=
  sort_rows before (sort_rows emitted_before (groups txs)).
End DiscountImpact.

(** Query 10, geographic sales distribution. *)
Module GeographicDistribution.
Record row : Type := {
  state : option string;
  customer_count : Z;
  total_transactions : Z;
  total_revenue : option Q;
  avg_order_value : option Q
}.

Definition group_key (ct : customer * transaction) : option string :=
  Customers.state (fst ct).

Definition select (kg : option string * list (customer * transaction)) : row :=
  let ts := map snd (snd kg) in
  {| state := fst kg;
     customer_count :=
       COUNT_DISTINCT (map (fun ct => Some (Customers.customer_id (fst ct))) (snd kg));
     total_transactions := COUNT (transaction_ids ts);
     total_revenue := SUM (amounts ts);
     avg_order_value := AVG (amounts ts) |}.

Definition groups (cs : list customer) (txs : list transaction) : list row :=
  map select (group_by (option_eqb String.eqb) group_key (inner_join on_customer cs txs)).

(** [ORDER BY total_revenue DESC] *)
Definition before (a b : row) : bool := value_leb (total_revenue b) (total_revenue a).

Definition result (cs : list customer) (txs : list transaction) (out : list row) : Prop :=
  ordered_by before (groups cs txs) out.

(** The groups come in descending order of the state. *)
Definition emitted_before (a b : row) : bool := null_text_leb (state b) (state a).

Definition run (cs : list customer) (txs : list transaction) : list row :=
  sort_rows before (sort_rows emitted_before (groups cs txs)).
End GeographicDistribution.

(* ------------------------------------------------------------------ *)
(** ** Facts about the aggregates *)

Definition total_cents (ts : list transaction) : Z :=
  Zsum (map Transactions.total_amount ts).
Definition total_units (ts : list transaction) : Z :=
  Zsum (map Transactions.quantity ts).

(** A transaction whose [customer_id] (or [product_id]) is the key of a row
    of the referenced table. *)
Definition has_customer (cs : list customer) (t : transaction) : bool :=
  existsb (fun c => on_customer c t) cs.
Definition has_product (ps : list product) (t : transaction) : bool :=
  existsb (fun p => on_product p t) ps.

(* ------------------------------------------------------------------ *)
(** ** The custom-query validator ([docs/technical_documentation.md])

    [dangerous_keywords = ['DROP', 'DELETE', 'UPDATE', 'ALTER', 'CREATE']]
    [if any(keyword in query.upper() for keyword in dangerous_keywords):]
    [    raise ValueError("Modification queries not allowed")]

    Query text is a byte string; [upper] maps the ASCII letters. *)
Module Validator.
Definition upper_char (c : ascii) : ascii :=
  let n := nat_of_ascii c in
  if ((97 <=? n) && (n <=? 122))%nat then ascii_of_nat (n - 32) else c.

Fixpoint upper (s : string) : string :=
  match s with
  | EmptyString => EmptyString
  | String c rest => String (upper_char c) (upper rest)
  end.

Fixpoint starts_with (k s : string) : bool :=
  match k, s with
  | EmptyString, _ => true
  | String _ _, EmptyString => false
  | String a k', String b s' => Ascii.eqb a b && starts_with k' s'
  end.

(** [k in s] *)
Fixpoint contains (k s : string) : bool :=
  starts_with k s ||
  match s with
  | EmptyString => false
  | String _ rest => contains k rest
  end.

Definition dangerous_keywords : list string :=
  ["DROP"; "DELETE"; "UPDATE"; "ALTER"; "CREATE"]%string.

Inductive outcome : Type :=
| Passed : outcome
| ValueError : string -> outcome.

Definition validate (query : string) : outcome :=
  if existsb (fun keyword => contains keyword (upper query)) dangerous_keywords
  then ValueError "Modification queries not allowed"
  else Passed.

(** The custom-query path: validation first, then the database, which
    answers with rows or with an error of its own. *)
Inductive answer (R E : Type) : Type :=
| Rejected : string -> answer R E
| QueryError : E -> answer R E
| Rows : R -> answer R E.

Definition custom_query (R E : Type) (execute : string -> R + E) (query : string)
  : answer R E :=
  match validate query with
  | ValueError msg => Rejected R E msg
  | Passed =>
      match execute query with
      | inl rows => Rows E rows
      | inr e => QueryError R e
      end
  end.

(** [k] occurs in [s]. *)
Definition occurs_in (k s : string) : Prop :=
  exists before after, s = (before ++ k ++ after)%string.
End Validator.

(* ------------------------------------------------------------------ *)
(** ** Growth figures of the dashboard components

    JavaScript numbers are taken as exact rationals.  [toFixed1 x] stands
    for the number that [x.toFixed(1)] prints, the multiple of 1/10 nearest
    to [x].  JavaScript rounds the binary double behind [x], so on a
    decimal tie such as 0.45 it prints 0.4 where [toFixed1] gives 0.5; the
    properties of the growth figures therefore use only that the printed
    number lies within 1/20 of [x], which holds either way. *)
Module Dashboard.

Definition toFixed1 (x : Q) : Q := ROUND x 1.

(** [((current - previous) / previous * 100)]; not a finite number when
    [previous] is zero. *)
Definition change (current previous : Q) : option Q :=
  if Qeq_bool previous 0 then None
  else Some ((current - previous) / previous * 100)%Q.






End Dashboard.

(* ------------------------------------------------------------------ *)
(** ** Reports the sources only name *)

Module Engine.
(** Modelled from the spec: the single row of [totalMetrics()]. *)
Record total_metrics_row : Type := {
  total_revenue : Q;
  transaction_count : Z;
  average_order_value : Q;
  distinct_customers : Z
}.

(** Modelled from the spec: [totalMetrics()], the [total_metrics] entry of
    [DataAnalyzer.sales_performance_analysis()], whose code is not in the
    sources.  Total revenue is the sum of [total_amount], average order
    value is total revenue / transaction count and 0 if there is no
    transaction, distinct customers are the unique customer ids appearing
    in transactions. *)
Definition totalMetrics (txs : list transaction) : total_metrics_row :=
  {| total_revenue := Qred (decimal (total_cents txs));
     transaction_count := Z.of_nat (length txs);
     average_order_value :=
       match txs with
       | [] => 0%Q
       | _ => Qred (decimal (total_cents txs) / inject_Z (Z.of_nat (length txs)))
       end;
     distinct_customers :=
       Z.of_nat (length (distinct Z.eqb (map Transactions.customer_id txs))) |}.

(** Modelled from the spec: a row of [monthlyTrend()], a row of query 2
    with its growth rate. *)
Record trend_row : Type := {
  trend : MonthlyTrend.row;
  growth_rate : option Q
}.

(** Modelled from the spec: the growth rate of a month,
    [(revenue[month] - revenue[previous month]) / revenue[previous month] * 100]
    rounded to 1 decimal place, null when the division has no value. *)
Definition growth (previous current : option Q) : option Q :=
  match previous, current with
  | Some p, Some c =>
      if Qeq_bool p 0 then None else Some (ROUND ((c - p) / p * 100) 1)
  | _, _ => None
  end.

(** Modelled from the spec: the growth-rate column of [monthlyTrend()]
    (the [monthly_trend] entry of
    [DataAnalyzer.sales_performance_analysis()], whose code is not in the
    sources), added to the rows of query 2; undefined for the first
    month.  [previous] is the revenue of the preceding row, if any. *)
Fixpoint with_growth (previous : option (option Q)) (rows : list MonthlyTrend.row)
  : list trend_row :=
  match rows with
  | [] => []
  | r :: rest =>
      {| trend := r;
         growth_rate :=
           match previous with
           | None => None
           | Some p => growth p (MonthlyTrend.total_revenue r)
           end |}
      :: with_growth (Some (MonthlyTrend.total_revenue r)) rest
  end.

(** Modelled from the spec: [monthlyTrend()], the rows of query 2 in month
    order with their growth rate. *)
Definition monthlyTrend (txs : list transaction) : list trend_row :=
  with_growth None (MonthlyTrend.run txs).

(** Modelled from the spec: a row of [categoryAnalysis()] or
    [brandAnalysis()]. *)
Record analysis_row (K : Type) : Type := {
  group : K;
  transaction_total : Z;
  revenue : option Q;
  average_sale : option Q;
  quantity_total : option Q;
  customers : Z;
  profit : option Q
}.

(** Modelled from the spec: [categoryAnalysis()] and [brandAnalysis()]
    (the category and brand performance of
    [DataAnalyzer.product_analysis()], whose code is not in the sources):
    one row per category (or brand) of the products joined to a
    transaction, with the columns of query 3 and the profit
    [sum((product.price - product.cost) * transaction.quantity)] of the
    profitability query, rounded to 2 decimals. *)
Definition analysis (K : Type) (eqb : K -> K -> bool) (key : product -> K)
    (ps : list product) (txs : list transaction) : list (analysis_row K) :=
  map (fun kg =>
         let ts := map snd (snd kg) in
         {| group := fst kg;
            transaction_total := COUNT (transaction_ids ts);
            revenue := SUM (amounts ts);
            average_sale := AVG (amounts ts);
            quantity_total := SUM (quantities ts);
            customers := COUNT_DISTINCT (customer_ids ts);
            profit := option_map (fun x => ROUND x 2)
                                 (SUM (ProductProfitability.profits (snd kg))) |})
      (group_by eqb (fun pt => key (fst pt)) (inner_join on_product ps txs)).

(** Modelled from the spec: [categoryAnalysis()], the analysis keyed by
    [products.category]. *)
Definition categoryAnalysis : list product -> list transaction -> list (analysis_row string) :=
  analysis String.eqb Products.category.

(** Modelled from the spec: [brandAnalysis()], the analysis keyed by
    [products.brand]. *)
Definition brandAnalysis
  : list product -> list transaction -> list (analysis_row (option string)) :=
  analysis (option_eqb String.eqb) Products.brand.
End Engine.

(* ------------------------------------------------------------------ *)
(** ** Sample data and derived quantities *)

Definition sample_transaction (id cust prod : Z) (y m : nat) (qty total : Z)
    (discount : option Z) : transaction :=
  {| Transactions.transaction_id := id;
     Transactions.customer_id := cust;
     Transactions.product_id := prod;
     Transactions.transaction_date := {| year := y; month := m; day := 1 |};
     Transactions.quantity := qty;
     Transactions.unit_price := total;
     Transactions.total_amount := total;
     Transactions.discount_amount := discount;
     Transactions.payment_method := Some Credit_Card;
     Transactions.sales_channel := Some Online |}.

Definition boundary_transactions : list transaction :=
  [ sample_transaction 1 1 1 2023 5 1 8000 (Some 1000);
    sample_transaction 2 2 1 2023 5 2 9000 (Some 1001);
    sample_transaction 3 3 1 2023 6 1 5000 (Some 0) ].

Definition sample_customer (id : Z) (name : string) (st : string) (seg : option segment)
  : customer :=
  {| Customers.customer_id := id;
     Customers.first_name := name;
     Customers.last_name := "Doe";
     Customers.city := None;
     Customers.state := Some st;
     Customers.customer_segment := seg |}.

Definition sample_product (id : Z) (name cat : string) (price cost : Z) : product :=
  {| Products.product_id := id;
     Products.product_name := name;
     Products.category := cat;
     Products.brand := Some "TechBrand"%string;
     Products.price := price;
     Products.cost := cost |}.

(** Three customers, two products (100.00 / 50.00 and 50.00 / 20.00), four
    transactions in two months; the last one names product 99. *)
Definition scenario_customers : list customer :=
  [ sample_customer 1 "Ann" "NY" (Some Premium);
    sample_customer 2 "Bob" "CA" (Some Standard);
    sample_customer 3 "Cid" "TX" (Some Basic) ].

Definition scenario_products : list product :=
  [ sample_product 1 "Headphones" "Electronics" 10000 5000;
    sample_product 2 "Case" "Accessories" 5000 2000 ].

Definition dangling_product_transaction : transaction :=
  sample_transaction 4 1 99 2023 6 1 7000 (Some 0).

Definition scenario_transactions : list transaction :=
  [ sample_transaction 1 1 1 2023 5 1 10000 (Some 0);
    sample_transaction 2 2 2 2023 5 2 10000 (Some 0);
    sample_transaction 3 3 1 2023 6 1 10000 (Some 500);
    dangling_product_transaction ].

(** A transaction of an unknown customer for a known product. *)
Definition dangling_customer_transaction : transaction :=
  sample_transaction 5 99 1 2023 6 1 7000 (Some 0).

Definition idle_customers : list customer :=
  [ sample_customer 1 "Ann" "NY" (Some Premium) ].

(** Profit of the joined pairs, in cents. *)
Definition profit_cents (g : list (product * transaction)) : Z :=
  Zsum (map (fun pt => (Products.price (fst pt) - Products.cost (fst pt))
                       * Transactions.quantity (snd pt)) g).

Definition select_updated_query : string :=
  "SELECT customer_id, last_updated FROM customers".

Definition insert_query : string :=
  "INSERT INTO customers (customer_id, first_name) VALUES (99, 'Eve')".


(** The joined pairs a row of the analysis aggregates. *)
Definition analysis_group (K : Type) (eqb : K -> K -> bool) (key : product -> K)
    (ps : list product) (txs : list transaction) (k : K)
  : list (product * transaction) :=
  group_of eqb (fun pt => key (fst pt)) k (inner_join on_product ps txs).

(* ------------------------------------------------------------------ *)
(** ** Further views and queries of the scripts *)

(** The rows a [LEFT JOIN] keeps for one row [a] of its left table. *)
Definition left_rows (A B : Type) (on : A -> B -> bool) (lb : list B) (a : A)
  : list (A * option B) :=
  match filter (on a) lb with
  | [] => [(a, None)]
  | ms => map (fun b => (a, Some b)) ms
  end.

(** [CREATE VIEW product_performance]: every product with the aggregates of
    its sales. *)
Module ProductPerformance.
Record row : Type := {
  product_id : Z;
  product_name : string;
  category : string;
  brand : option string;
  price : Q;
  total_sales : Z;
  total_quantity_sold : option Q;
  total_revenue : option Q;
  avg_sale_amount : option Q
}.

Definition joined (ps : list product) (txs : list transaction)
  : list (product * option transaction) :=
  left_join on_product ps txs.

Definition t_amounts (g : list (product * option transaction)) : list (option Q) :=
  map (fun pt => option_map (fun t => decimal (Transactions.total_amount t)) (snd pt)) g.

Definition t_quantities (g : list (product * option transaction)) : list (option Q) :=
  map (fun pt => option_map (fun t => inject_Z (Transactions.quantity t)) (snd pt)) g.

Definition select (p0 : product) (g : list (product * option transaction)) : row :=
  {| product_id := Products.product_id p0;
     product_name := Products.product_name p0;
     category := Products.category p0;
     brand := Products.brand p0;
     price := decimal (Products.price p0);
     total_sales :=
       COUNT (map (fun pt => option_map Transactions.transaction_id (snd pt)) g);
     total_quantity_sold := SUM (t_quantities g);
     total_revenue := SUM (t_amounts g);
     avg_sale_amount := AVG (t_amounts g) |}.

Definition view (ps : list product) (txs : list transaction) : list row :=
  flat_map (fun kg =>
              match snd kg with
              | [] => []
              | pt :: _ => [select (fst pt) (snd kg)]
              end)
           (group_by Z.eqb (fun pt => Products.product_id (fst pt)) (joined ps txs)).
End ProductPerformance.

(** [MIN] and [MAX] of a TEXT column. *)
Fixpoint MIN_text (col : list (option string)) : option string :=
  match col with
  | [] => None
  | None :: rest => MIN_text rest
  | Some s :: rest =>
      match MIN_text rest with
      | None => Some s
      | Some m => Some (if text_leb s m then s else m)
      end
  end.

Fixpoint MAX_text (col : list (option string)) : option string :=
  match col with
  | [] => None
  | None :: rest => MAX_text rest
  | Some s :: rest =>
      match MAX_text rest with
      | None => Some s
      | Some m => Some (if text_leb m s then s else m)
      end
  end.

(** Query 8, customer retention: its two common table expressions and the
    final [SELECT].  The two expressions have no [ORDER BY]: the order in
    which [rows] lists them (first occurrence in [txs]) stands for whatever
    order the engine produces, and the final [SELECT], which groups them
    again and sorts by its own key, does not depend on it. *)
Module CustomerPurchaseMonths.
Record row : Type := {
  customer_id : Z;
  purchase_month : string;
  monthly_transactions : Z
}.

Definition group_key (t : transaction) : Z * string :=
  (Transactions.customer_id t, strftime_Ym (Transactions.transaction_date t)).

Definition select (kg : (Z * string) * list transaction) : row :=
  {| customer_id := fst (fst kg);
     purchase_month := snd (fst kg);
     monthly_transactions := COUNT (transaction_ids (snd kg)) |}.

Definition rows (txs : list transaction) : list row :=
  map select (group_by (pair_eqb Z.eqb String.eqb) group_key txs).
End CustomerPurchaseMonths.

Module CustomerActivity.
Record row : Type := {
  customer_id : Z;
  active_months : Z;
  first_purchase_month : option string;
  last_purchase_month : option string
}.

Definition months (g : list CustomerPurchaseMonths.row) : list (option string) :=
  map (fun r => Some (CustomerPurchaseMonths.purchase_month r)) g.

Definition select (kg : Z * list CustomerPurchaseMonths.row) : row :=
  {| customer_id := fst kg;
     active_months :=
       Z.of_nat (length (distinct String.eqb (non_null (months (snd kg)))));
     first_purchase_month := MIN_text (months (snd kg));
     last_purchase_month := MAX_text (months (snd kg)) |}.

Definition rows (txs : list transaction) : list row :=
  map select (group_by Z.eqb CustomerPurchaseMonths.customer_id
                       (CustomerPurchaseMonths.rows txs)).
End CustomerActivity.

Module Retention.
Record row : Type := {
  active_months : Z;
  customer_count : Z;
  percentage : Q
}.

(** [ROUND(COUNT( * ) * 100.0 / (SELECT COUNT(DISTINCT customer_id) FROM transactions), 2)] *)
Definition select (all : list transaction) (kg : Z * list CustomerActivity.row) : row :=
  {| active_months := fst kg;
     customer_count := COUNT_star (snd kg);
     percentage :=
       ROUND (inject_Z (COUNT_star (snd kg)) * 100
              / inject_Z (COUNT_DISTINCT (customer_ids all))) 2 |}.

Definition groups (txs : list transaction) : list row :=
  map (select txs) (group_by Z.eqb CustomerActivity.active_months
                             (CustomerActivity.rows txs)).

(** [ORDER BY active_months] *)
Definition before (a b : row) : bool := active_months a <=? active_months b.

Definition result (txs : list transaction) (out : list row) : Prop :=
  ordered_by before (groups txs) out.

Definition run (txs : list transaction) : list row := sort_rows before (groups txs).
End Retention.

(** The rows of [customer_metrics] that query 1 would show: customers with
    at least one transaction. *)
Definition metrics_to_top (m : CustomerMetrics.row) : TopCustomers.row :=
  {| TopCustomers.customer_id := CustomerMetrics.customer_id m;
     TopCustomers.customer_name := CustomerMetrics.customer_name m;
     TopCustomers.customer_segment := CustomerMetrics.customer_segment m;
     TopCustomers.total_spent := CustomerMetrics.total_spent m;
     TopCustomers.total_orders := CustomerMetrics.total_transactions m;
     TopCustomers.avg_order_value := CustomerMetrics.avg_order_value m |}.
(** "Customer Lifetime Value Analysis" of the presentation: the customers
    joined with their rows of [customer_metrics], per segment. *)
Module CustomerLifetimeValue.
Record row : Type := {
  customer_segment : option segment;
  avg_lifetime_value : option Q;
  avg_transactions : option Q;
  customer_count : Z
}.

(** [ON c.customer_id = customer_metrics.customer_id] *)
Definition on_metrics (c : customer) (m : CustomerMetrics.row) : bool :=
  Customers.customer_id c =? CustomerMetrics.customer_id m.

Definition select (kg : option segment * list (customer * CustomerMetrics.row)) : row :=
  let ms := map snd (snd kg) in
  {| customer_segment := fst kg;
     avg_lifetime_value := AVG (map CustomerMetrics.total_spent ms);
     avg_transactions :=
       AVG (map (fun m => Some (inject_Z (CustomerMetrics.total_transactions m))) ms);
     customer_count := COUNT_star (snd kg) |}.

Definition groups (cs : list customer) (txs : list transaction) : list row :=
  map select (group_by (option_eqb segment_eqb)
                       (fun cm => Customers.customer_segment (fst cm))
                       (inner_join on_metrics cs (CustomerMetrics.view cs txs))).

(** [ORDER BY avg_lifetime_value DESC] *)
Definition before (a b : row) : bool :=
  value_leb (avg_lifetime_value b) (avg_lifetime_value a).

Definition result (cs : list customer) (txs : list transaction) (out : list row) : Prop :=
  ordered_by before (groups cs txs) out.

Definition run (cs : list customer) (txs : list transaction) : list row :=
  sort_rows before (groups cs txs).
End CustomerLifetimeValue.

(** The columns that the lifetime-value query shares with query 4. *)
Definition segmentation_to_lifetime (r : CustomerSegmentation.row)
  : CustomerLifetimeValue.row :=
  {| CustomerLifetimeValue.customer_segment := CustomerSegmentation.customer_segment r;
     CustomerLifetimeValue.avg_lifetime_value := CustomerSegmentation.avg_customer_value r;
     CustomerLifetimeValue.avg_transactions :=
       CustomerSegmentation.avg_transactions_per_customer r;
     CustomerLifetimeValue.customer_count := CustomerSegmentation.customer_count r |}.

(** [strftime('%m', d)]: two digits of month. *)
Definition strftime_m (d : date) : string :=
  String (digit (month d / 10)) (String (digit (month d)) EmptyString).

(** "Seasonal Trend Analysis" of the presentation: the transactions per
    month of the year, all years together. *)
Module SeasonalTrend.
Record row : Type := {
  month : string;
  avg_order_value : option Q;
  transaction_count : Z;
  monthly_revenue : option Q
}.

Definition group_key (t : transaction) : string :=
  strftime_m (Transactions.transaction_date t).

Definition select (kg : string * list transaction) : row :=
  {| month := fst kg;
     avg_order_value := AVG (amounts (snd kg));
     transaction_count := COUNT (transaction_ids (snd kg));
     monthly_revenue := SUM (amounts (snd kg)) |}.

Definition groups (txs : list transaction) : list row :=
  map select (group_by String.eqb group_key txs).

(** [ORDER BY month] *)
Definition before (a b : row) : bool := text_leb (month a) (month b).

Definition result (txs : list transaction) (out : list row) : Prop :=
  ordered_by before (groups txs) out.

Definition run (txs : list transaction) : list row := sort_rows before (groups txs).
End SeasonalTrend.


(** The role check of the technical documentation. *)
Module AccessControl.
Definition permissions : list (string * list string) :=
  [ ("viewer", ["read"]);
    ("analyst", ["read"; "query"]);
    ("admin", ["read"; "query"; "modify"]) ]%string.

(** [d.get(key, default)] *)
Fixpoint get (d : list (string * list string)) (key : string) (default : list string)
  : list string :=
  match d with
  | [] => default
  | (k, v) :: rest => if String.eqb k key then v else get rest key default
  end.

Definition check_user_permission (user_role operation : string) : bool :=
  existsb (String.eqb operation) (get permissions user_role []).
End AccessControl.
(* ------------------------------------------------------------------ *)
(** ** Chart geometry and number formats of the dashboard components

    As above JavaScript numbers are taken as exact rationals, here with
    the non-finite values that a division by zero and [Math.max()] of
    nothing produce. *)
Module Charts.
Inductive number : Type :=
| Finite : Q -> number
| PosInfinity : number
| NegInfinity : number
| NaN : number.

Fixpoint maximum (values : list Q) : option Q :=
  match values with
  | [] => None
  | v :: rest =>
      match maximum rest with
      | None => Some v
      | Some m => Some (if Qle_bool m v then v else m)
      end
  end.

Fixpoint minimum (values : list Q) : option Q :=
  match values with
  | [] => None
  | v :: rest =>
      match minimum rest with
      | None => Some v
      | Some m => Some (if Qle_bool v m then v else m)
      end
  end.

(** [Math.max(...values)] *)
Definition Math_max (values : list Q) : number :=
  match maximum values with
  | Some m => Finite m
  | None => NegInfinity
  end.

(** [a / b] for a finite [a]. *)
Definition divide (a : Q) (b : number) : number :=
  match b with
  | Finite d =>
      if Qeq_bool d 0
      then (if Qeq_bool a 0 then NaN
            else if Qle_bool 0 a then PosInfinity else NegInfinity)
      else Finite (a / d)
  | PosInfinity | NegInfinity => Finite 0
  | NaN => NaN
  end.

(** [x * k] for a constant [k]. *)
Definition times (x : number) (k : Q) : number :=
  match x with
  | Finite q => Finite (q * k)
  | PosInfinity =>
      if Qeq_bool k 0 then NaN else if Qle_bool 0 k then PosInfinity else NegInfinity
  | NegInfinity =>
      if Qeq_bool k 0 then NaN else if Qle_bool 0 k then NegInfinity else PosInfinity
  | NaN => NaN
  end.

(** [c - x] for a constant [c]. *)
Definition minus_from (c : Q) (x : number) : number :=
  match x with
  | Finite q => Finite (c - q)
  | PosInfinity => NegInfinity
  | NegInfinity => PosInfinity
  | NaN => NaN
  end.

(** [x > c]; a comparison with [NaN] is false. *)
Definition greater (x : number) (c : Q) : bool :=
  match x with
  | Finite q => negb (Qle_bool q c)
  | PosInfinity => true
  | NegInfinity => false
  | NaN => false
  end.

(** HeatMap: [getIntensityColor]. *)
Definition getIntensityColor (value : Q) (max : number) : string :=
  let intensity := divide value max in
  if greater intensity (8 # 10) then "bg-purple-600"
  else if greater intensity (6 # 10) then "bg-purple-500"
  else if greater intensity (4 # 10) then "bg-purple-400"
  else if greater intensity (2 # 10) then "bg-purple-300"
  else "bg-purple-200".

(** HeatMap: the colour of each tile, for the [transactions] of the states. *)
Definition HeatMap_tiles (transactions : list Q) : list string :=
  map (fun value => getIntensityColor value (Math_max transactions)) transactions.

(** HeatMap: the legend, from "Low" to "High". *)
Definition legend : list string :=
  ["bg-purple-200"; "bg-purple-300"; "bg-purple-400"; "bg-purple-500"; "bg-purple-600"]%string.

(** The place of a colour in the legend. *)
Fixpoint place (colours : list string) (colour : string) : nat :=
  match colours with
  | [] => 0
  | c :: rest => if String.eqb c colour then 0 else S (place rest colour)
  end.

(** [values.slice(-n)] *)
Definition slice_last (A : Type) (n : nat) (values : list A) : list A :=
  skipn (length values - n) values.

(** TransactionChart and TimeSeriesChart: the [width] of a bar, in percent. *)
Definition bar_width (value : Q) (max : number) : number :=
  times (divide value max) 100.

(** The bars of the last [n] entries: [slice(-6)] in TransactionChart,
    [slice(-8)] in TimeSeriesChart. *)
Definition bars (n : nat) (values : list Q) : list number :=
  map (fun value => bar_width value (Math_max values)) (slice_last n values).

(** TimeSeriesChart: the points of the line, [x] and [y] of every entry. *)
Definition point (count : nat) (minValue maxValue : Q) (index : nat) (value : Q)
  : number * number :=
  (times (divide (inject_Z (Z.of_nat index))
                 (Finite (inject_Z (Z.of_nat count) - 1))) 800,
   minus_from 180
     (times (divide (value - minValue) (Finite (maxValue - minValue))) 160)).

Definition points (values : list Q) : list (number * number) :=
  match minimum values, maximum values with
  | Some minValue, Some maxValue =>
      map (fun iv => point (length values) minValue maxValue (fst iv) (snd iv))
          (combine (seq 0 (length values)) values)
  | _, _ => []
  end.

(** MetricsComparison: the sign before the percentage. *)
Definition change_sign (current previous : Q) : string :=
  if negb (Qle_bool current previous) then "+"
  else if negb (Qle_bool previous current) then "-"
  else "".

(** MetricsComparison: [getChangeColor]. *)
Definition getChangeColor (current previous : Q) : string :=
  if negb (Qle_bool current previous) then "text-green-600"
  else if negb (Qle_bool previous current) then "text-red-600"
  else "text-gray-600".

(** What [formatNumber] prints: a number with one decimal and a unit, or
    the number as it is. *)
Inductive formatted : Type :=
| Scaled : Q -> string -> formatted
| Plain : Q -> formatted.

(** mockData: [formatNumber]. *)
Definition formatNumber (num : Q) : formatted :=
  if Qle_bool 10000000 num then Scaled (Dashboard.toFixed1 (num / 10000000)) " Cr"
  else if Qle_bool 100000 num then Scaled (Dashboard.toFixed1 (num / 100000)) " L"
  else if Qle_bool 1000 num then Scaled (Dashboard.toFixed1 (num / 1000)) " K"
  else Plain num.

(** The value of a unit of [formatNumber]. *)
Definition unit_value (unit : string) : Q :=
  if String.eqb unit " Cr" then 10000000
  else if String.eqb unit " L" then 100000
  else 1000.
End Charts.
(* ------------------------------------------------------------------ *)
(** ** The statements of the schema script

    The catalog of the database holds the names of its tables, indexes
    (each with its table) and views; the three kinds share one name space.
    [DROP TABLE] removes a table with its indexes and leaves views alone. *)
Module Schema.
Inductive statement : Type :=
| DropTableIfExists : string -> statement
| CreateTable : string -> statement
| CreateIndex : string -> string -> statement
| CreateView : string -> statement.

Record catalog : Type := {
  tables : list string;
  indexes : list (string * string);
  views : list string
}.

Inductive error : Type :=
| AlreadyExists : string -> error
| NoSuchTable : string -> error
| IsView : string -> error.

Definition mem (name : string) (names : list string) : bool :=
  existsb (String.eqb name) names.

Definition name_in_use (c : catalog) (name : string) : bool :=
  mem name (tables c) || mem name (map fst (indexes c)) || mem name (views c).

Definition execute (s : statement) (c : catalog) : catalog + error :=
  match s with
  | DropTableIfExists t =>
      if mem t (views c) then inr (IsView t)
      else inl {| tables := filter (fun t' => negb (String.eqb t' t)) (tables c);
                  indexes := filter (fun i => negb (String.eqb (snd i) t)) (indexes c);
                  views := views c |}
  | CreateTable t =>
      if name_in_use c t then inr (AlreadyExists t)
      else inl {| tables := tables c ++ [t]; indexes := indexes c; views := views c |}
  | CreateIndex i t =>
      if name_in_use c i then inr (AlreadyExists i)
      else if mem t (tables c)
      then inl {| tables := tables c; indexes := indexes c ++ [(i, t)]; views := views c |}
      else inr (NoSuchTable t)
  | CreateView v =>
      if name_in_use c v then inr (AlreadyExists v)
      else inl {| tables := tables c; indexes := indexes c; views := views c ++ [v] |}
  end.

(** The statements of a script run in order; the first error ends the run. *)
Fixpoint execute_script (script : list statement) (c : catalog) : catalog + error :=
  match script with
  | [] => inl c
  | s :: rest =>
      match execute s c with
      | inl c' => execute_script rest c'
      | inr e => inr e
      end
  end.

Definition schema_script : list statement :=
  [ DropTableIfExists "transactions";
    DropTableIfExists "customers";
    DropTableIfExists "products";
    DropTableIfExists "sales_summary";
    CreateTable "customers";
    CreateTable "products";
    CreateTable "transactions";
    CreateTable "sales_summary";
    CreateIndex "idx_transactions_date" "transactions";
    CreateIndex "idx_transactions_customer" "transactions";
    CreateIndex "idx_transactions_product" "transactions";
    CreateIndex "idx_customers_segment" "customers";
    CreateIndex "idx_products_category" "products";
    CreateIndex "idx_sales_summary_date" "sales_summary";
    CreateView "customer_metrics";
    CreateView "product_performance";
    CreateView "monthly_sales_trend" ]%string.

Definition empty : catalog := {| tables := []; indexes := []; views := [] |}.
End Schema.

(* ================================================================== *)
(** * Properties *)

Section DistinctFacts.
Variable K : Type.
Variable eqb : K -> K -> bool.
Hypothesis eqb_spec : forall x y, reflect (x = y) (eqb x y).

Lemma distinct_In (ks : list K) (k : K) : In k (distinct eqb ks) <-> In k ks.
Proof.
  induction ks as [|a rest IH]; simpl; [tauto|].
  rewrite filter_In, IH.
  destruct (eqb_spec k a) as [->|Hne]; simpl; split; intros H.
  - now left.
  - now left.
  - destruct H as [H|[H _]]; [now left | now right].
  - destruct H as [H|H]; [now left | right; split; [exact H | reflexivity]].
Qed.

Lemma NoDup_filter (f : K -> bool) (l : list K) : NoDup l -> NoDup (filter f l).
Proof.
  induction 1 as [|x l Hx Hl IH]; simpl; [constructor|].
  destruct (f x); [constructor|]; auto.
  rewrite filter_In; tauto.
Qed.

Lemma distinct_NoDup (ks : list K) : NoDup (distinct eqb ks).
Proof.
  induction ks as [|a rest IH]; simpl; constructor.
  - rewrite filter_In. intros [_ H].
    destruct (eqb_spec a a) as [_|Hne]; [discriminate H | now apply Hne].
  - now apply NoDup_filter.
Qed.

Lemma distinct_length (ks : list K) : (length (distinct eqb ks) <= length ks)%nat.
Proof.
  induction ks as [|a rest IH]; simpl; [lia|].
  pose proof (filter_length_le (fun k' => negb (eqb k' a)) (distinct eqb rest)).
  lia.
Qed.

End DistinctFacts.

Section GroupByFacts.
Variables A K : Type.
Variable eqb : K -> K -> bool.
Variable key : A -> K.
Hypothesis eqb_spec : forall x y, reflect (x = y) (eqb x y).

Lemma group_of_In (k : K) (rows : list A) (a : A) :
  In a (group_of eqb key k rows) <-> In a rows /\ key a = k.
Proof.
  unfold group_of. rewrite filter_In.
  destruct (eqb_spec (key a) k); intuition congruence.
Qed.

Lemma group_by_keys (rows : list A) :
  map fst (group_by eqb key rows) = distinct eqb (map key rows).
Proof.
  unfold group_by. rewrite map_map. simpl. apply map_id.
Qed.

Lemma group_by_NoDup (rows : list A) : NoDup (map fst (group_by eqb key rows)).
Proof. rewrite group_by_keys. now apply distinct_NoDup. Qed.

Lemma group_by_In (rows : list A) (k : K) (g : list A) :
  In (k, g) (group_by eqb key rows) <->
  (exists a, In a rows /\ key a = k) /\ g = group_of eqb key k rows.
Proof.
  unfold group_by. rewrite in_map_iff. split.
  - intros (k' & Heq & Hin). inversion Heq; subst k' g.
    rewrite (distinct_In eqb eqb_spec) in Hin. apply in_map_iff in Hin.
    destruct Hin as (a & Ha & Hin). split; [exists a; auto | reflexivity].
  - intros [(a & Hin & Ha) ->]. exists k. split; [reflexivity|].
    rewrite (distinct_In eqb eqb_spec). apply in_map_iff. exists a; auto.
Qed.

Lemma group_by_nonempty (rows : list A) (k : K) (g : list A) :
  In (k, g) (group_by eqb key rows) -> g <> [].
Proof.
  intros H. apply group_by_In in H. destruct H as [(a & Hin & Ha) ->].
  intros Hnil.
  assert (Hg : In a (group_of eqb key k rows)) by (apply group_of_In; auto).
  rewrite Hnil in Hg. exact Hg.
Qed.

Lemma group_by_length (rows : list A) :
  (length (group_by eqb key rows) <= length rows)%nat.
Proof.
  unfold group_by. rewrite length_map.
  pose proof (distinct_length eqb (map key rows)) as H.
  now rewrite length_map in H.
Qed.

End GroupByFacts.

Lemma inner_join_In (A B : Type) (on : A -> B -> bool) la lb (a : A) (b : B) :
  In (a, b) (inner_join on la lb) <-> In a la /\ In b lb /\ on a b = true.
Proof.
  unfold inner_join. rewrite in_flat_map. split.
  - intros (a' & Ha & Hin). apply in_map_iff in Hin.
    destruct Hin as (b' & Heq & Hb). inversion Heq; subst.
    apply filter_In in Hb. tauto.
  - intros (Ha & Hb & Hon). exists a. split; [exact Ha|].
    apply in_map_iff. exists b. split; [reflexivity|].
    apply filter_In. tauto.
Qed.

Section OrderByFacts.
Variable A : Type.
Variable before : A -> A -> bool.
Hypothesis before_total : forall a b, before a b = true \/ before b a = true.
Hypothesis before_trans :
  forall a b c, before a b = true -> before b c = true -> before a c = true.

Lemma insert_row_perm (a : A) (l : list A) : Permutation (a :: l) (insert_row before a l).
Proof.
  induction l as [|b rest IH]; simpl; [reflexivity|].
  destruct (before a b); [reflexivity|].
  rewrite perm_swap. now constructor.
Qed.

Lemma sort_rows_perm (rows : list A) : Permutation rows (sort_rows before rows).
Proof.
  induction rows as [|a rest IH]; simpl; [constructor|].
  rewrite <- insert_row_perm. now constructor.
Qed.

Lemma insert_row_sorted (a : A) (l : list A) :
  StronglySorted (fun a b => before a b = true) l ->
  StronglySorted (fun a b => before a b = true) (insert_row before a l).
Proof.
  induction 1 as [|b rest Hs IH Hall]; simpl.
  - repeat constructor.
  - destruct (before a b) eqn:Hab.
    + constructor; [now constructor|]. constructor; [exact Hab|].
      eapply Forall_impl; [|exact Hall]. intros c Hbc. simpl in Hbc.
      now apply before_trans with b.
    + constructor; [exact IH|].
      assert (Hba : before b a = true)
        by (destruct (before_total a b) as [H|H]; congruence).
      apply (Permutation_Forall (insert_row_perm a rest)).
      now constructor.
Qed.

Lemma sort_rows_ordered (rows : list A) : ordered_by before rows (sort_rows before rows).
Proof.
  split; [apply sort_rows_perm|].
  induction rows as [|a rest IH]; simpl; [constructor|].
  now apply insert_row_sorted.
Qed.

End OrderByFacts.

Lemma ordered_by_In (A : Type) (before : A -> A -> bool) (rows out : list A) (r : A) :
  ordered_by before rows out -> (In r out <-> In r rows).
Proof.
  intros [Hp _]. split; intros H.
  - now apply (Permutation_in _ (Permutation_sym Hp)).
  - now apply (Permutation_in _ Hp).
Qed.

Lemma ordered_by_length (A : Type) (before : A -> A -> bool) (rows out : list A) :
  ordered_by before rows out -> length out = length rows.
Proof. intros [Hp _]. symmetry. now apply Permutation_length. Qed.

Lemma ordered_by_NoDup (A B : Type) (before : A -> A -> bool) (f : A -> B)
    (rows out : list A) :
  ordered_by before rows out -> NoDup (map f rows) -> NoDup (map f out).
Proof.
  intros [Hp _] Hnd.
  apply (Permutation_NoDup (Permutation_map f Hp) Hnd).
Qed.

Lemma option_eqb_spec (A : Type) (eqb : A -> A -> bool) :
  (forall x y, reflect (x = y) (eqb x y)) ->
  forall x y, reflect (x = y) (option_eqb eqb x y).
Proof.
  intros H [a|] [b|]; simpl; try (constructor; congruence).
  destruct (H a b); constructor; congruence.
Qed.

Lemma pair_eqb_spec (A B : Type) (eqa : A -> A -> bool) (eqb : B -> B -> bool) :
  (forall x y, reflect (x = y) (eqa x y)) ->
  (forall x y, reflect (x = y) (eqb x y)) ->
  forall x y, reflect (x = y) (pair_eqb eqa eqb x y).
Proof.
  intros Ha Hb [a1 b1] [a2 b2]. unfold pair_eqb. simpl.
  destruct (Ha a1 a2), (Hb b1 b2); simpl; constructor; congruence.
Qed.

Lemma Z_eqb_spec (x y : Z) : reflect (x = y) (x =? y).
Proof. apply Z.eqb_spec. Qed.

Lemma value_leb_total (x y : option Q) : value_leb x y = true \/ value_leb y x = true.
Proof.
  destruct x as [a|], y as [b|]; simpl; auto.
  rewrite !Qle_bool_iff.
  destruct (Qlt_le_dec a b) as [H|H]; [left; now apply Qlt_le_weak | now right].
Qed.

Lemma value_leb_trans (x y z : option Q) :
  value_leb x y = true -> value_leb y z = true -> value_leb x z = true.
Proof.
  destruct x as [a|], y as [b|], z as [c|]; simpl; try congruence.
  rewrite !Qle_bool_iff. apply Qle_trans.
Qed.

Lemma text_leb_iff (s1 s2 : string) : text_leb s1 s2 = true <-> text_lt s1 s2 \/ s1 = s2.
Proof.
  unfold text_leb, text_lt.
  destruct (String_as_OT.compare_spec s1 s2) as [H|H|H].
  - split; auto.
  - split; auto.
  - split; [discriminate|]. intros [H'|H']; [discriminate|].
    subst s2. now apply (StrictOrder_Irreflexive s1) in H.
Qed.

Lemma text_leb_total (s1 s2 : string) : text_leb s1 s2 = true \/ text_leb s2 s1 = true.
Proof.
  rewrite !text_leb_iff. unfold text_lt.
  destruct (String_as_OT.compare_spec s1 s2) as [H|H|H]; auto.
Qed.

Lemma text_leb_trans (s1 s2 s3 : string) :
  text_leb s1 s2 = true -> text_leb s2 s3 = true -> text_leb s1 s3 = true.
Proof.
  rewrite !text_leb_iff. unfold text_lt.
  intros [H12| ->] [H23| ->]; auto.
  left. exact (StrictOrder_Transitive _ _ _ H12 H23).
Qed.

Lemma segment_eqb_spec (x y : segment) : reflect (x = y) (segment_eqb x y).
Proof. destruct x, y; simpl; constructor; congruence. Qed.

Lemma payment_eqb_spec (x y : payment) : reflect (x = y) (payment_eqb x y).
Proof. destruct x, y; simpl; constructor; congruence. Qed.

Lemma channel_eqb_spec (x y : channel) : reflect (x = y) (channel_eqb x y).
Proof. destruct x, y; simpl; constructor; congruence. Qed.

Lemma bucket_eqb_spec (x y : discount_bucket) : reflect (x = y) (bucket_eqb x y).
Proof. destruct x, y; simpl; constructor; congruence. Qed.

Lemma non_null_Some (A B : Type) (f : A -> B) (l : list A) :
  non_null (map (fun a => Some (f a)) l) = map f l.
Proof. induction l as [|a l IH]; simpl; [reflexivity | now rewrite IH]. Qed.

Lemma COUNT_transaction_ids (ts : list transaction) :
  COUNT (transaction_ids ts) = Z.of_nat (length ts).
Proof.
  unfold COUNT, transaction_ids. now rewrite non_null_Some, length_map.
Qed.

Lemma Qsum_decimal (cs : list Z) : Qsum (map decimal cs) == decimal (Zsum cs).
Proof.
  induction cs as [|c cs IH]; simpl; [reflexivity|].
  rewrite IH. unfold decimal, Qeq, Qplus. simpl. lia.
Qed.

Lemma Qsum_inject_Z (zs : list Z) : Qsum (map inject_Z zs) == inject_Z (Zsum zs).
Proof.
  induction zs as [|z zs IH]; simpl; [reflexivity|].
  rewrite IH. now rewrite inject_Z_plus.
Qed.

Lemma SUM_Some (A : Type) (f : A -> Q) (l : list A) :
  l <> [] -> SUM (map (fun a => Some (f a)) l) = Some (Qred (Qsum (map f l))).
Proof.
  intros Hne. unfold SUM. rewrite non_null_Some.
  destruct l; [congruence | reflexivity].
Qed.

Lemma AVG_Some (A : Type) (f : A -> Q) (l : list A) :
  l <> [] ->
  AVG (map (fun a => Some (f a)) l) =
  Some (Qred (Qsum (map f l) / inject_Z (Z.of_nat (length l)))).
Proof.
  intros Hne. unfold AVG. rewrite non_null_Some.
  destruct l as [|a l]; [congruence|].
  rewrite <- (length_map f (a :: l)). reflexivity.
Qed.

Lemma SUM_amounts (ts : list transaction) :
  ts <> [] -> SUM (amounts ts) = Some (Qred (decimal (total_cents ts))).
Proof.
  intros Hne. unfold amounts.
  rewrite (SUM_Some (fun t => decimal (Transactions.total_amount t)) Hne).
  f_equal. apply Qred_complete. unfold total_cents.
  rewrite <- Qsum_decimal. now rewrite map_map.
Qed.

Lemma AVG_amounts (ts : list transaction) :
  ts <> [] ->
  AVG (amounts ts) =
  Some (Qred (decimal (total_cents ts) / inject_Z (Z.of_nat (length ts)))).
Proof.
  intros Hne. unfold amounts.
  rewrite (AVG_Some (fun t => decimal (Transactions.total_amount t)) Hne).
  f_equal. apply Qred_complete. unfold total_cents.
  rewrite <- Qsum_decimal. now rewrite map_map.
Qed.

Lemma SUM_quantities (ts : list transaction) :
  ts <> [] -> SUM (quantities ts) = Some (Qred (inject_Z (total_units ts))).
Proof.
  intros Hne. unfold quantities.
  rewrite (SUM_Some (fun t => inject_Z (Transactions.quantity t)) Hne).
  f_equal. apply Qred_complete. unfold total_units.
  rewrite <- Qsum_inject_Z. now rewrite map_map.
Qed.

Lemma AVG_quantities (ts : list transaction) :
  ts <> [] ->
  AVG (quantities ts) =
  Some (Qred (inject_Z (total_units ts) / inject_Z (Z.of_nat (length ts)))).
Proof.
  intros Hne. unfold quantities.
  rewrite (AVG_Some (fun t => inject_Z (Transactions.quantity t)) Hne).
  f_equal. apply Qred_complete. unfold total_units.
  rewrite <- Qsum_inject_Z. now rewrite map_map.
Qed.

(** Rows of [map select (group_by ...)]. *)
Lemma grouped_In (A K R : Type) (eqb : K -> K -> bool) (key : A -> K)
    (select : K * list A -> R) (rows : list A) (r : R) :
  (forall x y, reflect (x = y) (eqb x y)) ->
  (In r (map select (group_by eqb key rows)) <->
   exists a, In a rows /\ r = select (key a, group_of eqb key (key a) rows)).
Proof.
  intros Hspec. rewrite in_map_iff. split.
  - intros ([k g] & Hr & Hin). apply (group_by_In eqb key Hspec) in Hin.
    destruct Hin as [(a & Ha & Hk) ->]. exists a. subst k. auto.
  - intros (a & Ha & ->). exists (key a, group_of eqb key (key a) rows).
    split; [reflexivity|]. apply (group_by_In eqb key Hspec). split; [|reflexivity].
    exists a; auto.
Qed.

Lemma grouped_NoDup (A K R : Type) (eqb : K -> K -> bool) (key : A -> K)
    (select : K * list A -> R) (row_key : R -> K) (rows : list A) :
  (forall x y, reflect (x = y) (eqb x y)) ->
  (forall kg, row_key (select kg) = fst kg) ->
  NoDup (map row_key (map select (group_by eqb key rows))).
Proof.
  intros Hspec Hkey. rewrite map_map.
  rewrite (map_ext _ fst) by (intros kg; apply Hkey).
  now apply group_by_NoDup.
Qed.

Lemma NoDup_map_eq (A B : Type) (f : A -> B) (l : list A) (a b : A) :
  NoDup (map f l) -> In a l -> In b l -> f a = f b -> a = b.
Proof.
  induction l as [|x l IH]; simpl; [tauto|].
  intros Hnd Ha Hb Hf. inversion Hnd as [|? ? Hx Hl]; subst.
  destruct Ha as [->|Ha], Hb as [->|Hb]; auto.
  - exfalso. apply Hx. rewrite Hf. now apply in_map.
  - exfalso. apply Hx. rewrite <- Hf. now apply in_map.
Qed.

Lemma group_of_nonempty (A K : Type) (eqb : K -> K -> bool) (key : A -> K)
    (rows : list A) (a : A) :
  (forall x y, reflect (x = y) (eqb x y)) ->
  In a rows -> group_of eqb key (key a) rows <> [].
Proof.
  intros Hspec Ha Hnil.
  assert (H : In a (group_of eqb key (key a) rows))
    by (apply (group_of_In eqb key Hspec); auto).
  rewrite Hnil in H. exact H.
Qed.

(* ------------------------------------------------------------------ *)
(** ** Discount impact (query 9) *)

(** Sorting the groups in the order in which they were produced gives a
    result that the [ORDER BY] permits. *)
Lemma emitted_then_sorted (A : Type) (before emitted : A -> A -> bool) (rows : list A) :
  (forall a b, before a b = true \/ before b a = true) ->
  (forall a b c, before a b = true -> before b c = true -> before a c = true) ->
  ordered_by before rows (sort_rows before (sort_rows emitted rows)).
Proof.
  intros Htotal Htrans.
  destruct (sort_rows_ordered before Htotal Htrans (sort_rows emitted rows)) as [Hp Hs].
  split; [|exact Hs].
  transitivity (sort_rows emitted rows); [apply sort_rows_perm | exact Hp].
Qed.

Lemma DiscountImpact_run_result (txs : list transaction) :
  DiscountImpact.result txs (DiscountImpact.run txs).
Proof.
  apply emitted_then_sorted.
  - intros a b. apply value_leb_total.
  - intros a b c Hab Hbc. unfold DiscountImpact.before in *.
    now apply value_leb_trans with (DiscountImpact.avg_order_value b).
Qed.

Lemma case_discount_amount_thresholds (t : transaction) (d : Z) :
  Transactions.discount_amount t = Some d ->
  (d = 0 -> case_discount_amount t = No_Discount) /\
  (0 < d <= 1000 -> case_discount_amount t = Low_Discount) /\
  (1000 < d <= 2500 -> case_discount_amount t = Medium_Discount) /\
  (2500 < d -> case_discount_amount t = High_Discount).
Proof.
  intros Hd. unfold case_discount_amount. rewrite Hd.
  repeat split; intros H;
    destruct (Z.eqb_spec d 0); destruct (Z.leb_spec d 1000);
    destruct (Z.leb_spec d 2500); try reflexivity; lia.
Qed.

(** C1. Whatever order the engine gives to rows of equal average, the
    discount-impact report has exactly one row for the bucket of each
    transaction; the [CASE] sends a discount of 0 to "No Discount", one in
    (0, 10.00] to "Low", one in (10.00, 25.00] (so 10.01) to "Medium" and one
    above 25.00 to "High"; every row reports the count, the average order
    value, the average item quantity and the total revenue of the
    transactions of its bucket, of which there is at least one. *)
Theorem C1_discount_impact_buckets (txs : list transaction) (out : list DiscountImpact.row) :
  DiscountImpact.result txs out ->
  (forall t, In t txs ->
     exists r, In r out /\
       DiscountImpact.discount_category r = case_discount_amount t /\
       forall r', In r' out ->
         DiscountImpact.discount_category r' = case_discount_amount t -> r' = r) /\
  (forall t d, In t txs -> Transactions.discount_amount t = Some d ->
     (d = 0 -> case_discount_amount t = No_Discount) /\
     (0 < d <= 1000 -> case_discount_amount t = Low_Discount) /\
     (1000 < d <= 2500 -> case_discount_amount t = Medium_Discount) /\
     (2500 < d -> case_discount_amount t = High_Discount)) /\
  (forall r, In r out ->
     let g := group_of bucket_eqb case_discount_amount
                       (DiscountImpact.discount_category r) txs in
     g <> [] /\
     DiscountImpact.transaction_count r = Z.of_nat (length g) /\
     DiscountImpact.avg_order_value r =
       Some (Qred (decimal (total_cents g) / inject_Z (Z.of_nat (length g)))) /\
     DiscountImpact.avg_items_per_order r =
       Some (Qred (inject_Z (total_units g) / inject_Z (Z.of_nat (length g)))) /\
     DiscountImpact.total_revenue r = Some (Qred (decimal (total_cents g)))).
Proof.
  intros Hres.
  assert (Hnd : NoDup (map DiscountImpact.discount_category out)).
  { apply (ordered_by_NoDup DiscountImpact.discount_category Hres).
    apply grouped_NoDup; [exact bucket_eqb_spec | reflexivity]. }
  split; [|split].
  - intros t Ht.
    set (r := DiscountImpact.select
                (case_discount_amount t,
                 group_of bucket_eqb case_discount_amount (case_discount_amount t) txs)).
    assert (Hr : In r out).
    { apply (ordered_by_In r Hres).
      apply (grouped_In _ _ _ _ _ bucket_eqb_spec). exists t. auto. }
    exists r. split; [exact Hr|]. split; [reflexivity|].
    intros r' Hr' Hcat. apply (NoDup_map_eq _ _ _ _ Hnd Hr' Hr). exact Hcat.
  - intros t d _ Hd. now apply case_discount_amount_thresholds.
  - intros r Hr. apply (ordered_by_In r Hres) in Hr.
    apply (grouped_In _ _ _ _ _ bucket_eqb_spec) in Hr.
    destruct Hr as (t & Ht & ->). simpl.
    pose proof (group_of_nonempty _ case_discount_amount _ _ bucket_eqb_spec Ht) as Hne.
    split; [exact Hne|].
    split; [apply COUNT_transaction_ids|].
    split; [now apply AVG_amounts|].
    split; [now apply AVG_quantities | now apply SUM_amounts].
Qed.

Lemma C1_discount_impact_buckets_witness :
  DiscountImpact.result boundary_transactions (DiscountImpact.run boundary_transactions) /\
  map DiscountImpact.discount_category (DiscountImpact.run boundary_transactions)
    = [Medium_Discount; Low_Discount; No_Discount] /\
  (forall t, In t boundary_transactions ->
     exists r, In r (DiscountImpact.run boundary_transactions) /\
       DiscountImpact.discount_category r = case_discount_amount t /\
       forall r', In r' (DiscountImpact.run boundary_transactions) ->
         DiscountImpact.discount_category r' = case_discount_amount t -> r' = r).
Proof.
  split; [apply DiscountImpact_run_result|].
  split; [vm_compute; reflexivity|].
  exact (proj1 (C1_discount_impact_buckets
                  (DiscountImpact_run_result boundary_transactions))).
Defined.

(* ------------------------------------------------------------------ *)
(** ** Dangling references *)

Lemma filter_filter_implied (B : Type) (f keep : B -> bool) (l : list B) :
  (forall b, f b = true -> keep b = true) ->
  filter f (filter keep l) = filter f l.
Proof.
  intros H. induction l as [|b l IH]; simpl; [reflexivity|].
  destruct (keep b) eqn:Hk; simpl.
  - now rewrite IH.
  - rewrite IH. destruct (f b) eqn:Hf; [|reflexivity].
    apply H in Hf. congruence.
Qed.

Lemma inner_join_filter (A B : Type) (on : A -> B -> bool) (keep : B -> bool)
    (la : list A) (lb : list B) :
  (forall a b, In a la -> on a b = true -> keep b = true) ->
  inner_join on la (filter keep lb) = inner_join on la lb.
Proof.
  unfold inner_join. induction la as [|a la IH]; simpl; intros H; [reflexivity|].
  rewrite IH by (intros a' b Ha'; apply H; now right).
  rewrite filter_filter_implied by (intros b; apply H; now left).
  reflexivity.
Qed.

Lemma left_join_filter (A B : Type) (on : A -> B -> bool) (keep : B -> bool)
    (la : list A) (lb : list B) :
  (forall a b, In a la -> on a b = true -> keep b = true) ->
  left_join on la (filter keep lb) = left_join on la lb.
Proof.
  unfold left_join. induction la as [|a la IH]; intros H; [reflexivity|].
  cbn [flat_map].
  rewrite IH by (intros a' b Ha'; apply H; now right).
  rewrite filter_filter_implied by (intros b; apply H; now left).
  reflexivity.
Qed.

Lemma on_customer_has_customer (cs : list customer) (c : customer) (t : transaction) :
  In c cs -> on_customer c t = true -> has_customer cs t = true.
Proof. intros Hc Hon. apply existsb_exists. exists c; auto. Qed.

Lemma on_product_has_product (ps : list product) (p : product) (t : transaction) :
  In p ps -> on_product p t = true -> has_product ps t = true.
Proof. intros Hp Hon. apply existsb_exists. exists p; auto. Qed.

Lemma CategoryPerformance_groups_filter (ps : list product) (txs : list transaction) :
  CategoryPerformance.groups ps (filter (has_product ps) txs)
  = CategoryPerformance.groups ps txs.
Proof.
  unfold CategoryPerformance.groups.
  rewrite inner_join_filter; [reflexivity|].
  intros p t. apply on_product_has_product.
Qed.

Lemma CustomerMetrics_view_filter (cs : list customer) (txs : list transaction) :
  CustomerMetrics.view cs (filter (has_customer cs) txs) = CustomerMetrics.view cs txs.
Proof.
  unfold CustomerMetrics.view, CustomerMetrics.joined.
  rewrite left_join_filter; [reflexivity|].
  intros c t. apply on_customer_has_customer.
Qed.

Lemma CustomerSegmentation_groups_filter (cs : list customer) (txs : list transaction) :
  CustomerSegmentation.groups cs (filter (has_customer cs) txs)
  = CustomerSegmentation.groups cs txs.
Proof.
  unfold CustomerSegmentation.groups. now rewrite CustomerMetrics_view_filter.
Qed.

Lemma GeographicDistribution_groups_filter (cs : list customer) (txs : list transaction) :
  GeographicDistribution.groups cs (filter (has_customer cs) txs)
  = GeographicDistribution.groups cs txs.
Proof.
  unfold GeographicDistribution.groups.
  rewrite inner_join_filter; [reflexivity|].
  intros c t. apply on_customer_has_customer.
Qed.

Lemma option_channel_eqb_spec (x y : option channel) :
  reflect (x = y) (option_eqb channel_eqb x y).
Proof. apply option_eqb_spec, channel_eqb_spec. Qed.

Lemma option_payment_eqb_spec (x y : option payment) :
  reflect (x = y) (option_eqb payment_eqb x y).
Proof. apply option_eqb_spec, payment_eqb_spec. Qed.

Lemma option_segment_eqb_spec (x y : option segment) :
  reflect (x = y) (option_eqb segment_eqb x y).
Proof. apply option_eqb_spec, segment_eqb_spec. Qed.

Lemma option_string_eqb_spec (x y : option string) :
  reflect (x = y) (option_eqb String.eqb x y).
Proof. apply option_eqb_spec, String.eqb_spec. Qed.

(** C2, amended.  Each joined report leaves out the transactions whose
    reference to the table it joins is dangling: category performance
    those without a product, customer segmentation and geographic
    distribution those without a customer.  The channel, payment and
    monthly reports read the transactions alone: every transaction,
    dangling or not, is counted and summed in the row of its channel, of
    its payment method and of its month. *)
Theorem C2_dangling_references_per_join
    (cs : list customer) (ps : list product) (txs : list transaction) :
  (forall out, CategoryPerformance.result ps txs out <->
               CategoryPerformance.result ps (filter (has_product ps) txs) out) /\
  (forall out, CustomerSegmentation.result cs txs out <->
               CustomerSegmentation.result cs (filter (has_customer cs) txs) out) /\
  (forall out, GeographicDistribution.result cs txs out <->
               GeographicDistribution.result cs (filter (has_customer cs) txs) out) /\
  (forall t, In t txs ->
     (forall out, ChannelPerformance.result txs out ->
        exists r g, In r out /\ In t g /\
          g = group_of (option_eqb channel_eqb) Transactions.sales_channel
                       (Transactions.sales_channel t) txs /\
          ChannelPerformance.sales_channel r = Transactions.sales_channel t /\
          ChannelPerformance.total_transactions r = Z.of_nat (length g) /\
          ChannelPerformance.total_revenue r = Some (Qred (decimal (total_cents g)))) /\
     (forall out, PaymentAnalysis.result txs out ->
        exists r g, In r out /\ In t g /\
          g = group_of (option_eqb payment_eqb) Transactions.payment_method
                       (Transactions.payment_method t) txs /\
          PaymentAnalysis.payment_method r = Transactions.payment_method t /\
          PaymentAnalysis.transaction_count r = Z.of_nat (length g) /\
          PaymentAnalysis.total_amount r = Some (Qred (decimal (total_cents g)))) /\
     (forall out, MonthlyTrend.result txs out ->
        exists r g, In r out /\ In t g /\
          g = group_of String.eqb MonthlyTrend.group_key (MonthlyTrend.group_key t) txs /\
          MonthlyTrend.month r = strftime_Ym (Transactions.transaction_date t) /\
          MonthlyTrend.total_transactions r = Z.of_nat (length g) /\
          MonthlyTrend.total_revenue r = Some (Qred (decimal (total_cents g))))).
Proof.
  split; [|split; [|split]].
  - intros out. unfold CategoryPerformance.result.
    now rewrite CategoryPerformance_groups_filter.
  - intros out. unfold CustomerSegmentation.result.
    now rewrite CustomerSegmentation_groups_filter.
  - intros out. unfold GeographicDistribution.result.
    now rewrite GeographicDistribution_groups_filter.
  - intros t Ht. split; [|split]; intros out Hres.
    + pose proof (group_of_nonempty _ Transactions.sales_channel _ _
                    option_channel_eqb_spec Ht) as Hne.
      eexists. eexists. split; [|split; [|split; [reflexivity|]]].
      * apply (ordered_by_In _ Hres).
        apply (grouped_In _ _ _ _ _ option_channel_eqb_spec). exists t. split; [exact Ht|reflexivity].
      * apply (group_of_In _ _ option_channel_eqb_spec). auto.
      * simpl. split; [reflexivity|].
        split; [apply COUNT_transaction_ids | now apply SUM_amounts].
    + pose proof (group_of_nonempty _ Transactions.payment_method _ _
                    option_payment_eqb_spec Ht) as Hne.
      eexists. eexists. split; [|split; [|split; [reflexivity|]]].
      * apply (ordered_by_In _ Hres).
        apply (grouped_In _ _ _ _ _ option_payment_eqb_spec). exists t. split; [exact Ht|reflexivity].
      * apply (group_of_In _ _ option_payment_eqb_spec). auto.
      * simpl. split; [reflexivity|].
        split; [apply COUNT_transaction_ids | now apply SUM_amounts].
    + pose proof (group_of_nonempty _ MonthlyTrend.group_key _ _
                    String.eqb_spec Ht) as Hne.
      eexists. eexists. split; [|split; [|split; [reflexivity|]]].
      * apply (ordered_by_In _ Hres).
        apply (grouped_In _ _ _ _ _ String.eqb_spec). exists t. split; [exact Ht|reflexivity].
      * apply (group_of_In _ _ String.eqb_spec). auto.
      * simpl. split; [reflexivity|].
        split; [apply COUNT_transaction_ids | now apply SUM_amounts].
Qed.

(** Every executable query yields a result its query permits. *)
Lemma desc_ordered (A : Type) (f : A -> option Q) (rows : list A) :
  ordered_by (fun a b => value_leb (f b) (f a)) rows
             (sort_rows (fun a b => value_leb (f b) (f a)) rows).
Proof.
  apply sort_rows_ordered.
  - intros a b. apply value_leb_total.
  - intros a b c Hab Hbc. now apply value_leb_trans with (f b).
Qed.

Lemma desc_emitted (A : Type) (f : A -> option Q) (emitted : A -> A -> bool)
    (rows : list A) :
  ordered_by (fun a b => value_leb (f b) (f a)) rows
             (sort_rows (fun a b => value_leb (f b) (f a)) (sort_rows emitted rows)).
Proof.
  apply emitted_then_sorted.
  - intros a b. apply value_leb_total.
  - intros a b c Hab Hbc. now apply value_leb_trans with (f b).
Qed.


Lemma ChannelPerformance_run_result (txs : list transaction) :
  ChannelPerformance.result txs (ChannelPerformance.run txs).
Proof. apply (desc_emitted ChannelPerformance.total_revenue). Qed.

Lemma CustomerSegmentation_run_result (cs : list customer) (txs : list transaction) :
  CustomerSegmentation.result cs txs (CustomerSegmentation.run cs txs).
Proof. apply (desc_emitted CustomerSegmentation.avg_customer_value). Qed.

Lemma GeographicDistribution_run_result (cs : list customer) (txs : list transaction) :
  GeographicDistribution.result cs txs (GeographicDistribution.run cs txs).
Proof. apply (desc_emitted GeographicDistribution.total_revenue). Qed.


Lemma MonthlyTrend_run_result (txs : list transaction) :
  MonthlyTrend.result txs (MonthlyTrend.run txs).
Proof.
  apply sort_rows_ordered; unfold MonthlyTrend.before.
  - intros a b. apply text_leb_total.
  - intros a b c. apply text_leb_trans.
Qed.

Lemma C2_dangling_references_per_join_witness :
  In dangling_product_transaction scenario_transactions /\
  has_product scenario_products dangling_product_transaction = false /\
  map CategoryPerformance.total_revenue
      (CategoryPerformance.run scenario_products scenario_transactions)
    = [Some (200 # 1); Some (100 # 1)] /\
  (forall out,
     CategoryPerformance.result scenario_products scenario_transactions out <->
     CategoryPerformance.result scenario_products
       (filter (has_product scenario_products) scenario_transactions) out) /\
  (exists r g,
     In r (ChannelPerformance.run scenario_transactions) /\
     In dangling_product_transaction g /\
     g = group_of (option_eqb channel_eqb) Transactions.sales_channel
                  (Transactions.sales_channel dangling_product_transaction)
                  scenario_transactions /\
     ChannelPerformance.sales_channel r
       = Transactions.sales_channel dangling_product_transaction /\
     ChannelPerformance.total_transactions r = Z.of_nat (length g) /\
     ChannelPerformance.total_revenue r = Some (Qred (decimal (total_cents g)))) /\
  map ChannelPerformance.total_revenue (ChannelPerformance.run scenario_transactions)
    = [Some (370 # 1)].
Proof.
  assert (Hin : In dangling_product_transaction scenario_transactions)
    by (simpl; tauto).
  destruct (C2_dangling_references_per_join
              scenario_customers scenario_products scenario_transactions)
    as (Hcat & _ & _ & Hkeep).
  destruct (Hkeep _ Hin) as (Hchannel & _ & _).
  split; [exact Hin|].
  split; [reflexivity|].
  split; [vm_compute; reflexivity|].
  split; [exact Hcat|].
  split; [exact (Hchannel _ (ChannelPerformance_run_result scenario_transactions))|].
  vm_compute; reflexivity.
Defined.

(** C2, as stated, fails: category performance joins products only, so a
    transaction whose customer does not exist is still counted and summed
    there (and one whose product does not exist still counts for its
    customer in the segment and geographic reports). *)
Lemma C2_counterexample :
  has_customer scenario_customers dangling_customer_transaction = false /\
  CategoryPerformance.run scenario_products [dangling_customer_transaction]
    = [ {| CategoryPerformance.category := "Electronics";
           CategoryPerformance.total_sales := 1;
           CategoryPerformance.total_revenue := Some (70 # 1);
           CategoryPerformance.avg_sale_amount := Some (70 # 1);
           CategoryPerformance.total_quantity_sold := Some (1 # 1);
           CategoryPerformance.unique_customers := 1 |} ] /\
  CategoryPerformance.run scenario_products [] = [] /\
  has_product scenario_products dangling_product_transaction = false /\
  map GeographicDistribution.total_revenue
      (GeographicDistribution.run scenario_customers [dangling_product_transaction])
    = [Some (70 # 1)] /\
  map CustomerSegmentation.avg_customer_value
      (CustomerSegmentation.run scenario_customers [dangling_product_transaction])
    = [Some (70 # 1); None; None].
Proof. vm_compute. repeat split; reflexivity. Qed.

(* ------------------------------------------------------------------ *)
(** ** Top customers and top products (queries 1 and 7) *)


Lemma LIMIT_In (A : Type) (n : nat) (rows : list A) (r : A) :
  In r (LIMIT n rows) -> In r rows.
Proof.
  unfold LIMIT. revert rows. induction n as [|n IH]; intros [|a rows]; simpl; try tauto.
  intros [H|H]; [now left | right; now apply IH].
Qed.


Lemma TopCustomers_key_eqb_spec (x y : TopCustomers.key) :
  reflect (x = y) (TopCustomers.key_eqb x y).
Proof.
  apply pair_eqb_spec; [exact Z.eqb_spec|].
  apply pair_eqb_spec; [exact String.eqb_spec|].
  apply pair_eqb_spec; [exact String.eqb_spec|].
  exact option_segment_eqb_spec.
Qed.

Lemma TopProducts_key_eqb_spec (x y : TopProducts.key) :
  reflect (x = y) (TopProducts.key_eqb x y).
Proof.
  apply pair_eqb_spec; [exact Z.eqb_spec|].
  apply pair_eqb_spec; [exact String.eqb_spec|].
  apply pair_eqb_spec; [exact String.eqb_spec|].
  apply pair_eqb_spec; [exact option_string_eqb_spec|].
  apply pair_eqb_spec; exact Z.eqb_spec.
Qed.

(* ------------------------------------------------------------------ *)
(** ** Monthly trend (query 2) and its growth rate *)

(** When no two rows share a sort key, [ORDER BY] has a single result. *)
Lemma ordered_by_unique (A K : Type) (before : A -> A -> bool) (key : A -> K)
    (rows out1 out2 : list A) :
  (forall a b, before a b = true -> before b a = true -> key a = key b) ->
  NoDup (map key rows) ->
  ordered_by before rows out1 -> ordered_by before rows out2 -> out1 = out2.
Proof.
  intros Hanti Hnd [Hp1 Hs1] [Hp2 Hs2].
  assert (Hp : Permutation out1 out2)
    by (transitivity rows; [now apply Permutation_sym | exact Hp2]).
  assert (Hnd1 : NoDup (map key out1))
    by (apply (Permutation_NoDup (Permutation_map key Hp1) Hnd)).
  clear Hp1 Hp2 Hnd rows.
  revert out2 Hp Hs2. induction Hs1 as [|a l1 Hs1 IH Hall1]; intros out2 Hp Hs2.
  - apply Permutation_nil in Hp. now subst.
  - destruct Hs2 as [|b l2 Hs2 Hall2].
    + apply Permutation_sym, Permutation_nil in Hp. discriminate Hp.
    + assert (Hab : a = b).
      { assert (Ha : In a (b :: l2)) by (apply (Permutation_in _ Hp); now left).
        assert (Hb : In b (a :: l1))
          by (apply (Permutation_in _ (Permutation_sym Hp)); now left).
        destruct Ha as [Ha|Ha]; [now symmetry|].
        destruct Hb as [Hb|Hb]; [exact Hb|].
        rewrite Forall_forall in Hall1, Hall2.
        apply (NoDup_map_eq key (a :: l1) a b Hnd1); simpl; auto. }
      subst b. f_equal. apply IH.
      * simpl in Hnd1. now inversion Hnd1.
      * now apply Permutation_cons_inv in Hp.
      * exact Hs2.
Qed.

Lemma text_leb_antisym (s1 s2 : string) :
  text_leb s1 s2 = true -> text_leb s2 s1 = true -> s1 = s2.
Proof.
  rewrite !text_leb_iff. unfold text_lt. intros [H12|H12] [H21|H21]; auto.
  exfalso. apply (StrictOrder_Irreflexive s1).
  exact (StrictOrder_Transitive _ _ _ H12 H21).
Qed.

Lemma MonthlyTrend_months_NoDup (txs : list transaction) :
  NoDup (map MonthlyTrend.month (MonthlyTrend.groups txs)).
Proof.
  unfold MonthlyTrend.groups.
  apply grouped_NoDup; [exact String.eqb_spec | reflexivity].
Qed.

Lemma MonthlyTrend_result_unique (txs : list transaction) (out : list MonthlyTrend.row) :
  MonthlyTrend.result txs out -> out = MonthlyTrend.run txs.
Proof.
  intros Hres.
  apply (ordered_by_unique MonthlyTrend.month (rows := MonthlyTrend.groups txs)
           (before := MonthlyTrend.before)).
  - intros a b. apply text_leb_antisym.
  - apply MonthlyTrend_months_NoDup.
  - exact Hres.
  - apply MonthlyTrend_run_result.
Qed.

Lemma strictly_ascending (A : Type) (key : A -> string) (rows : list A) :
  StronglySorted (fun a b => text_leb (key a) (key b) = true) rows ->
  NoDup (map key rows) ->
  StronglySorted text_lt (map key rows).
Proof.
  induction 1 as [|a l Hs IH Hall]; simpl; intros Hnd; [constructor|].
  inversion Hnd as [|? ? Hnotin Hnd']; subst.
  constructor; [now apply IH|].
  apply Forall_forall. intros k Hk. apply in_map_iff in Hk.
  destruct Hk as (b & <- & Hb).
  rewrite Forall_forall in Hall. specialize (Hall b Hb).
  apply text_leb_iff in Hall. destruct Hall as [Hlt|Heq]; [exact Hlt|].
  exfalso. apply Hnotin. rewrite Heq. now apply in_map.
Qed.

Lemma with_growth_trend (previous : option (option Q)) (rows : list MonthlyTrend.row) :
  map Engine.trend (Engine.with_growth previous rows) = rows.
Proof.
  revert previous. induction rows as [|r rest IH]; intros previous; simpl;
    [reflexivity | now rewrite IH].
Qed.

Lemma with_growth_adjacent (previous : option (option Q)) (rows : list MonthlyTrend.row)
    (i : nat) (prev curr : Engine.trend_row) :
  nth_error (Engine.with_growth previous rows) i = Some prev ->
  nth_error (Engine.with_growth previous rows) (S i) = Some curr ->
  Engine.growth_rate curr =
  Engine.growth (MonthlyTrend.total_revenue (Engine.trend prev))
                (MonthlyTrend.total_revenue (Engine.trend curr)).
Proof.
  revert previous i. induction rows as [|r rest IH]; intros previous i Hp Hc.
  - destruct i; discriminate Hp.
  - destruct i as [|i].
    + simpl in Hp. injection Hp as <-. simpl in Hc.
      destruct rest as [|r' rest']; [discriminate Hc|].
      simpl in Hc. injection Hc as <-. reflexivity.
    + simpl in Hp. change (nth_error (Engine.with_growth previous (r :: rest)) (S (S i)))
        with (nth_error (Engine.with_growth (Some (MonthlyTrend.total_revenue r)) rest) (S i))
        in Hc.
      eapply IH; eassumption.
Qed.

(** The "Monthly Sales Trend" sample of the presentation: revenue 45,230,
    52,180, 48,920, 58,340 with growth rate --, +15.4%, -6.2%, +19.3%. *)
Lemma growth_presentation_sample :
  Engine.growth (Some (45230 # 1)) (Some (52180 # 1)) = Some (Qred (154 # 10)) /\
  Engine.growth (Some (52180 # 1)) (Some (48920 # 1)) = Some (Qred (-62 # 10)) /\
  Engine.growth (Some (48920 # 1)) (Some (58340 # 1)) = Some (Qred (193 # 10)).
Proof. repeat split; vm_compute; reflexivity. Qed.

Lemma MonthlyTrend_run_row (txs : list transaction) (r : MonthlyTrend.row) :
  In r (MonthlyTrend.run txs) ->
  exists t g,
    In t txs /\
    g = group_of String.eqb MonthlyTrend.group_key (MonthlyTrend.group_key t) txs /\
    In t g /\
    MonthlyTrend.month r = strftime_Ym (Transactions.transaction_date t) /\
    MonthlyTrend.total_transactions r = Z.of_nat (length g) /\
    MonthlyTrend.total_revenue r = Some (Qred (decimal (total_cents g))).
Proof.
  intros Hr. apply (ordered_by_In r (MonthlyTrend_run_result txs)) in Hr.
  apply (grouped_In _ _ _ _ _ String.eqb_spec) in Hr.
  destruct Hr as (t & Ht & ->).
  pose proof (group_of_nonempty _ MonthlyTrend.group_key _ _ String.eqb_spec Ht) as Hne.
  exists t. eexists. split; [exact Ht|]. split; [reflexivity|].
  split; [apply (group_of_In _ _ String.eqb_spec); auto|].
  simpl. split; [reflexivity|].
  split; [apply COUNT_transaction_ids | now apply SUM_amounts].
Qed.

(** C4. Query 2 has a single result: one row per month ["YYYY-MM"] in which a
    transaction falls, months in strictly ascending order, no row for a
    month without transactions.  With the growth rate added, the first row
    has none, and each later row has
    [(curr.revenue - prev.revenue) / prev.revenue * 100] rounded to one
    decimal, where [prev] is the row before it (none when [prev.revenue]
    is zero). *)
Theorem C4_monthly_trend_growth (txs : list transaction) :
  (forall out, MonthlyTrend.result txs out ->
     out = map Engine.trend (Engine.monthlyTrend txs)) /\
  StronglySorted text_lt
    (map (fun r => MonthlyTrend.month (Engine.trend r)) (Engine.monthlyTrend txs)) /\
  (forall m,
     In m (map (fun r => MonthlyTrend.month (Engine.trend r)) (Engine.monthlyTrend txs)) <->
     exists t, In t txs /\ strftime_Ym (Transactions.transaction_date t) = m) /\
  (forall r, In r (Engine.monthlyTrend txs) ->
     String.length (MonthlyTrend.month (Engine.trend r)) = 7%nat /\
     String.get 4 (MonthlyTrend.month (Engine.trend r)) = Some "-"%char /\
     1 <= MonthlyTrend.total_transactions (Engine.trend r)) /\
  (forall r rest, Engine.monthlyTrend txs = r :: rest -> Engine.growth_rate r = None) /\
  (forall i prev curr,
     nth_error (Engine.monthlyTrend txs) i = Some prev ->
     nth_error (Engine.monthlyTrend txs) (S i) = Some curr ->
     exists p c,
       MonthlyTrend.total_revenue (Engine.trend prev) = Some p /\
       MonthlyTrend.total_revenue (Engine.trend curr) = Some c /\
       (~ p == 0 -> Engine.growth_rate curr = Some (ROUND ((c - p) / p * 100) 1)) /\
       (p == 0 -> Engine.growth_rate curr = None)).
Proof.
  assert (Htrend : map Engine.trend (Engine.monthlyTrend txs) = MonthlyTrend.run txs)
    by apply with_growth_trend.
  assert (Hmonths :
            map (fun r => MonthlyTrend.month (Engine.trend r)) (Engine.monthlyTrend txs)
            = map MonthlyTrend.month (MonthlyTrend.run txs))
    by (rewrite <- Htrend; now rewrite map_map).
  assert (Hrow : forall r, In r (Engine.monthlyTrend txs) ->
                           In (Engine.trend r) (MonthlyTrend.run txs))
    by (intros r Hr; rewrite <- Htrend; now apply in_map).
  split; [|split; [|split; [|split; [|split]]]].
  - intros out Hres. rewrite Htrend. now apply MonthlyTrend_result_unique.
  - rewrite Hmonths.
    destruct (MonthlyTrend_run_result txs) as [Hperm Hsorted].
    apply strictly_ascending; [exact Hsorted|].
    apply (Permutation_NoDup (Permutation_map MonthlyTrend.month Hperm)).
    apply MonthlyTrend_months_NoDup.
  - intros m. rewrite Hmonths. rewrite in_map_iff. split.
    + intros (r & <- & Hr). apply MonthlyTrend_run_row in Hr.
      destruct Hr as (t & g & Ht & _ & _ & Hm & _). exists t. auto.
    + intros (t & Ht & <-).
      exists (MonthlyTrend.select
                (MonthlyTrend.group_key t,
                 group_of String.eqb MonthlyTrend.group_key (MonthlyTrend.group_key t) txs)).
      split; [reflexivity|].
      apply (ordered_by_In _ (MonthlyTrend_run_result txs)).
      apply (grouped_In _ _ _ _ _ String.eqb_spec). exists t. auto.
  - intros r Hr. apply Hrow, MonthlyTrend_run_row in Hr.
    destruct Hr as (t & g & Ht & Hg & Hin & Hm & Hcount & _).
    rewrite Hm, Hcount. split; [reflexivity|]. split; [reflexivity|].
    destruct g; [contradiction | simpl length; lia].
  - intros r rest Heq. unfold Engine.monthlyTrend in Heq.
    destruct (MonthlyTrend.run txs); simpl in Heq; [discriminate|].
    injection Heq as <- _. reflexivity.
  - intros i prev curr Hp Hc.
    pose proof (with_growth_adjacent _ _ _ Hp Hc) as Hg.
    assert (Hinp : In prev (Engine.monthlyTrend txs)) by (eapply nth_error_In; eassumption).
    assert (Hinc : In curr (Engine.monthlyTrend txs)) by (eapply nth_error_In; eassumption).
    apply Hrow, MonthlyTrend_run_row in Hinp. apply Hrow, MonthlyTrend_run_row in Hinc.
    destruct Hinp as (_ & gp & _ & _ & _ & _ & _ & Hrp).
    destruct Hinc as (_ & gc & _ & _ & _ & _ & _ & Hrc).
    rewrite Hrp, Hrc in Hg. rewrite Hrp, Hrc.
    eexists. eexists. split; [reflexivity|]. split; [reflexivity|].
    rewrite Hg. unfold Engine.growth. split; intros Hz.
    + destruct (Qeq_bool _ 0) eqn:Hq; [|reflexivity].
      apply Qeq_bool_iff in Hq. contradiction.
    + apply Qeq_bool_iff in Hz. now rewrite Hz.
Qed.

Lemma C4_monthly_trend_growth_witness :
  map (fun r => (MonthlyTrend.month (Engine.trend r),
                 MonthlyTrend.total_revenue (Engine.trend r),
                 Engine.growth_rate r))
      (Engine.monthlyTrend scenario_transactions)
    = [ ("2023-05"%string, Some (200 # 1), None);
        ("2023-06"%string, Some (170 # 1), Some (-15 # 1)) ] /\
  MonthlyTrend.result scenario_transactions (MonthlyTrend.run scenario_transactions) /\
  MonthlyTrend.run scenario_transactions
    = map Engine.trend (Engine.monthlyTrend scenario_transactions) /\
  (exists prev curr p c,
     nth_error (Engine.monthlyTrend scenario_transactions) 0 = Some prev /\
     nth_error (Engine.monthlyTrend scenario_transactions) 1 = Some curr /\
     MonthlyTrend.total_revenue (Engine.trend prev) = Some p /\
     MonthlyTrend.total_revenue (Engine.trend curr) = Some c /\
     ~ p == 0 /\
     Engine.growth_rate curr = Some (ROUND ((c - p) / p * 100) 1)).
Proof.
  destruct (C4_monthly_trend_growth scenario_transactions)
    as (Huniq & _ & _ & _ & _ & Hadj).
  split; [vm_compute; reflexivity|].
  split; [apply MonthlyTrend_run_result|].
  split; [exact (Huniq _ (MonthlyTrend_run_result scenario_transactions))|].
  destruct (nth_error (Engine.monthlyTrend scenario_transactions) 0) as [prev|] eqn:Hp;
    [|vm_compute in Hp; discriminate Hp].
  destruct (nth_error (Engine.monthlyTrend scenario_transactions) 1) as [curr|] eqn:Hc;
    [|vm_compute in Hc; discriminate Hc].
  destruct (Hadj 0%nat prev curr Hp Hc) as (p & c & Hrp & Hrc & Hnz & _).
  exists prev, curr, p, c.
  split; [reflexivity|]. split; [reflexivity|].
  split; [exact Hrp|]. split; [exact Hrc|].
  assert (Hp0 : ~ p == 0).
  { vm_compute in Hp. injection Hp as <-. vm_compute in Hrp. injection Hrp as <-.
    intros H. vm_compute in H. discriminate H. }
  split; [exact Hp0 | exact (Hnz Hp0)].
Defined.

(* ------------------------------------------------------------------ *)
(** ** Customer segmentation (query 4 over [customer_metrics]) *)

Lemma left_join_In_fst (A B : Type) (on : A -> B -> bool) (la : list A) (lb : list B)
    (a : A) (x : option B) :
  In (a, x) (left_join on la lb) -> In a la.
Proof.
  unfold left_join. rewrite in_flat_map. intros (a' & Ha' & Hin).
  destruct (filter (on a') lb) as [|b ms].
  - destruct Hin as [Heq|[]]. now inversion Heq; subst.
  - apply in_map_iff in Hin. destruct Hin as (b' & Heq & _).
    now inversion Heq; subst.
Qed.

Lemma left_join_keeps (A B : Type) (on : A -> B -> bool) (la : list A) (lb : list B)
    (a : A) :
  In a la -> exists x, In (a, x) (left_join on la lb).
Proof.
  intros Ha. unfold left_join.
  destruct (filter (on a) lb) as [|b ms] eqn:Hf.
  - exists None. apply in_flat_map. exists a. split; [exact Ha|].
    rewrite Hf. now left.
  - exists (Some b). apply in_flat_map. exists a. split; [exact Ha|].
    rewrite Hf. now left.
Qed.

(** Each row of the view describes a customer of the table. *)
Lemma CustomerMetrics_view_customer (cs : list customer) (txs : list transaction)
    (m : CustomerMetrics.row) :
  In m (CustomerMetrics.view cs txs) ->
  exists c, In c cs /\
    CustomerMetrics.customer_id m = Customers.customer_id c /\
    CustomerMetrics.customer_segment m = Customers.customer_segment c.
Proof.
  unfold CustomerMetrics.view. rewrite in_flat_map.
  intros ([k g] & Hkg & Hm). simpl in Hm.
  destruct g as [|[c x] g']; [contradiction|].
  destruct Hm as [<-|[]]. exists c. split; [|split; reflexivity].
  apply (group_by_In Z.eqb _ Z.eqb_spec) in Hkg. destruct Hkg as [_ Hg].
  assert (Hin : In (c, x) ((c, x) :: g')) by now left.
  rewrite Hg in Hin.
  apply (group_of_In Z.eqb _ Z.eqb_spec) in Hin. destruct Hin as [Hin _].
  now apply left_join_In_fst in Hin.
Qed.

(** Under the primary key, every customer has its row in the view, with
    or without transactions. *)
Lemma CustomerMetrics_view_keeps (cs : list customer) (txs : list transaction)
    (c : customer) :
  NoDup (map Customers.customer_id cs) -> In c cs ->
  exists m, In m (CustomerMetrics.view cs txs) /\
    CustomerMetrics.customer_id m = Customers.customer_id c /\
    CustomerMetrics.customer_segment m = Customers.customer_segment c.
Proof.
  intros Hpk Hc.
  destruct (left_join_keeps on_customer cs txs c Hc) as (x & Hx).
  set (key := fun ct : customer * option transaction => Customers.customer_id (fst ct)).
  set (g := group_of Z.eqb key (key (c, x)) (CustomerMetrics.joined cs txs)).
  assert (Hg : In (c, x) g) by (apply (group_of_In Z.eqb key Z.eqb_spec); auto).
  destruct g as [|[c0 x0] g'] eqn:Heq; [contradiction|].
  assert (Hc0 : In (c0, x0) g) by (rewrite Heq; now left).
  apply (group_of_In Z.eqb key Z.eqb_spec) in Hc0. destruct Hc0 as [Hj Hk].
  apply left_join_In_fst in Hj.
  assert (c0 = c) by (apply (NoDup_map_eq _ _ _ _ Hpk Hj Hc); exact Hk).
  subst c0.
  exists (CustomerMetrics.select c ((c, x0) :: g')).
  split; [|split; reflexivity].
  unfold CustomerMetrics.view. apply in_flat_map.
  exists (key (c, x), (c, x0) :: g'). split; [|now left].
  apply (group_by_In Z.eqb key Z.eqb_spec). split; [exists (c, x); auto|].
  symmetry. exact Heq.
Qed.

Lemma segment_values (l : list (option segment)) :
  NoDup l -> (length l <= 4)%nat /\ (~ In None l -> (length l <= 3)%nat).
Proof.
  intros Hnd. split.
  - apply (NoDup_incl_length (l' := [None; Some Premium; Some Standard; Some Basic]) Hnd).
    intros [[| |]|] _; simpl; tauto.
  - intros Hnone.
    apply (NoDup_incl_length (l' := [Some Premium; Some Standard; Some Basic]) Hnd).
    intros [[| |]|] Hin; simpl; tauto.
Qed.

(** C5, amended.  Under the primary key of [customers], the segment report
    has one row per distinct [customer_segment] among all customers: a row
    for a segment if and only if some customer has that segment, whether
    or not any of them has a transaction.  That makes at most 3 rows when
    every customer has a segment, and one more for the customers whose
    segment is NULL. *)
Theorem C5_segment_rows_of_all_customers
    (cs : list customer) (txs : list transaction) (out : list CustomerSegmentation.row) :
  NoDup (map Customers.customer_id cs) ->
  CustomerSegmentation.result cs txs out ->
  NoDup (map CustomerSegmentation.customer_segment out) /\
  (length out <= 4)%nat /\
  ((forall c, In c cs -> Customers.customer_segment c <> None) -> (length out <= 3)%nat) /\
  (forall s,
     (exists r, In r out /\ CustomerSegmentation.customer_segment r = s) <->
     (exists c, In c cs /\ Customers.customer_segment c = s)) /\
  (forall r, In r out -> 1 <= CustomerSegmentation.customer_count r).
Proof.
  intros Hpk Hres.
  assert (Hnd : NoDup (map CustomerSegmentation.customer_segment out)).
  { apply (ordered_by_NoDup CustomerSegmentation.customer_segment Hres).
    apply grouped_NoDup; [exact option_segment_eqb_spec | reflexivity]. }
  assert (Hrows : forall r, In r out ->
            exists m, In m (CustomerMetrics.view cs txs) /\
              r = CustomerSegmentation.select
                    (CustomerMetrics.customer_segment m,
                     group_of (option_eqb segment_eqb) CustomerMetrics.customer_segment
                              (CustomerMetrics.customer_segment m)
                              (CustomerMetrics.view cs txs))).
  { intros r Hr. apply (ordered_by_In r Hres) in Hr.
    now apply (grouped_In _ _ _ _ _ option_segment_eqb_spec) in Hr. }
  assert (Hiff : forall s,
     (exists r, In r out /\ CustomerSegmentation.customer_segment r = s) <->
     (exists c, In c cs /\ Customers.customer_segment c = s)).
  { intros s. split.
    - intros (r & Hr & <-). destruct (Hrows r Hr) as (m & Hm & ->).
      destruct (@CustomerMetrics_view_customer cs txs m Hm) as (c & Hc & _ & Hseg).
      exists c. split; [exact Hc|]. simpl. now symmetry.
    - intros (c & Hc & <-).
      destruct (@CustomerMetrics_view_keeps cs txs c Hpk Hc) as (m & Hm & _ & Hseg).
      eexists. split.
      + apply (ordered_by_In _ Hres).
        apply (grouped_In _ _ _ _ _ option_segment_eqb_spec). exists m.
        split; [exact Hm | reflexivity].
      + simpl. exact Hseg. }
  pose proof (segment_values Hnd) as [H4 H3]. rewrite length_map in H4, H3.
  split; [exact Hnd|]. split; [exact H4|]. split; [|split; [exact Hiff|]].
  - intros Hsome. apply H3. intros Hin. apply in_map_iff in Hin.
    destruct Hin as (r & Hnone & Hr).
    destruct (proj1 (Hiff None) (ex_intro _ r (conj Hr Hnone))) as (c & Hc & Hseg).
    exact (Hsome c Hc Hseg).
  - intros r Hr. destruct (Hrows r Hr) as (m & Hm & ->). simpl.
    pose proof (group_of_nonempty _ CustomerMetrics.customer_segment _ _
                  option_segment_eqb_spec Hm) as Hne.
    unfold COUNT_star.
    destruct (group_of _ _ _ _); [congruence | simpl length; lia].
Qed.

Lemma C5_segment_rows_of_all_customers_witness :
  NoDup (map Customers.customer_id scenario_customers) /\
  CustomerSegmentation.result scenario_customers scenario_transactions
    (CustomerSegmentation.run scenario_customers scenario_transactions) /\
  (length (CustomerSegmentation.run scenario_customers scenario_transactions) <= 3)%nat /\
  (exists r, In r (CustomerSegmentation.run scenario_customers scenario_transactions) /\
             CustomerSegmentation.customer_segment r = Some Basic).
Proof.
  assert (Hpk : NoDup (map Customers.customer_id scenario_customers)).
  { simpl. repeat constructor; simpl; intuition discriminate. }
  pose proof (CustomerSegmentation_run_result scenario_customers scenario_transactions)
    as Hres.
  destruct (@C5_segment_rows_of_all_customers _ _ _ Hpk Hres) as (_ & _ & H3 & Hiff & _).
  split; [exact Hpk|]. split; [exact Hres|]. split.
  - apply H3. intros c Hc. simpl in Hc.
    destruct Hc as [<-|[<-|[<-|[]]]]; discriminate.
  - apply (proj2 (Hiff (Some Basic))).
    exists (sample_customer 3 "Cid" "TX" (Some Basic)).
    split; [simpl; tauto | reflexivity].
Defined.

(** C5, as stated, fails: the view keeps customers without transactions
    ([LEFT JOIN]), so the segment of a customer who never bought has a row;
    and customers without a segment make a fourth row. *)
Lemma C5_counterexample :
  CustomerSegmentation.run idle_customers []
    = [ {| CustomerSegmentation.customer_segment := Some Premium;
           CustomerSegmentation.customer_count := 1;
           CustomerSegmentation.avg_customer_value := None;
           CustomerSegmentation.avg_transactions_per_customer := Some (0 # 1);
           CustomerSegmentation.avg_order_value := None |} ] /\
  length (CustomerSegmentation.run
            (sample_customer 4 "Dee" "WA" None :: scenario_customers)
            scenario_transactions) = 4%nat.
Proof. split; vm_compute; reflexivity. Qed.

(* ------------------------------------------------------------------ *)
(** ** Category and brand analysis *)

Lemma round_half_away_inject_Z (z : Z) : round_half_away (inject_Z z) = z.
Proof.
  unfold round_half_away.
  destruct (Qle_bool 0 (inject_Z z)).
  - unfold Qfloor, Qplus, inject_Z. simpl.
    symmetry. apply (Z.div_unique _ 2 z 1); lia.
  - unfold Qceiling, Qfloor, Qminus, Qplus, Qopp, inject_Z. simpl.
    assert (H : - (z * 2 + -1) / 2 = - z)
      by (symmetry; apply (Z.div_unique _ 2 (- z) 1); lia).
    rewrite H. lia.
Qed.

Lemma round_half_away_comp (x y : Q) : x == y -> round_half_away x = round_half_away y.
Proof.
  intros H. unfold round_half_away. rewrite H.
  destruct (Qle_bool 0 y); unfold Qceiling; now rewrite H.
Qed.

(** Rounding to cents leaves an amount of whole cents as it is. *)
Lemma ROUND_decimal (q : Q) (c : Z) : q == decimal c -> ROUND q 2 = Qred (decimal c).
Proof.
  intros H. unfold ROUND. apply Qred_complete.
  assert (Hq : q * inject_Z (10 ^ Z.of_nat 2) == inject_Z c).
  { rewrite H. unfold decimal, Qeq, Qmult, inject_Z. simpl. lia. }
  rewrite (round_half_away_comp Hq), round_half_away_inject_Z.
  unfold decimal, Qeq, Qdiv, Qmult, Qinv, inject_Z. simpl. lia.
Qed.

Lemma SUM_profits (g : list (product * transaction)) :
  g <> [] ->
  exists q, SUM (ProductProfitability.profits g) = Some q /\ q == decimal (profit_cents g).
Proof.
  intros Hne. unfold ProductProfitability.profits.
  rewrite (SUM_Some _ Hne). eexists. split; [reflexivity|].
  rewrite Qred_correct. clear Hne. unfold profit_cents.
  induction g as [|pt g IH]; simpl; [reflexivity|].
  rewrite IH. unfold decimal, Qeq, Qplus, Qminus, Qmult, Qopp, inject_Z. simpl. lia.
Qed.

Section AnalysisFacts.
Variable K : Type.
Variable eqb : K -> K -> bool.
Variable key : product -> K.
Hypothesis eqb_spec : forall x y, reflect (x = y) (eqb x y).

Lemma analysis_group_In (ps : list product) (txs : list transaction) (k : K)
    (p : product) (t : transaction) :
  In (p, t) (analysis_group eqb key ps txs k) <->
  In p ps /\ In t txs /\ Products.product_id p = Transactions.product_id t /\ key p = k.
Proof.
  unfold analysis_group.
  rewrite (group_of_In eqb (fun pt : product * transaction => key (fst pt)) eqb_spec).
  rewrite inner_join_In. unfold on_product. rewrite Z.eqb_eq. simpl. tauto.
Qed.

Lemma analysis_keys (ps : list product) (txs : list transaction) (k : K) :
  (exists r, In r (Engine.analysis eqb key ps txs) /\ Engine.group r = k) <->
  (exists p t, In p ps /\ In t txs /\
               Products.product_id p = Transactions.product_id t /\ key p = k).
Proof.
  unfold Engine.analysis. split.
  - intros (r & Hr & <-).
    apply (grouped_In _ _ _ _ _ eqb_spec) in Hr. destruct Hr as ([p t] & Hpt & ->).
    apply inner_join_In in Hpt. destruct Hpt as (Hp & Ht & Hon).
    exists p, t. unfold on_product in Hon. apply Z.eqb_eq in Hon. simpl. auto.
  - intros (p & t & Hp & Ht & Hid & <-).
    eexists. split.
    + apply (grouped_In _ _ _ _ _ eqb_spec). exists (p, t). split; [|reflexivity].
      apply inner_join_In. unfold on_product. rewrite Z.eqb_eq. auto.
    + reflexivity.
Qed.

Lemma analysis_row_spec (ps : list product) (txs : list transaction)
    (r : Engine.analysis_row K) :
  In r (Engine.analysis eqb key ps txs) ->
  let g := analysis_group eqb key ps txs (Engine.group r) in
  let ts := map snd g in
  g <> [] /\
  Engine.profit r = Some (Qred (decimal (profit_cents g))) /\
  Engine.revenue r = Some (Qred (decimal (total_cents ts))) /\
  Engine.transaction_total r = Z.of_nat (length g) /\
  Engine.average_sale r =
    Some (Qred (decimal (total_cents ts) / inject_Z (Z.of_nat (length g)))) /\
  Engine.quantity_total r = Some (Qred (inject_Z (total_units ts))) /\
  Engine.customers r =
    Z.of_nat (length (distinct Z.eqb (map Transactions.customer_id ts))).
Proof.
  unfold Engine.analysis. intros Hr.
  apply (grouped_In _ _ _ _ _ eqb_spec) in Hr. destruct Hr as (pt & Hpt & ->).
  cbn [Engine.group Engine.profit Engine.revenue Engine.transaction_total
       Engine.average_sale Engine.quantity_total Engine.customers fst snd].
  fold (analysis_group eqb key ps txs (key (fst pt))).
  set (g := analysis_group eqb key ps txs (key (fst pt))).
  assert (Hne : g <> [])
    by (apply (group_of_nonempty eqb (fun pt0 : product * transaction => key (fst pt0))
                 _ pt eqb_spec Hpt)).
  assert (Hts : map snd g <> [])
    by (intros Hnil; apply map_eq_nil in Hnil; contradiction).
  split; [exact Hne|]. split; [|split; [|split; [|split; [|split]]]].
  - destruct (SUM_profits Hne) as (q & -> & Hq). simpl. f_equal.
    now apply ROUND_decimal.
  - now apply SUM_amounts.
  - rewrite COUNT_transaction_ids. now rewrite length_map.
  - rewrite (AVG_amounts Hts). now rewrite length_map.
  - now apply SUM_quantities.
  - unfold COUNT_DISTINCT, customer_ids. now rewrite non_null_Some.
Qed.
End AnalysisFacts.

(** Query 7 computes the profit of a product as
    [(p.price - p.cost) * SUM(t.quantity)]: the same sum, transaction by
    transaction. *)
Lemma TopProducts_profit_exact (price cost : Z) (ts : list transaction) :
  ts <> [] ->
  TopProducts.profit price cost ts =
  Some (Qred (decimal (Zsum (map (fun t => (price - cost) * Transactions.quantity t) ts)))).
Proof.
  intros Hne. unfold TopProducts.profit. rewrite (SUM_quantities Hne).
  cbn [option_map]. f_equal. apply ROUND_decimal. rewrite Qred_correct.
  unfold total_units.
  clear Hne. induction ts as [|t ts IH]; simpl.
  - unfold decimal, Qeq, Qminus, Qplus, Qmult, Qopp, inject_Z. simpl. lia.
  - assert (H : decimal (Zsum (map (fun t0 => (price - cost) * Transactions.quantity t0) ts))
                == (decimal price - decimal cost)
                   * inject_Z (Zsum (map Transactions.quantity ts)))
      by (symmetry; exact IH).
    unfold decimal, Qeq, Qminus, Qplus, Qmult, Qopp, inject_Z in *. simpl in *. nia.
Qed.

Lemma TopProducts_groups_row (ps : list product) (txs : list transaction)
    (r : TopProducts.row) :
  In r (TopProducts.groups ps txs) ->
  exists p ts,
    In p ps /\ ts <> [] /\
    (forall t, In t ts ->
       In t txs /\ Transactions.product_id t = Products.product_id p) /\
    TopProducts.product_name r = Products.product_name p /\
    TopProducts.total_profit r =
      Some (Qred (decimal (Zsum (map (fun t => (Products.price p - Products.cost p)
                                               * Transactions.quantity t) ts)))).
Proof.
  intros Hr. unfold TopProducts.groups in Hr.
  apply (grouped_In _ _ _ _ _ TopProducts_key_eqb_spec) in Hr.
  destruct Hr as ([p t0] & Hpt & ->).
  set (g := group_of TopProducts.key_eqb TopProducts.group_key
                     (TopProducts.group_key (p, t0)) (inner_join on_product ps txs)).
  assert (Hne : map snd g <> []).
  { intros Hnil. apply map_eq_nil in Hnil.
    now apply (group_of_nonempty _ TopProducts.group_key _ _
                 TopProducts_key_eqb_spec Hpt). }
  exists p, (map snd g).
  split; [apply inner_join_In in Hpt; tauto|]. split; [exact Hne|].
  split; [|split; [reflexivity|]].
  - intros t Ht. apply in_map_iff in Ht. destruct Ht as ([p' t'] & Heq & Hin).
    simpl in Heq. subst t'.
    apply (group_of_In _ _ TopProducts_key_eqb_spec) in Hin.
    destruct Hin as [Hj Hk]. apply inner_join_In in Hj.
    destruct Hj as (_ & Ht & Hon). split; [exact Ht|].
    unfold on_product in Hon. apply Z.eqb_eq in Hon.
    assert (Hid : Products.product_id p' = Products.product_id p)
      by (apply (f_equal fst) in Hk; exact Hk).
    congruence.
  - exact (TopProducts_profit_exact (Products.price p) (Products.cost p) Hne).
Qed.

(** C6. For each category (likewise each brand) of a product joined to at
    least one transaction, and for no other, the analysis has a row; its
    profit is the sum of [(product.price - product.cost) * transaction.quantity]
    over the joined pairs of that category, which rounding to 2 decimals
    leaves exact, beside the revenue sum, the transaction count, the
    average sale amount, the quantity sum and the number of distinct
    customers of those transactions.  The category rows are the rows of
    query 3 of the script with the profit of the profitability query, and
    query 7 reports the same sum for each product. *)
Theorem C6_category_brand_profit (ps : list product) (txs : list transaction) :
  (forall category,
     (exists r, In r (Engine.categoryAnalysis ps txs) /\ Engine.group r = category) <->
     (exists p t, In p ps /\ In t txs /\
        Products.product_id p = Transactions.product_id t /\
        Products.category p = category)) /\
  (forall r, In r (Engine.categoryAnalysis ps txs) ->
     let g := analysis_group String.eqb Products.category ps txs (Engine.group r) in
     let ts := map snd g in
     (forall p t, In (p, t) g <->
        In p ps /\ In t txs /\ Products.product_id p = Transactions.product_id t /\
        Products.category p = Engine.group r) /\
     g <> [] /\
     Engine.profit r = Some (Qred (decimal (profit_cents g))) /\
     Engine.revenue r = Some (Qred (decimal (total_cents ts))) /\
     Engine.transaction_total r = Z.of_nat (length g) /\
     Engine.average_sale r =
       Some (Qred (decimal (total_cents ts) / inject_Z (Z.of_nat (length g)))) /\
     Engine.quantity_total r = Some (Qred (inject_Z (total_units ts))) /\
     Engine.customers r =
       Z.of_nat (length (distinct Z.eqb (map Transactions.customer_id ts)))) /\
  (forall brand,
     (exists r, In r (Engine.brandAnalysis ps txs) /\ Engine.group r = brand) <->
     (exists p t, In p ps /\ In t txs /\
        Products.product_id p = Transactions.product_id t /\
        Products.brand p = brand)) /\
  (forall r, In r (Engine.brandAnalysis ps txs) ->
     let g := analysis_group (option_eqb String.eqb) Products.brand ps txs
                             (Engine.group r) in
     let ts := map snd g in
     (forall p t, In (p, t) g <->
        In p ps /\ In t txs /\ Products.product_id p = Transactions.product_id t /\
        Products.brand p = Engine.group r) /\
     g <> [] /\
     Engine.profit r = Some (Qred (decimal (profit_cents g))) /\
     Engine.revenue r = Some (Qred (decimal (total_cents ts))) /\
     Engine.transaction_total r = Z.of_nat (length g) /\
     Engine.average_sale r =
       Some (Qred (decimal (total_cents ts) / inject_Z (Z.of_nat (length g)))) /\
     Engine.quantity_total r = Some (Qred (inject_Z (total_units ts))) /\
     Engine.customers r =
       Z.of_nat (length (distinct Z.eqb (map Transactions.customer_id ts)))) /\
  map (fun r => {| CategoryPerformance.category := Engine.group r;
                   CategoryPerformance.total_sales := Engine.transaction_total r;
                   CategoryPerformance.total_revenue := Engine.revenue r;
                   CategoryPerformance.avg_sale_amount := Engine.average_sale r;
                   CategoryPerformance.total_quantity_sold := Engine.quantity_total r;
                   CategoryPerformance.unique_customers := Engine.customers r |})
      (Engine.categoryAnalysis ps txs)
    = CategoryPerformance.groups ps txs /\
  map (fun r => (Engine.group r, Engine.profit r)) (Engine.categoryAnalysis ps txs)
    = map (fun r => (ProductProfitability.category r,
                     option_map (fun x => ROUND x 2) (ProductProfitability.total_profit r)))
          (ProductProfitability.groups ps txs) /\
  (forall r, In r (TopProducts.groups ps txs) ->
     exists p ts,
       In p ps /\ ts <> [] /\
       (forall t, In t ts ->
          In t txs /\ Transactions.product_id t = Products.product_id p) /\
       TopProducts.product_name r = Products.product_name p /\
       TopProducts.total_profit r =
         Some (Qred (decimal (Zsum (map (fun t => (Products.price p - Products.cost p)
                                                  * Transactions.quantity t) ts))))).
Proof.
  split; [|split; [|split; [|split; [|split; [|split]]]]];
    [| | | | | |exact (TopProducts_groups_row ps txs)].
  - intros category. apply (analysis_keys String.eqb Products.category String.eqb_spec).
  - intros r Hr. split.
    + intros p t. apply (analysis_group_In String.eqb Products.category String.eqb_spec).
    + apply (analysis_row_spec String.eqb Products.category String.eqb_spec _ _ _ Hr).
  - intros brand. apply (analysis_keys (option_eqb String.eqb) Products.brand option_string_eqb_spec).
  - intros r Hr. split.
    + intros p t. apply (analysis_group_In (option_eqb String.eqb) Products.brand option_string_eqb_spec).
    + apply (analysis_row_spec (option_eqb String.eqb) Products.brand option_string_eqb_spec _ _ _ Hr).
  - unfold Engine.categoryAnalysis, Engine.analysis, CategoryPerformance.groups.
    rewrite map_map. reflexivity.
  - unfold Engine.categoryAnalysis, Engine.analysis, ProductProfitability.groups.
    rewrite !map_map. reflexivity.
Qed.

Lemma C6_category_brand_profit_witness :
  map (fun r => (Engine.group r, Engine.profit r, Engine.revenue r))
      (Engine.categoryAnalysis scenario_products scenario_transactions)
    = [ ("Electronics"%string, Some (100 # 1), Some (200 # 1));
        ("Accessories"%string, Some (60 # 1), Some (100 # 1)) ] /\
  (exists r, In r (Engine.categoryAnalysis scenario_products scenario_transactions) /\
     Engine.group r = "Accessories"%string /\
     Engine.profit r
       = Some (Qred (decimal (profit_cents
            (analysis_group String.eqb Products.category scenario_products
                            scenario_transactions (Engine.group r)))))).
Proof.
  split; [vm_compute; reflexivity|].
  destruct (C6_category_brand_profit scenario_products scenario_transactions)
    as (Hkeys & Hrows & _).
  destruct (proj2 (Hkeys "Accessories"%string)) as (r & Hr & Hgroup).
  - exists (sample_product 2 "Case" "Accessories" 5000 2000),
           (sample_transaction 2 2 2 2023 5 2 10000 (Some 0)).
    simpl. repeat split; tauto.
  - exists r. split; [exact Hr|]. split; [exact Hgroup|].
    exact (proj1 (proj2 (proj2 (Hrows r Hr)))).
Defined.

(* ------------------------------------------------------------------ *)
(** ** The custom-query validator *)

Lemma starts_with_spec (k s : string) :
  Validator.starts_with k s = true <-> exists after, s = (k ++ after)%string.
Proof.
  revert s. induction k as [|a k IH]; intros s; simpl.
  - split; [intros _; now exists s | reflexivity].
  - destruct s as [|b s].
    + split; [discriminate | intros (after & H); discriminate H].
    + rewrite andb_true_iff, IH. split.
      * intros [Hab (after & ->)]. apply Ascii.eqb_eq in Hab. subst b. now exists after.
      * intros (after & H). injection H as -> ->.
        split; [apply Ascii.eqb_refl | now exists after].
Qed.

Lemma contains_spec (k s : string) :
  Validator.contains k s = true <-> Validator.occurs_in k s.
Proof.
  unfold Validator.occurs_in. split.
  - induction s as [|c s IH]; simpl; rewrite orb_true_iff; intros [H|H].
    + apply starts_with_spec in H. destruct H as (after & ->).
      now exists EmptyString, after.
    + discriminate H.
    + apply starts_with_spec in H. destruct H as (after & ->).
      now exists EmptyString, after.
    + destruct (IH H) as (before & after & ->).
      now exists (String c before), after.
  - intros (before & after & ->). induction before as [|c before IH].
    + assert (H : Validator.starts_with k (k ++ after) = true)
        by (apply starts_with_spec; now exists after).
      simpl append. destruct (k ++ after)%string; simpl; now rewrite H.
    + simpl. rewrite IH. apply orb_true_r.
Qed.

Lemma validate_rejects (query : string) :
  (exists msg, Validator.validate query = Validator.ValueError msg) <->
  (exists keyword, In keyword Validator.dangerous_keywords /\
                   Validator.occurs_in keyword (Validator.upper query)).
Proof.
  unfold Validator.validate.
  destruct (existsb _ Validator.dangerous_keywords) eqn:He.
  - apply existsb_exists in He. destruct He as (k & Hk & Hc).
    apply contains_spec in Hc. split; [intros _; now exists k | intros _; eauto].
  - split; [intros (msg & H); discriminate H|].
    intros (k & Hk & Hc). apply contains_spec in Hc.
    assert (Ht : existsb (fun keyword => Validator.contains keyword (Validator.upper query))
                         Validator.dangerous_keywords = true)
      by (apply existsb_exists; now exists k).
    congruence.
Qed.

(** C7, at the failing input: an [INSERT] statement passes the validator,
    whose list has no such keyword, and reaches the database. *)
Theorem C7_insert_reaches_database :
  Validator.occurs_in "INSERT" (Validator.upper insert_query) /\
  Validator.validate insert_query = Validator.Passed /\
  (forall (R E : Type) (execute : string -> R + E),
     Validator.custom_query execute insert_query =
     match execute insert_query with
     | inl rows => Validator.Rows E rows
     | inr e => Validator.QueryError R e
     end).
Proof.
  split; [|split].
  - apply contains_spec. vm_compute. reflexivity.
  - vm_compute. reflexivity.
  - intros R E execute. unfold Validator.custom_query.
    replace (Validator.validate insert_query) with Validator.Passed
      by (vm_compute; reflexivity).
    reflexivity.
Qed.

(** C10. The validator rejects a query exactly when its uppercased text
    contains 'DROP', 'DELETE', 'UPDATE', 'ALTER' or 'CREATE' somewhere; so
    it rejects a read-only SELECT that names a column [last_updated], and
    it passes every INSERT statement free of those five substrings on to
    the database. *)
Theorem C10_validator_matches_substrings :
  Validator.dangerous_keywords = ["DROP"; "DELETE"; "UPDATE"; "ALTER"; "CREATE"]%string /\
  (forall query,
     (exists msg, Validator.validate query = Validator.ValueError msg) <->
     (exists keyword, In keyword Validator.dangerous_keywords /\
                      Validator.occurs_in keyword (Validator.upper query))) /\
  (forall query, Validator.validate query = Validator.Passed \/
                 Validator.validate query
                   = Validator.ValueError "Modification queries not allowed") /\
  Validator.validate select_updated_query
    = Validator.ValueError "Modification queries not allowed" /\
  (forall query,
     Validator.occurs_in "INSERT" (Validator.upper query) ->
     (forall keyword, In keyword Validator.dangerous_keywords ->
                      ~ Validator.occurs_in keyword (Validator.upper query)) ->
     Validator.validate query = Validator.Passed /\
     forall (R E : Type) (execute : string -> R + E),
       Validator.custom_query execute query =
       match execute query with
       | inl rows => Validator.Rows E rows
       | inr e => Validator.QueryError R e
       end).
Proof.
  split; [reflexivity|]. split; [exact validate_rejects|]. split; [|split].
  - intros query. unfold Validator.validate.
    destruct (existsb _ _); [now right | now left].
  - vm_compute. reflexivity.
  - intros query _ Hfree.
    assert (Hpass : Validator.validate query = Validator.Passed).
    { destruct (Validator.validate query) as [|msg] eqn:Hv; [reflexivity|].
      destruct (proj1 (validate_rejects query) (ex_intro _ msg Hv)) as (k & Hk & Hc).
      exfalso. exact (Hfree k Hk Hc). }
    split; [exact Hpass|].
    intros R E execute. unfold Validator.custom_query. now rewrite Hpass.
Qed.

Lemma C10_validator_matches_substrings_witness :
  Validator.occurs_in "INSERT" (Validator.upper insert_query) /\
  (forall keyword, In keyword Validator.dangerous_keywords ->
                   ~ Validator.occurs_in keyword (Validator.upper insert_query)) /\
  Validator.validate insert_query = Validator.Passed.
Proof.
  assert (Hins : Validator.occurs_in "INSERT" (Validator.upper insert_query))
    by (apply contains_spec; vm_compute; reflexivity).
  assert (Hfree : forall keyword, In keyword Validator.dangerous_keywords ->
                    ~ Validator.occurs_in keyword (Validator.upper insert_query)).
  { intros keyword Hk Hc. apply contains_spec in Hc. simpl in Hk.
    destruct Hk as [<-|[<-|[<-|[<-|[<-|[]]]]]]; vm_compute in Hc; discriminate Hc. }
  split; [exact Hins|]. split; [exact Hfree|].
  exact (proj1 (proj2 (proj2 (proj2 (proj2 C10_validator_matches_substrings)))
                  insert_query Hins Hfree)).
Defined.

(* ------------------------------------------------------------------ *)
(** ** Total metrics *)

(** C8. [totalMetrics] is a total function; on no transaction its row is
    all zeros; in general revenue is the sum of [total_amount], the count
    the number of transactions, the distinct customers the number of
    different customer ids among them, and the average order value is
    revenue / count, or 0 when the count is zero. *)
Theorem C8_total_metrics (txs : list transaction) :
  Engine.totalMetrics []
    = {| Engine.total_revenue := 0;
         Engine.transaction_count := 0;
         Engine.average_order_value := 0;
         Engine.distinct_customers := 0 |} /\
  Engine.total_revenue (Engine.totalMetrics txs) == decimal (total_cents txs) /\
  Engine.transaction_count (Engine.totalMetrics txs) = Z.of_nat (length txs) /\
  (exists ids,
     NoDup ids /\
     (forall id, In id ids <-> exists t, In t txs /\ Transactions.customer_id t = id) /\
     Engine.distinct_customers (Engine.totalMetrics txs) = Z.of_nat (length ids)) /\
  (Engine.transaction_count (Engine.totalMetrics txs) = 0 ->
     Engine.average_order_value (Engine.totalMetrics txs) = 0%Q) /\
  (Engine.transaction_count (Engine.totalMetrics txs) <> 0 ->
     Engine.average_order_value (Engine.totalMetrics txs)
     == Engine.total_revenue (Engine.totalMetrics txs)
        / inject_Z (Engine.transaction_count (Engine.totalMetrics txs))).
Proof.
  split; [reflexivity|]. split; [apply Qred_correct|]. split; [reflexivity|].
  split; [|split].
  - exists (distinct Z.eqb (map Transactions.customer_id txs)).
    split; [apply (distinct_NoDup Z.eqb Z.eqb_spec)|]. split; [|reflexivity].
    intros id. rewrite (distinct_In Z.eqb Z.eqb_spec), in_map_iff.
    split; intros (t & H1 & H2); exists t; auto.
  - destruct txs as [|t txs]; [reflexivity|]. simpl. lia.
  - destruct txs as [|t txs]; [simpl; lia|]. intros _.
    cbn [Engine.average_order_value Engine.total_revenue Engine.transaction_count
         Engine.totalMetrics].
    now rewrite !Qred_correct.
Qed.

Lemma C8_total_metrics_witness :
  Engine.transaction_count (Engine.totalMetrics scenario_transactions) <> 0 /\
  Engine.totalMetrics scenario_transactions
    = {| Engine.total_revenue := 370 # 1;
         Engine.transaction_count := 4;
         Engine.average_order_value := 185 # 2;
         Engine.distinct_customers := 3 |} /\
  Engine.average_order_value (Engine.totalMetrics scenario_transactions)
  == Engine.total_revenue (Engine.totalMetrics scenario_transactions)
     / inject_Z (Engine.transaction_count (Engine.totalMetrics scenario_transactions)).
Proof.
  assert (Hnz : Engine.transaction_count (Engine.totalMetrics scenario_transactions) <> 0)
    by (vm_compute; discriminate).
  split; [exact Hnz|]. split; [vm_compute; reflexivity|].
  exact (proj2 (proj2 (proj2 (proj2 (proj2 (C8_total_metrics scenario_transactions))))) Hnz).
Defined.

(* ================================================================== *)
(** * Further properties of the scripts and components *)

(** ** Groups partition the rows *)

Lemma Zsum_cons (x : Z) (l : list Z) : Zsum (x :: l) = x + Zsum l.
Proof. reflexivity. Qed.

Lemma Zsum_app (l1 l2 : list Z) : Zsum (l1 ++ l2) = Zsum l1 + Zsum l2.
Proof. induction l1 as [|a l1 IH]; simpl; [reflexivity | rewrite IH; lia]. Qed.

Lemma Zsum_Permutation (l1 l2 : list Z) : Permutation l1 l2 -> Zsum l1 = Zsum l2.
Proof. induction 1; simpl; lia. Qed.

Lemma Zsum_ones (A : Type) (l : list A) : Zsum (map (fun _ => 1) l) = Z.of_nat (length l).
Proof.
  induction l as [|a l IH]; [reflexivity|].
  cbn [map length]. unfold Zsum in *. cbn [fold_right]. rewrite IH. lia.
Qed.

Section Partition.
Variables A K : Type.
Variable eqb : K -> K -> bool.
Variable key : A -> K.
Variable f : A -> Z.
Hypothesis eqb_spec : forall x y, reflect (x = y) (eqb x y).

Lemma indicator_sum (ks : list K) (k : K) :
  NoDup ks -> In k ks ->
  Zsum (map (fun k' => if eqb k k' then 1 else 0) ks) = 1.
Proof.
  induction 1 as [|k0 ks Hnotin Hnd IH]; simpl; [tauto|].
  intros [->|Hin].
  - destruct (eqb_spec k k) as [_|Hne]; [|congruence].
    assert (H0 : Zsum (map (fun k' => if eqb k k' then 1 else 0) ks) = 0).
    { clear IH Hnd. induction ks as [|k1 ks IH]; simpl; [reflexivity|].
      destruct (eqb_spec k k1) as [->|_]; [exfalso; apply Hnotin; now left|].
      rewrite IH; [reflexivity|]. intros H. apply Hnotin. now right. }
    lia.
  - destruct (eqb_spec k k0) as [->|_]; [contradiction|].
    rewrite (IH Hin). reflexivity.
Qed.

(** Summing a measure group by group gives its sum over all the rows. *)
Lemma partition_sum (ks : list K) (rows : list A) :
  NoDup ks -> (forall a, In a rows -> In (key a) ks) ->
  Zsum (map (fun k => Zsum (map f (group_of eqb key k rows))) ks) = Zsum (map f rows).
Proof.
  intros Hnd. induction rows as [|a rows IH]; intros Hin.
  - simpl. induction ks as [|k ks IHk]; simpl; [reflexivity|].
    inversion Hnd; subst. now rewrite IHk.
  - assert (Hsplit : forall l : list K,
      Zsum (map (fun k => Zsum (map f (group_of eqb key k (a :: rows)))) l)
      = f a * Zsum (map (fun k' => if eqb (key a) k' then 1 else 0) l)
        + Zsum (map (fun k => Zsum (map f (group_of eqb key k rows))) l)).
    { induction l as [|k l IHl]; [simpl; lia|].
      rewrite !map_cons, !Zsum_cons, IHl. unfold group_of. cbn [filter].
      destruct (eqb (key a) k); rewrite ?map_cons, ?Zsum_cons; ring. }
    rewrite Hsplit, IH by (intros a' Ha'; apply Hin; now right).
    rewrite (@indicator_sum ks (key a) Hnd (Hin a (or_introl eq_refl))).
    rewrite map_cons, Zsum_cons. lia.
Qed.

Lemma group_by_partition (rows : list A) :
  Zsum (map (fun kg => Zsum (map f (snd kg))) (group_by eqb key rows))
  = Zsum (map f rows).
Proof.
  unfold group_by. rewrite map_map. simpl.
  apply partition_sum.
  - apply (distinct_NoDup eqb eqb_spec).
  - intros a Ha. rewrite (distinct_In eqb eqb_spec). now apply in_map.
Qed.
End Partition.

(** ** Rounding *)

Lemma round_half_away_near (x : Q) :
  (x - (1 # 2) <= inject_Z (round_half_away x))%Q /\
  (inject_Z (round_half_away x) <= x + (1 # 2))%Q.
Proof.
  unfold round_half_away. destruct (Qle_bool 0 x).
  - pose proof (Qfloor_le (x + (1 # 2))) as H1.
    pose proof (Qlt_floor (x + (1 # 2))) as H2.
    rewrite inject_Z_plus in H2. change (inject_Z 1) with 1%Q in H2. split; lra.
  - pose proof (Qle_ceiling (x - (1 # 2))) as H1.
    pose proof (Qceiling_lt (x - (1 # 2))) as H2.
    unfold Z.sub in H2. rewrite inject_Z_plus in H2.
    change (inject_Z (- (1))) with (- (1))%Q in H2. split; lra.
Qed.

Lemma round_half_away_monotone (x y : Q) :
  (x <= y)%Q -> round_half_away x <= round_half_away y.
Proof.
  intros Hxy. unfold round_half_away.
  destruct (Qle_bool 0 x) eqn:Hx; destruct (Qle_bool 0 y) eqn:Hy.
  - apply Qfloor_resp_le. lra.
  - apply Qle_bool_iff in Hx.
    assert (Hny : (y < 0)%Q)
      by (apply Qnot_le_lt; rewrite <- Qle_bool_iff; congruence).
    lra.
  - assert (Hnx : (x < 0)%Q)
      by (apply Qnot_le_lt; rewrite <- Qle_bool_iff; congruence).
    apply Qle_bool_iff in Hy.
    transitivity 0.
    + change 0 with (Qceiling (inject_Z 0)). apply Qceiling_resp_le.
      change (inject_Z 0) with 0%Q. lra.
    + change 0 with (Qfloor (inject_Z 0)). apply Qfloor_resp_le.
      change (inject_Z 0) with 0%Q. lra.
  - apply Qceiling_resp_le. lra.
Qed.

Lemma scale_positive (d : nat) : (0 < inject_Z (10 ^ Z.of_nat d))%Q.
Proof.
  change 0%Q with (inject_Z 0). rewrite <- Zlt_Qlt.
  apply Z.pow_pos_nonneg; lia.
Qed.

(** [ROUND(x, d)] is within half a unit of the last decimal of [x]. *)
Lemma ROUND_near (x : Q) (d : nat) :
  (x - (1 # 2) / inject_Z (10 ^ Z.of_nat d) <= ROUND x d)%Q /\
  (ROUND x d <= x + (1 # 2) / inject_Z (10 ^ Z.of_nat d))%Q.
Proof.
  unfold ROUND. rewrite Qred_correct.
  pose proof (scale_positive d) as Hs.
  set (s := inject_Z (10 ^ Z.of_nat d)) in *.
  destruct (round_half_away_near (x * s)) as [H1 H2].
  split.
  - apply Qle_shift_div_l; [exact Hs|].
    assert (He : ((x - (1 # 2) / s) * s == x * s - (1 # 2))%Q) by (field; lra).
    rewrite He. exact H1.
  - apply Qle_shift_div_r; [exact Hs|].
    assert (He : ((x + (1 # 2) / s) * s == x * s + (1 # 2))%Q) by (field; lra).
    rewrite He. exact H2.
Qed.

Lemma ROUND_monotone (x y : Q) (d : nat) : (x <= y)%Q -> (ROUND x d <= ROUND y d)%Q.
Proof.
  intros Hxy. unfold ROUND. rewrite !Qred_correct.
  pose proof (scale_positive d) as Hs.
  set (s := inject_Z (10 ^ Z.of_nat d)) in *.
  apply Qmult_le_compat_r.
  - rewrite <- Zle_Qle. apply round_half_away_monotone.
    apply Qmult_le_compat_r; lra.
  - apply Qlt_le_weak, Qinv_lt_0_compat, Hs.
Qed.

Lemma ROUND_integer (z : Z) (d : nat) : (ROUND (inject_Z z) d == inject_Z z)%Q.
Proof.
  unfold ROUND. rewrite Qred_correct.
  pose proof (scale_positive d) as Hs.
  assert (He : (inject_Z z * inject_Z (10 ^ Z.of_nat d)
                == inject_Z (z * 10 ^ Z.of_nat d))%Q)
    by (now rewrite inject_Z_mult).
  rewrite (round_half_away_comp He), round_half_away_inject_Z, inject_Z_mult.
  field. lra.
Qed.

(** ** Counts, revenue and percentages of the reports without a join *)



Section ReportPartition.
Variable K : Type.
Variable eqb : K -> K -> bool.
Variable key : transaction -> K.
Hypothesis eqb_spec : forall x y, reflect (x = y) (eqb x y).

Lemma count_partition (txs : list transaction) :
  Zsum (map (fun kg => COUNT (transaction_ids (snd kg))) (group_by eqb key txs))
  = Z.of_nat (length txs).
Proof.
  rewrite <- (Zsum_ones txs).
  rewrite <- (group_by_partition eqb key (fun _ => 1) eqb_spec txs).
  f_equal. apply map_ext. intros kg.
  now rewrite COUNT_transaction_ids, Zsum_ones.
Qed.


End ReportPartition.

(** In the channel, payment, discount and monthly reports, every
    transaction is counted in exactly one row: the counts of the rows add
    up to the number of transactions. *)
Theorem report_counts_add_up (txs : list transaction) :
  (forall out, ChannelPerformance.result txs out ->
     Zsum (map ChannelPerformance.total_transactions out) = Z.of_nat (length txs)) /\
  (forall out, PaymentAnalysis.result txs out ->
     Zsum (map PaymentAnalysis.transaction_count out) = Z.of_nat (length txs)) /\
  (forall out, DiscountImpact.result txs out ->
     Zsum (map DiscountImpact.transaction_count out) = Z.of_nat (length txs)) /\
  (forall out, MonthlyTrend.result txs out ->
     Zsum (map MonthlyTrend.total_transactions out) = Z.of_nat (length txs)).
Proof.
  split; [|split; [|split]]; intros out [Hperm _].
  - rewrite <- (Zsum_Permutation (Permutation_map _ Hperm)).
    unfold ChannelPerformance.groups. rewrite map_map.
    apply (count_partition _ _ option_channel_eqb_spec).
  - rewrite <- (Zsum_Permutation (Permutation_map _ Hperm)).
    unfold PaymentAnalysis.groups. rewrite map_map.
    apply (count_partition _ _ option_payment_eqb_spec).
  - rewrite <- (Zsum_Permutation (Permutation_map _ Hperm)).
    unfold DiscountImpact.groups. rewrite map_map.
    apply (count_partition _ _ bucket_eqb_spec).
  - rewrite <- (Zsum_Permutation (Permutation_map _ Hperm)).
    unfold MonthlyTrend.groups. rewrite map_map.
    apply (count_partition _ _ String.eqb_spec).
Qed.

Lemma report_counts_add_up_witness :
  ChannelPerformance.result scenario_transactions
    (ChannelPerformance.run scenario_transactions) /\
  Zsum (map ChannelPerformance.total_transactions
            (ChannelPerformance.run scenario_transactions)) = 4.
Proof.
  pose proof (ChannelPerformance_run_result scenario_transactions) as Hres.
  split; [exact Hres|].
  exact (proj1 (report_counts_add_up scenario_transactions) _ Hres).
Defined.



Lemma share_bounds (c t : Z) :
  0 <= c <= t -> 0 < t ->
  (0 <= inject_Z c * 100 / inject_Z t)%Q /\ (inject_Z c * 100 / inject_Z t <= 100)%Q.
Proof.
  intros [H0 Hct] Ht.
  assert (Hc : (0 <= inject_Z c)%Q) by (change 0%Q with (inject_Z 0); now rewrite <- Zle_Qle).
  assert (Hct' : (inject_Z c <= inject_Z t)%Q) by now rewrite <- Zle_Qle.
  assert (Ht' : (0 < inject_Z t)%Q) by (change 0%Q with (inject_Z 0); now rewrite <- Zlt_Qlt).
  split.
  - apply Qle_shift_div_l; [exact Ht'|]. lra.
  - apply Qle_shift_div_r; [exact Ht'|]. lra.
Qed.

Lemma percentage_of_bounds (g all : list transaction) :
  g <> [] -> (length g <= length all)%nat ->
  (0 <= percentage_of g all)%Q /\ (percentage_of g all <= 100)%Q /\
  (inject_Z (Z.of_nat (length g)) * 100 / inject_Z (Z.of_nat (length all)) - (1 # 200)
   <= percentage_of g all)%Q /\
  (percentage_of g all
   <= inject_Z (Z.of_nat (length g)) * 100 / inject_Z (Z.of_nat (length all)) + (1 # 200))%Q.
Proof.
  intros Hne Hle. unfold percentage_of, COUNT_star. rewrite COUNT_transaction_ids.
  set (x := (inject_Z (Z.of_nat (length g)) * 100 / inject_Z (Z.of_nat (length all)))%Q).
  assert (Hlen : (0 < length g)%nat) by (destruct g; [congruence | simpl; lia]).
  destruct (@share_bounds (Z.of_nat (length g)) (Z.of_nat (length all))) as [Hx0 Hx100];
    [lia | lia |]. fold x in Hx0, Hx100.
  pose proof (ROUND_monotone 2 Hx0) as H0.
  pose proof (ROUND_monotone 2 Hx100) as H100.
  pose proof (ROUND_integer 0 2) as E0. pose proof (ROUND_integer 100 2) as E100.
  change (inject_Z 0) with 0%Q in E0. change (inject_Z 100) with 100%Q in E100.
  rewrite E0 in H0. rewrite E100 in H100.
  destruct (ROUND_near x 2) as [N1 N2].
  change (inject_Z (10 ^ Z.of_nat 2)) with 100%Q in N1, N2.
  assert (E : ((1 # 2) / 100 == 1 # 200)%Q) by reflexivity.
  rewrite E in N1, N2. clearbody x. repeat split; lra.
Qed.

(** The percentage columns of the channel and payment reports lie between
    0 and 100 and differ from the exact share of transactions,
    [count * 100 / number of transactions], by at most 0.005. *)
Theorem report_percentages_in_range (txs : list transaction) :
  (forall out r, ChannelPerformance.result txs out -> In r out ->
     (0 <= ChannelPerformance.percentage_of_total r)%Q /\
     (ChannelPerformance.percentage_of_total r <= 100)%Q /\
     (inject_Z (ChannelPerformance.total_transactions r) * 100
        / inject_Z (Z.of_nat (length txs)) - (1 # 200)
      <= ChannelPerformance.percentage_of_total r)%Q /\
     (ChannelPerformance.percentage_of_total r
      <= inject_Z (ChannelPerformance.total_transactions r) * 100
           / inject_Z (Z.of_nat (length txs)) + (1 # 200))%Q) /\
  (forall out r, PaymentAnalysis.result txs out -> In r out ->
     (0 <= PaymentAnalysis.usage_percentage r)%Q /\
     (PaymentAnalysis.usage_percentage r <= 100)%Q /\
     (inject_Z (PaymentAnalysis.transaction_count r) * 100
        / inject_Z (Z.of_nat (length txs)) - (1 # 200)
      <= PaymentAnalysis.usage_percentage r)%Q /\
     (PaymentAnalysis.usage_percentage r
      <= inject_Z (PaymentAnalysis.transaction_count r) * 100
           / inject_Z (Z.of_nat (length txs)) + (1 # 200))%Q).
Proof.
  split; intros out r Hres Hr; apply (ordered_by_In r Hres) in Hr.
  - apply (grouped_In _ _ _ _ _ option_channel_eqb_spec) in Hr.
    destruct Hr as (t & Ht & ->).
    cbn [ChannelPerformance.percentage_of_total ChannelPerformance.total_transactions
         ChannelPerformance.select snd].
    rewrite COUNT_transaction_ids. apply percentage_of_bounds.
    + exact (group_of_nonempty _ Transactions.sales_channel _ _ option_channel_eqb_spec Ht).
    + apply filter_length_le.
  - apply (grouped_In _ _ _ _ _ option_payment_eqb_spec) in Hr.
    destruct Hr as (t & Ht & ->).
    cbn [PaymentAnalysis.usage_percentage PaymentAnalysis.transaction_count
         PaymentAnalysis.select snd].
    rewrite COUNT_transaction_ids. apply percentage_of_bounds.
    + exact (group_of_nonempty _ Transactions.payment_method _ _ option_payment_eqb_spec Ht).
    + apply filter_length_le.
Qed.

Lemma report_percentages_in_range_witness :
  (exists r, In r (ChannelPerformance.run scenario_transactions) /\
     (0 <= ChannelPerformance.percentage_of_total r)%Q /\
     (ChannelPerformance.percentage_of_total r <= 100)%Q).
Proof.
  pose proof (ChannelPerformance_run_result scenario_transactions) as Hres.
  destruct (ChannelPerformance.run scenario_transactions) as [|r rest] eqn:Hrun;
    [vm_compute in Hrun; discriminate Hrun|].
  exists r. split; [now left|].
  destruct (proj1 (report_percentages_in_range scenario_transactions)
              (r :: rest) r Hres (or_introl eq_refl)) as (H0 & H100 & _).
  split; [exact H0 | exact H100].
Defined.

(** ** Joins on a unique key *)

Lemma filter_all (A : Type) (p : A -> bool) (l : list A) :
  (forall x, In x l -> p x = true) -> filter p l = l.
Proof.
  induction l as [|a l IH]; intros H; simpl; [reflexivity|].
  rewrite (H a (or_introl eq_refl)), IH; [reflexivity|].
  intros x Hx. apply H. now right.
Qed.

Lemma filter_none (A : Type) (p : A -> bool) (l : list A) :
  (forall x, In x l -> p x = false) -> filter p l = [].
Proof.
  induction l as [|a l IH]; intros H; simpl; [reflexivity|].
  rewrite (H a (or_introl eq_refl)). apply IH.
  intros x Hx. apply H. now right.
Qed.

Section FlatGroups.
Variables A X K : Type.
Variable eqb : K -> K -> bool.
Variable key : A -> K.
Variable f : A -> list (A * X).
Hypothesis eqb_spec : forall x y, reflect (x = y) (eqb x y).
Hypothesis f_fst : forall a r, In r (f a) -> fst r = a.

Lemma distinct_same_head (k : K) (l1 l2 : list K) :
  l1 <> [] -> (forall x, In x l1 -> x = k) -> ~ In k l2 ->
  distinct eqb (l1 ++ l2) = k :: distinct eqb l2.
Proof.
  assert (Hskip : filter (fun k' => negb (eqb k' k)) (distinct eqb l2) = distinct eqb l2
                  \/ In k l2).
  { destruct (in_dec (fun x y => reflect_dec _ _ (eqb_spec x y)) k l2) as [Hin|Hnin];
      [now right | left].
    apply filter_all. intros x Hx. rewrite (distinct_In eqb eqb_spec) in Hx.
    destruct (eqb_spec x k) as [->|_]; [contradiction | reflexivity]. }
  induction l1 as [|a l1 IH]; intros Hne Hall Hnin; [congruence|].
  assert (a = k) by (apply Hall; now left). subst a.
  destruct Hskip as [Hskip|Hin]; [|contradiction].
  change (distinct eqb ((k :: l1) ++ l2))
    with (k :: filter (fun k' => negb (eqb k' k)) (distinct eqb (l1 ++ l2))).
  f_equal. destruct l1 as [|b l1]; [exact Hskip|].
  rewrite IH; [|discriminate|intros x Hx; apply Hall; now right|exact Hnin].
  cbn [filter]. destruct (eqb_spec k k) as [_|Hne']; [|congruence]. exact Hskip.
Qed.

Lemma flat_keys_In (la : list A) (k : K) :
  In k (map (fun r => key (fst r)) (flat_map f la)) -> In k (map key la).
Proof.
  rewrite !in_map_iff. intros (r & <- & Hr). apply in_flat_map in Hr.
  destruct Hr as (a & Ha & Hr). exists a. split; [|exact Ha].
  now rewrite (f_fst _ _ Hr).
Qed.

Lemma flat_keys (la : list A) :
  NoDup (map key la) ->
  distinct eqb (map (fun r => key (fst r)) (flat_map f la))
  = flat_map (fun a => match f a with [] => [] | _ => [key a] end) la.
Proof.
  induction la as [|a la IH]; intros Hnd; [reflexivity|].
  inversion Hnd as [|? ? Hnotin Hnd']; subst.
  cbn [flat_map]. rewrite map_app.
  destruct (f a) as [|r rs] eqn:Hfa.
  - simpl. now apply IH.
  - rewrite (distinct_same_head (k := key a)).
    + simpl. f_equal. now apply IH.
    + discriminate.
    + intros x Hx. apply in_map_iff in Hx. destruct Hx as (r' & <- & Hr').
      f_equal. apply f_fst. now rewrite Hfa.
    + intros Hin. apply Hnotin. now apply flat_keys_In.
Qed.

Lemma flat_group_of (la : list A) (a : A) :
  NoDup (map key la) -> In a la ->
  group_of eqb (fun r => key (fst r)) (key a) (flat_map f la) = f a.
Proof.
  unfold group_of. induction la as [|a0 la IH]; intros Hnd Ha; [contradiction|].
  inversion Hnd as [|? ? Hnotin Hnd']; subst.
  cbn [flat_map]. rewrite filter_app.
  destruct Ha as [->|Ha].
  - rewrite filter_all, filter_none, app_nil_r; [reflexivity| |].
    + intros r Hr. destruct (eqb_spec (key (fst r)) (key a)) as [He|_]; [|reflexivity].
      exfalso. apply Hnotin. rewrite <- He.
      apply flat_keys_In. apply in_map_iff. now exists r.
    + intros r Hr. rewrite (f_fst _ _ Hr).
      destruct (eqb_spec (key a) (key a)); [reflexivity | congruence].
  - rewrite (IH Hnd' Ha). rewrite filter_none; [reflexivity|].
    intros r Hr. rewrite (f_fst _ _ Hr).
    destruct (eqb_spec (key a0) (key a)) as [He|_]; [|reflexivity].
    exfalso. apply Hnotin. rewrite He. now apply in_map.
Qed.

(** Grouping the rows of a join by a unique key of the left table gives
    the rows of each left row, in table order. *)
Lemma flat_groups (la : list A) :
  NoDup (map key la) ->
  group_by eqb (fun r => key (fst r)) (flat_map f la)
  = flat_map (fun a => match f a with [] => [] | rs => [(key a, rs)] end) la.
Proof.
  intros Hnd. unfold group_by. rewrite (@flat_keys la Hnd).
  assert (H : forall l, incl l la ->
            map (fun k => (k, group_of eqb (fun r => key (fst r)) k (flat_map f la)))
                (flat_map (fun a => match f a with [] => [] | _ => [key a] end) l)
            = flat_map (fun a => match f a with [] => [] | rs => [(key a, rs)] end) l).
  { induction l as [|a l IH]; intros Hincl; [reflexivity|].
    cbn [flat_map]. rewrite map_app, IH by (intros x Hx; apply Hincl; now right).
    f_equal.
    assert (Hg := @flat_group_of la a Hnd (Hincl a (or_introl eq_refl))).
    destruct (f a) as [|r rs]; [reflexivity|]. simpl. now rewrite Hg. }
  apply H. apply incl_refl.
Qed.
End FlatGroups.

(** ** The view [customer_metrics] and the queries over customers *)

Lemma left_rows_fst (A B : Type) (on : A -> B -> bool) (lb : list B) (a : A)
    (r : A * option B) :
  In r (left_rows on lb a) -> fst r = a.
Proof.
  unfold left_rows. destruct (filter (on a) lb) as [|b ms].
  - intros [<-|[]]. reflexivity.
  - intros Hin. apply in_map_iff in Hin. destruct Hin as (b' & <- & _). reflexivity.
Qed.

Lemma left_rows_nonempty (A B : Type) (on : A -> B -> bool) (lb : list B) (a : A) :
  left_rows on lb a <> [].
Proof. unfold left_rows. destruct (filter (on a) lb); discriminate. Qed.

Lemma flat_map_collapse (A B C : Type) (h : A -> list B) (F : B -> list C)
    (g : A -> C) (l : list A) :
  (forall a, flat_map F (h a) = [g a]) -> flat_map F (flat_map h l) = map g l.
Proof.
  intros H. induction l as [|a l IH]; [reflexivity|].
  simpl. now rewrite flat_map_app, H, IH.
Qed.

Lemma CustomerMetrics_view_rows (cs : list customer) (txs : list transaction) :
  NoDup (map Customers.customer_id cs) ->
  CustomerMetrics.view cs txs
  = map (fun c => CustomerMetrics.select c (left_rows on_customer txs c)) cs.
Proof.
  intros Hpk. unfold CustomerMetrics.view, CustomerMetrics.joined.
  change (left_join on_customer cs txs) with (flat_map (left_rows on_customer txs) cs).
  pose proof (flat_groups Z.eqb Customers.customer_id (left_rows on_customer txs)
                Z.eqb_spec (left_rows_fst on_customer txs) cs Hpk) as Hg.
  match goal with
  | |- flat_map _ (group_by ?e ?k ?J) = _ =>
      match type of Hg with
      | _ = ?R => replace (group_by e k J) with R by (symmetry; exact Hg)
      end
  end.
  clear Hpk Hg. apply flat_map_collapse. intros c.
  pose proof (left_rows_nonempty on_customer txs c) as Hne.
  pose proof (left_rows_fst on_customer txs c) as Hfst.
  destruct (left_rows on_customer txs c) as [|ct rs]; [congruence|].
  cbn [flat_map snd fst app]. rewrite (Hfst ct (or_introl eq_refl)). reflexivity.
Qed.

Lemma CustomerMetrics_select_aggregates (c : customer) (txs : list transaction) :
  let ts := filter (on_customer c) txs in
  let m := CustomerMetrics.select c (left_rows on_customer txs c) in
  CustomerMetrics.total_transactions m = Z.of_nat (length ts) /\
  CustomerMetrics.total_spent m = SUM (amounts ts) /\
  CustomerMetrics.avg_order_value m = AVG (amounts ts) /\
  (ts = [] -> CustomerMetrics.last_purchase_date m = None /\
              CustomerMetrics.first_purchase_date m = None).
Proof.
  cbv zeta. unfold left_rows.
  destruct (filter (on_customer c) txs) as [|t ts].
  - repeat split; reflexivity.
  - cbn [CustomerMetrics.select CustomerMetrics.total_transactions
         CustomerMetrics.total_spent CustomerMetrics.avg_order_value
         CustomerMetrics.last_purchase_date CustomerMetrics.first_purchase_date].
    unfold CustomerMetrics.t_amounts. rewrite !map_map. cbn [snd option_map].
    split; [|split; [|split]]; try reflexivity.
    + unfold COUNT. rewrite (non_null_Some Transactions.transaction_id). now rewrite length_map.
    + discriminate.
Qed.

Lemma Forall2_map_r (A B : Type) (P : A -> B -> Prop) (g : A -> B) (l : list A) :
  (forall a, In a l -> P a (g a)) -> Forall2 P l (map g l).
Proof.
  induction l as [|a l IH]; intros H; simpl; constructor.
  - apply H. now left.
  - apply IH. intros x Hx. apply H. now right.
Qed.

(** When customer ids are unique, [customer_metrics] has exactly one row per
    customer, in table order, aggregating the transactions that carry the
    customer's id; a customer without transactions has a count of 0 and
    NULL for the sum, the average and both dates. *)
Theorem customer_metrics_one_row_per_customer
    (cs : list customer) (txs : list transaction) :
  NoDup (map Customers.customer_id cs) ->
  Forall2
    (fun c m =>
       CustomerMetrics.customer_id m = Customers.customer_id c /\
       CustomerMetrics.customer_segment m = Customers.customer_segment c /\
       CustomerMetrics.state m = Customers.state c /\
       CustomerMetrics.total_transactions m
         = Z.of_nat (length (filter (on_customer c) txs)) /\
       CustomerMetrics.total_spent m = SUM (amounts (filter (on_customer c) txs)) /\
       CustomerMetrics.avg_order_value m = AVG (amounts (filter (on_customer c) txs)) /\
       (filter (on_customer c) txs = [] ->
          CustomerMetrics.total_transactions m = 0 /\
          CustomerMetrics.total_spent m = None /\
          CustomerMetrics.avg_order_value m = None /\
          CustomerMetrics.last_purchase_date m = None /\
          CustomerMetrics.first_purchase_date m = None))
    cs (CustomerMetrics.view cs txs).
Proof.
  intros Hpk. rewrite (@CustomerMetrics_view_rows cs txs Hpk).
  apply Forall2_map_r. intros c _.
  destruct (CustomerMetrics_select_aggregates c txs) as (Hn & Hs & Ha & Hd).
  split; [reflexivity|]. split; [reflexivity|]. split; [reflexivity|].
  split; [exact Hn|]. split; [exact Hs|]. split; [exact Ha|].
  intros He. destruct (Hd He) as [Hl Hf].
  rewrite Hn, Hs, Ha, He. repeat split; assumption.
Qed.

Lemma customer_metrics_one_row_per_customer_witness :
  NoDup (map Customers.customer_id scenario_customers) /\
  map CustomerMetrics.customer_id (CustomerMetrics.view scenario_customers [])
    = [1; 2; 3] /\
  length (CustomerMetrics.view scenario_customers scenario_transactions) = 3%nat.
Proof.
  assert (Hpk : NoDup (map Customers.customer_id scenario_customers)).
  { simpl. repeat constructor; simpl; intuition discriminate. }
  split; [exact Hpk|]. split; [vm_compute; reflexivity|].
  rewrite <- (Forall2_length
                (@customer_metrics_one_row_per_customer scenario_customers scenario_transactions Hpk)).
  reflexivity.
Defined.

Lemma filter_map_length (A B : Type) (p : B -> bool) (g : A -> B) (l : list A) :
  length (filter p (map g l)) = length (filter (fun a => p (g a)) l).
Proof.
  induction l as [|a l IH]; simpl; [reflexivity|].
  destruct (p (g a)); simpl; now rewrite IH.
Qed.

(** When customer ids are unique, the customer count of a segment row is
    the number of customers of that segment in the table, buyers or not,
    and the counts of all rows add up to the number of customers. *)
Theorem segment_counts_all_customers
    (cs : list customer) (txs : list transaction) (out : list CustomerSegmentation.row) :
  NoDup (map Customers.customer_id cs) ->
  CustomerSegmentation.result cs txs out ->
  (forall r, In r out ->
     CustomerSegmentation.customer_count r =
     Z.of_nat (length (filter (fun c => option_eqb segment_eqb
                                          (Customers.customer_segment c)
                                          (CustomerSegmentation.customer_segment r)) cs))) /\
  Zsum (map CustomerSegmentation.customer_count out) = Z.of_nat (length cs).
Proof.
  intros Hpk [Hperm Hsorted]. split.
  - intros r Hr. apply (Permutation_in _ (Permutation_sym Hperm)) in Hr.
    apply (grouped_In _ _ _ _ _ option_segment_eqb_spec) in Hr.
    destruct Hr as (m & Hm & ->).
    cbn [CustomerSegmentation.customer_count CustomerSegmentation.customer_segment
         CustomerSegmentation.select fst snd].
    unfold COUNT_star, group_of. rewrite (@CustomerMetrics_view_rows cs txs Hpk).
    now rewrite filter_map_length.
  - rewrite <- (Zsum_Permutation (Permutation_map _ Hperm)).
    unfold CustomerSegmentation.groups. rewrite map_map.
    cbn [CustomerSegmentation.customer_count CustomerSegmentation.select].
    pose proof (group_by_partition (option_eqb segment_eqb)
                  CustomerMetrics.customer_segment (fun _ => 1)
                  option_segment_eqb_spec (CustomerMetrics.view cs txs)) as Hp.
    rewrite Zsum_ones in Hp.
    assert (Hlen : length (CustomerMetrics.view cs txs) = length cs)
      by (rewrite (@CustomerMetrics_view_rows cs txs Hpk); apply length_map).
    rewrite Hlen in Hp. rewrite <- Hp. f_equal. apply map_ext. intros kg.
    unfold COUNT_star. now rewrite Zsum_ones.
Qed.

Lemma segment_counts_all_customers_witness :
  NoDup (map Customers.customer_id scenario_customers) /\
  CustomerSegmentation.result scenario_customers []
    (CustomerSegmentation.run scenario_customers []) /\
  Zsum (map CustomerSegmentation.customer_count
            (CustomerSegmentation.run scenario_customers [])) = 3.
Proof.
  assert (Hpk : NoDup (map Customers.customer_id scenario_customers)).
  { simpl. repeat constructor; simpl; intuition discriminate. }
  pose proof (CustomerSegmentation_run_result scenario_customers []) as Hres.
  split; [exact Hpk|]. split; [exact Hres|].
  exact (proj2 (@segment_counts_all_customers scenario_customers [] _ Hpk Hres)).
Defined.

Lemma NoDup_map_fst (A B C : Type) (g : A -> B * C) (l : list A) :
  NoDup (map (fun a => fst (g a)) l) -> NoDup (map g l).
Proof.
  intros H. apply (NoDup_map_inv fst). now rewrite map_map.
Qed.

Lemma inner_rows_fst (A B : Type) (on : A -> B -> bool) (lb : list B) (a : A)
    (r : A * B) :
  In r (map (pair a) (filter (on a) lb)) -> fst r = a.
Proof. intros Hin. apply in_map_iff in Hin. destruct Hin as (b & <- & _). reflexivity. Qed.

Lemma map_flat_map_pointwise (A B C : Type) (g : B -> C) (h : A -> list B)
    (h' : A -> list C) (l : list A) :
  (forall a, map g (h a) = h' a) -> map g (flat_map h l) = flat_map h' l.
Proof.
  intros H. induction l as [|a l IH]; [reflexivity|].
  simpl. now rewrite map_app, H, IH.
Qed.

Lemma TopCustomers_groups_rows (cs : list customer) (txs : list transaction) :
  NoDup (map Customers.customer_id cs) ->
  TopCustomers.groups cs txs
  = flat_map (fun c => match filter (on_customer c) txs with
                       | [] => []
                       | ts => [TopCustomers.select
                                  ((Customers.customer_id c,
                                    (Customers.first_name c,
                                     (Customers.last_name c,
                                      Customers.customer_segment c))),
                                   map (pair c) ts)]
                       end) cs.
Proof.
  intros Hpk. unfold TopCustomers.groups.
  change (inner_join on_customer cs txs)
    with (flat_map (fun c => map (pair c) (filter (on_customer c) txs)) cs).
  pose proof (flat_groups TopCustomers.key_eqb
                (fun c => (Customers.customer_id c,
                           (Customers.first_name c,
                            (Customers.last_name c, Customers.customer_segment c))))
                (fun c => map (pair c) (filter (on_customer c) txs))
                TopCustomers_key_eqb_spec (inner_rows_fst on_customer txs) cs
                (@NoDup_map_fst customer Z (string * (string * option segment))
                   (fun c => (Customers.customer_id c,
                              (Customers.first_name c,
                               (Customers.last_name c, Customers.customer_segment c))))
                   cs Hpk)) as Hg.
  match goal with
  | |- map _ (group_by ?e ?k ?J) = _ =>
      match type of Hg with
      | _ = ?R => replace (group_by e k J) with R by (symmetry; exact Hg)
      end
  end.
  clear Hpk Hg. apply map_flat_map_pointwise. intros c.
  destruct (filter (on_customer c) txs) as [|t ts]; reflexivity.
Qed.

Lemma flat_map_filter_map (A B C : Type) (h : A -> list C) (g : A -> B)
    (p : B -> bool) (g' : B -> C) (l : list A) :
  (forall a, h a = if p (g a) then [g' (g a)] else []) ->
  flat_map h l = map g' (filter p (map g l)).
Proof.
  intros H. induction l as [|a l IH]; [reflexivity|].
  simpl. rewrite H, IH. now destruct (p (g a)).
Qed.

Lemma map_snd_pair (A B : Type) (a : A) (l : list B) : map snd (map (pair a) l) = l.
Proof. rewrite map_map. simpl. apply map_id. Qed.

(** When customer ids are unique, query 1 lists, before sorting and
    [LIMIT], exactly the rows of [customer_metrics] with at least one
    transaction, with the same total, order count and average; so every
    row of a top-customers result is such a row of the view. *)
Theorem top_customers_are_metrics_of_buyers
    (cs : list customer) (txs : list transaction) :
  NoDup (map Customers.customer_id cs) ->
  TopCustomers.groups cs txs
    = map metrics_to_top
          (filter (fun m => 0 <? CustomerMetrics.total_transactions m)
                  (CustomerMetrics.view cs txs)) /\
  (forall n out r, TopCustomers.result_limit n cs txs out -> In r out ->
     exists m, In m (CustomerMetrics.view cs txs) /\
               0 < CustomerMetrics.total_transactions m /\
               r = metrics_to_top m).
Proof.
  intros Hpk.
  assert (Heq : TopCustomers.groups cs txs
    = map metrics_to_top
          (filter (fun m => 0 <? CustomerMetrics.total_transactions m)
                  (CustomerMetrics.view cs txs))).
  { rewrite (@TopCustomers_groups_rows cs txs Hpk), (@CustomerMetrics_view_rows cs txs Hpk).
    clear Hpk. apply flat_map_filter_map. intros c.
    destruct (CustomerMetrics_select_aggregates c txs) as (Hn & Hs & Ha & _).
    cbv zeta in Hn, Hs, Ha. rewrite Hn.
    destruct (filter (on_customer c) txs) as [|t ts] eqn:Hts.
    - reflexivity.
    - replace (0 <? Z.of_nat (length (t :: ts))) with true
        by (symmetry; apply Z.ltb_lt; simpl length; lia).
      f_equal.
      unfold metrics_to_top, TopCustomers.select. cbn [fst snd].
      rewrite Hs, Ha, Hn, map_snd_pair, COUNT_transaction_ids. reflexivity. }
  split; [exact Heq|].
  intros n out r (sorted & [Hperm _] & ->) Hr.
  apply LIMIT_In in Hr. apply (Permutation_in _ (Permutation_sym Hperm)) in Hr.
  rewrite Heq in Hr. apply in_map_iff in Hr. destruct Hr as (m & <- & Hm).
  apply filter_In in Hm. destruct Hm as [Hm Hpos]. apply Z.ltb_lt in Hpos.
  exists m. auto.
Qed.

Lemma top_customers_are_metrics_of_buyers_witness :
  NoDup (map Customers.customer_id scenario_customers) /\
  TopCustomers.groups scenario_customers scenario_transactions
    = map metrics_to_top
          (filter (fun m => 0 <? CustomerMetrics.total_transactions m)
                  (CustomerMetrics.view scenario_customers scenario_transactions)).
Proof.
  assert (Hpk : NoDup (map Customers.customer_id scenario_customers)).
  { simpl. repeat constructor; simpl; intuition discriminate. }
  split; [exact Hpk|].
  exact (proj1 (@top_customers_are_metrics_of_buyers
                  scenario_customers scenario_transactions Hpk)).
Defined.

(** ** The order in which queries 1 and 7 read their first table *)

Lemma TopCustomers_groups_read (cs : list customer) (txs : list transaction) :
  NoDup (map Customers.customer_id cs) ->
  Permutation (TopCustomers.groups cs txs)
              (TopCustomers.groups (TopCustomers.idx_customers_segment cs) txs).
Proof.
  intros Hpk.
  assert (Hperm : Permutation cs (TopCustomers.idx_customers_segment cs))
    by apply sort_rows_perm.
  assert (Hpk' : NoDup (map Customers.customer_id (TopCustomers.idx_customers_segment cs))).
  { apply (Permutation_NoDup (Permutation_map Customers.customer_id Hperm) Hpk). }
  rewrite (@TopCustomers_groups_rows cs txs Hpk).
  rewrite (@TopCustomers_groups_rows _ txs Hpk').
  now apply Permutation_flat_map.
Qed.

Lemma TopCustomers_run_result (n : nat) (cs : list customer) (txs : list transaction) :
  NoDup (map Customers.customer_id cs) ->
  TopCustomers.result_limit n cs txs (TopCustomers.run_limit n cs txs).
Proof.
  intros Hpk.
  exists (sort_rows TopCustomers.before
            (TopCustomers.groups (TopCustomers.idx_customers_segment cs) txs)).
  split; [|reflexivity].
  destruct (desc_ordered TopCustomers.total_spent
              (TopCustomers.groups (TopCustomers.idx_customers_segment cs) txs))
    as [Hp Hs].
  split; [|exact Hs].
  transitivity (TopCustomers.groups (TopCustomers.idx_customers_segment cs) txs);
    [now apply TopCustomers_groups_read | exact Hp].
Qed.

(** The places of the enumerated values are those of their texts. *)
Lemma places_in_text_order :
  (forall x y, (segment_place x <=? segment_place y)
               = null_text_leb (option_map segment_text x) (option_map segment_text y)) /\
  (forall x y, (channel_place x <=? channel_place y)
               = null_text_leb (option_map channel_text x) (option_map channel_text y)) /\
  (forall x y, (payment_place x <=? payment_place y)
               = null_text_leb (option_map payment_text x) (option_map payment_text y)).
Proof.
  split; [|split].
  - intros [[| |]|] [[| |]|]; reflexivity.
  - intros [[| |]|] [[| |]|]; reflexivity.
  - intros [[| | |]|] [[| | |]|]; reflexivity.
Qed.

(** ** Ties: what [ORDER BY] leaves open and what the sorter does *)












(** ** The rows of queries 1 and 7 and the order in which they are read *)






















(** ** What [LIMIT] keeps *)

Lemma StronglySorted_app_inv (A : Type) (R : A -> A -> Prop) (l1 l2 : list A) :
  StronglySorted R (l1 ++ l2) ->
  forall a b, In a l1 -> In b l2 -> R a b.
Proof.
  induction l1 as [|x l1 IH]; intros Hs a b Ha Hb; [contradiction|].
  simpl in Hs. inversion Hs as [|? ? Hs' Hall]; subst.
  destruct Ha as [->|Ha].
  - rewrite Forall_forall in Hall. apply Hall. apply in_or_app. now right.
  - now apply IH.
Qed.

Lemma limit_keeps_the_first (A : Type) (before : A -> A -> bool) (n : nat)
    (rows sorted : list A) :
  ordered_by before rows sorted ->
  length (LIMIT n sorted) = Nat.min n (length rows) /\
  Permutation rows (LIMIT n sorted ++ skipn n sorted) /\
  (forall r r', In r (LIMIT n sorted) -> In r' (skipn n sorted) -> before r r' = true).
Proof.
  intros [Hperm Hsorted]. unfold LIMIT. split; [|split].
  - rewrite length_firstn. now rewrite (Permutation_length Hperm).
  - now rewrite firstn_skipn.
  - apply (StronglySorted_app_inv (R := fun a b => before a b = true)).
    now rewrite firstn_skipn.
Qed.

(** A top-customers or top-products result with [LIMIT n] has
    [min n (number of entities with a transaction)] rows, and every
    entity it leaves out has a total revenue no greater than that of every
    entity it lists. *)
Theorem top_entities_leave_out_the_least
    (n : nat) (cs : list customer) (ps : list product) (txs : list transaction) :
  (forall out, TopCustomers.result_limit n cs txs out ->
     length out = Nat.min n (length (TopCustomers.groups cs txs)) /\
     exists rest,
       Permutation (TopCustomers.groups cs txs) (out ++ rest) /\
       forall r r', In r out -> In r' rest ->
         value_leb (TopCustomers.total_spent r') (TopCustomers.total_spent r) = true) /\
  (forall out, TopProducts.result_limit n ps txs out ->
     length out = Nat.min n (length (TopProducts.groups ps txs)) /\
     exists rest,
       Permutation (TopProducts.groups ps txs) (out ++ rest) /\
       forall r r', In r out -> In r' rest ->
         value_leb (TopProducts.total_revenue r') (TopProducts.total_revenue r) = true).
Proof.
  split; intros out (sorted & Hord & ->);
    destruct (limit_keeps_the_first n Hord) as (Hlen & Hperm & Hbest);
    (split; [exact Hlen|]); exists (skipn n sorted); split; auto.
Qed.

Lemma top_entities_leave_out_the_least_witness :
  TopCustomers.result_limit 1 scenario_customers scenario_transactions
    (TopCustomers.run_limit 1 scenario_customers scenario_transactions) /\
  length (TopCustomers.run_limit 1 scenario_customers scenario_transactions)
    = Nat.min 1 (length (TopCustomers.groups scenario_customers scenario_transactions)) /\
  map TopCustomers.customer_id
      (TopCustomers.run_limit 1 scenario_customers scenario_transactions) = [1].
Proof.
  assert (Hpk : NoDup (map Customers.customer_id scenario_customers)).
  { simpl. repeat constructor; simpl; intuition discriminate. }
  pose proof (@TopCustomers_run_result 1 scenario_customers scenario_transactions Hpk)
    as Hres.
  split; [exact Hres|]. split; [|vm_compute; reflexivity].
  exact (proj1 (proj1 (top_entities_leave_out_the_least 1 scenario_customers
                         scenario_products scenario_transactions) _ Hres)).
Defined.

(** ** Geographic distribution *)

Lemma filter_orb_length (A : Type) (p q : A -> bool) (l : list A) :
  (forall a, In a l -> p a = true -> q a = false) ->
  length (filter (fun a => p a || q a) l)
  = (length (filter p l) + length (filter q l))%nat.
Proof.
  induction l as [|a l IH]; intros H; [reflexivity|].
  assert (IH' := IH (fun x Hx => H x (or_intror Hx))).
  cbn [filter].
  destruct (p a) eqn:Hp.
  - rewrite (H a (or_introl eq_refl) Hp). cbn [orb length]. rewrite IH'. lia.
  - destruct (q a); cbn [orb length]; rewrite IH'; lia.
Qed.

Lemma inner_join_length (cs : list customer) (txs : list transaction) :
  NoDup (map Customers.customer_id cs) ->
  length (inner_join on_customer cs txs) = length (filter (has_customer cs) txs).
Proof.
  unfold inner_join, has_customer.
  induction cs as [|c cs IH]; intros Hpk.
  - simpl. now rewrite filter_none.
  - inversion Hpk as [|? ? Hnotin Hpk']; subst.
    cbn [flat_map existsb]. rewrite length_app, length_map, (IH Hpk').
    symmetry. apply filter_orb_length.
    intros t _ Hon. apply not_true_is_false. intros Hex.
    apply existsb_exists in Hex. destruct Hex as (c' & Hc' & Hon').
    unfold on_customer in Hon, Hon'. apply Z.eqb_eq in Hon, Hon'.
    apply Hnotin. rewrite Hon, <- Hon'. now apply in_map.
Qed.

(** When customer ids are unique, the transaction counts of the
    geographic report add up to the number of transactions whose customer
    exists: each of them is counted in one state, the others in none. *)
Theorem geographic_counts_joined_transactions
    (cs : list customer) (txs : list transaction) (out : list GeographicDistribution.row) :
  NoDup (map Customers.customer_id cs) ->
  GeographicDistribution.result cs txs out ->
  Zsum (map GeographicDistribution.total_transactions out)
  = Z.of_nat (length (filter (has_customer cs) txs)).
Proof.
  intros Hpk [Hperm _].
  rewrite <- (Zsum_Permutation (Permutation_map _ Hperm)).
  unfold GeographicDistribution.groups. rewrite map_map.
  cbn [GeographicDistribution.total_transactions GeographicDistribution.select].
  rewrite <- (@inner_join_length cs txs Hpk).
  pose proof (group_by_partition (option_eqb String.eqb) GeographicDistribution.group_key
                (fun _ => 1) option_string_eqb_spec (inner_join on_customer cs txs)) as Hp.
  rewrite Zsum_ones in Hp. rewrite <- Hp. f_equal. apply map_ext. intros kg.
  now rewrite COUNT_transaction_ids, length_map, Zsum_ones.
Qed.

Lemma geographic_counts_joined_transactions_witness :
  NoDup (map Customers.customer_id scenario_customers) /\
  GeographicDistribution.result scenario_customers
    (dangling_customer_transaction :: scenario_transactions)
    (GeographicDistribution.run scenario_customers
       (dangling_customer_transaction :: scenario_transactions)) /\
  Zsum (map GeographicDistribution.total_transactions
            (GeographicDistribution.run scenario_customers
               (dangling_customer_transaction :: scenario_transactions))) = 4.
Proof.
  assert (Hpk : NoDup (map Customers.customer_id scenario_customers)).
  { simpl. repeat constructor; simpl; intuition discriminate. }
  pose proof (GeographicDistribution_run_result scenario_customers
                (dangling_customer_transaction :: scenario_transactions)) as Hres.
  split; [exact Hpk|]. split; [exact Hres|].
  rewrite (@geographic_counts_joined_transactions _ _ _ Hpk Hres). reflexivity.
Defined.

(** ** Customer retention and the product view *)

Section DistinctMap.
Variables A B : Type.
Variable eqa : A -> A -> bool.
Variable eqb : B -> B -> bool.
Variable f : A -> B.
Hypothesis eqa_spec : forall x y, reflect (x = y) (eqa x y).
Hypothesis eqb_spec : forall x y, reflect (x = y) (eqb x y).

Lemma filter_comm (X : Type) (p q : X -> bool) (l : list X) :
  filter p (filter q l) = filter q (filter p l).
Proof.
  induction l as [|x l IH]; [reflexivity|]. cbn [filter].
  destruct (p x) eqn:Hp, (q x) eqn:Hq; cbn [filter]; rewrite ?Hp, ?Hq, IH; reflexivity.
Qed.

Lemma filter_idem (X : Type) (p : X -> bool) (l : list X) :
  filter p (filter p l) = filter p l.
Proof.
  induction l as [|x l IH]; [reflexivity|]. cbn [filter].
  destruct (p x) eqn:Hp; cbn [filter]; rewrite ?Hp, IH; reflexivity.
Qed.

Lemma distinct_map_filter (b : B) (p : A -> bool) (D : list A) :
  (forall x, In x D -> p x = false -> f x = b) ->
  filter (fun y => negb (eqb y b)) (distinct eqb (map f (filter p D)))
  = filter (fun y => negb (eqb y b)) (distinct eqb (map f D)).
Proof.
  induction D as [|x D IH]; intros H; [reflexivity|].
  assert (IH' := IH (fun y Hy => H y (or_intror Hy))).
  cbn [filter map]. destruct (p x) eqn:Hp.
  - cbn [map distinct filter].
    rewrite (@filter_comm _ (fun y => negb (eqb y b)) (fun k' => negb (eqb k' (f x)))), IH'.
    now rewrite (@filter_comm _ (fun y => negb (eqb y b)) (fun k' => negb (eqb k' (f x)))).
  - rewrite IH'. cbn [distinct filter].
    rewrite (H x (or_introl eq_refl) Hp).
    destruct (eqb_spec b b) as [_|Hne]; [|congruence]. cbn [negb].
    now rewrite filter_idem.
Qed.

Lemma distinct_map_distinct (l : list A) :
  distinct eqb (map f (distinct eqa l)) = distinct eqb (map f l).
Proof.
  induction l as [|a l IH]; [reflexivity|].
  cbn [distinct map]. f_equal. rewrite <- IH.
  apply (@distinct_map_filter (f a) (fun k' => negb (eqa k' a)) (distinct eqa l)).
  intros x _ Hx.
  destruct (eqa_spec x a) as [E|_]; [now rewrite E | discriminate Hx].
Qed.
End DistinctMap.

Lemma distinct_of_NoDup (K : Type) (eqb : K -> K -> bool)
    (eqb_spec : forall x y, reflect (x = y) (eqb x y)) (l : list K) :
  NoDup l -> distinct eqb l = l.
Proof.
  induction 1 as [|k l Hnotin Hnd IH]; [reflexivity|].
  cbn [distinct]. rewrite IH. f_equal. apply filter_all.
  intros x Hx. destruct (eqb_spec x k) as [->|_]; [contradiction | reflexivity].
Qed.

Lemma CustomerActivity_customers (txs : list transaction) :
  map CustomerActivity.customer_id (CustomerActivity.rows txs)
  = distinct Z.eqb (map Transactions.customer_id txs).
Proof.
  unfold CustomerActivity.rows. rewrite map_map.
  cbn [CustomerActivity.customer_id CustomerActivity.select].
  rewrite (group_by_keys Z.eqb CustomerPurchaseMonths.customer_id).
  unfold CustomerPurchaseMonths.rows. rewrite map_map.
  cbn [CustomerPurchaseMonths.customer_id CustomerPurchaseMonths.select].
  rewrite <- (map_map fst fst), (group_by_keys (pair_eqb Z.eqb String.eqb)).
  rewrite (@distinct_map_distinct _ _ (pair_eqb Z.eqb String.eqb) Z.eqb fst
             (@pair_eqb_spec _ _ Z.eqb String.eqb Z_eqb_spec String.eqb_spec) Z_eqb_spec).
  now rewrite map_map.
Qed.

Section DistinctPairs.
Variables A K1 K2 : Type.
Variable eq1 : K1 -> K1 -> bool.
Variable eq2 : K2 -> K2 -> bool.
Variable f : A -> K1.
Variable g : A -> K2.
Hypothesis eq1_spec : forall x y, reflect (x = y) (eq1 x y).
Hypothesis eq2_spec : forall x y, reflect (x = y) (eq2 x y).

Lemma filter_pair_other (c : K1) (k : K1 * K2) (D : list (K1 * K2)) :
  fst k <> c ->
  filter (fun x => eq1 (fst x) c) (filter (fun x => negb (pair_eqb eq1 eq2 x k)) D)
  = filter (fun x => eq1 (fst x) c) D.
Proof.
  intros Hk. induction D as [|x D IH]; [reflexivity|]. cbn [filter].
  destruct (@pair_eqb_spec _ _ eq1 eq2 eq1_spec eq2_spec x k) as [E|_]; cbn [negb filter].
  - destruct (eq1_spec (fst x) c) as [E'|_]; [|exact IH].
    exfalso. apply Hk. now rewrite <- E.
  - now rewrite IH.
Qed.

Lemma filter_pair_same (c : K1) (m : K2) (D : list (K1 * K2)) :
  map snd (filter (fun x => eq1 (fst x) c)
                  (filter (fun x => negb (pair_eqb eq1 eq2 x (c, m))) D))
  = filter (fun y => negb (eq2 y m)) (map snd (filter (fun x => eq1 (fst x) c) D)).
Proof.
  induction D as [|[x1 x2] D IH]; [reflexivity|]. cbn [filter fst].
  destruct (@pair_eqb_spec _ _ eq1 eq2 eq1_spec eq2_spec (x1, x2) (c, m)) as [E|Hne]; cbn [negb filter fst].
  - injection E as -> ->.
    destruct (eq1_spec c c) as [_|H]; [|congruence]. cbn [map snd filter].
    destruct (eq2_spec m m) as [_|H]; [|congruence]. exact IH.
  - destruct (eq1_spec x1 c) as [->|_]; [|exact IH]. cbn [map snd filter].
    destruct (eq2_spec x2 m) as [->|_]; [congruence|]. cbn [negb]. now rewrite IH.
Qed.

(** The second components of the distinct pairs with a given first
    component are the distinct second components of the rows with it. *)
Lemma distinct_pairs_of (c : K1) (l : list A) :
  map snd (filter (fun x => eq1 (fst x) c)
                  (distinct (pair_eqb eq1 eq2) (map (fun a => (f a, g a)) l)))
  = distinct eq2 (map g (filter (fun a => eq1 (f a) c) l)).
Proof.
  induction l as [|a l IH]; [reflexivity|].
  cbn [map distinct filter fst].
  destruct (eq1_spec (f a) c) as [E|Hne].
  - cbn [map snd distinct]. f_equal. rewrite <- IH, E. apply filter_pair_same.
  - rewrite filter_pair_other by exact Hne. exact IH.
Qed.
End DistinctPairs.

Lemma text_leb_refl (s : string) : text_leb s s = true.
Proof. apply text_leb_iff. now right. Qed.

Lemma MIN_text_spec (l : list string) :
  l <> [] ->
  exists m, MIN_text (map Some l) = Some m /\ In m l /\
            forall x, In x l -> text_leb m x = true.
Proof.
  induction l as [|s rest IH]; intros Hne; [congruence|].
  destruct rest as [|s' rest'].
  - exists s. simpl. repeat split; auto. intros x [<-|[]]. apply text_leb_refl.
  - destruct IH as (m & Hm & Hin & Hle); [discriminate|].
    cbn [map MIN_text] in *. rewrite Hm.
    destruct (text_leb s m) eqn:Hsm.
    + exists s. split; [reflexivity|]. split; [now left|].
      intros x [<-|Hx]; [apply text_leb_refl|].
      apply text_leb_trans with m; auto.
    + exists m. split; [reflexivity|]. split; [now right|].
      intros x [<-|Hx]; [|now apply Hle].
      destruct (text_leb_total s m) as [H|H]; [congruence | exact H].
Qed.

Lemma MAX_text_spec (l : list string) :
  l <> [] ->
  exists m, MAX_text (map Some l) = Some m /\ In m l /\
            forall x, In x l -> text_leb x m = true.
Proof.
  induction l as [|s rest IH]; intros Hne; [congruence|].
  destruct rest as [|s' rest'].
  - exists s. simpl. repeat split; auto. intros x [<-|[]]. apply text_leb_refl.
  - destruct IH as (m & Hm & Hin & Hle); [discriminate|].
    cbn [map MAX_text] in *. rewrite Hm.
    destruct (text_leb m s) eqn:Hsm.
    + exists s. split; [reflexivity|]. split; [now left|].
      intros x [<-|Hx]; [apply text_leb_refl|].
      apply text_leb_trans with m; auto.
    + exists m. split; [reflexivity|]. split; [now right|].
      intros x [<-|Hx]; [|now apply Hle].
      destruct (text_leb_total s m) as [H|H]; [exact H | congruence].
Qed.

Lemma purchase_months_of (c : Z) (txs : list transaction) :
  map CustomerPurchaseMonths.purchase_month
      (group_of Z.eqb CustomerPurchaseMonths.customer_id c (CustomerPurchaseMonths.rows txs))
  = distinct String.eqb
      (map (fun t => strftime_Ym (Transactions.transaction_date t))
           (filter (fun t => Transactions.customer_id t =? c) txs)).
Proof.
  unfold group_of, CustomerPurchaseMonths.rows, group_by.
  rewrite map_map, filter_map_swap, map_map.
  cbn [CustomerPurchaseMonths.customer_id CustomerPurchaseMonths.purchase_month
       CustomerPurchaseMonths.select fst snd].
  rewrite <- (@distinct_pairs_of _ _ _ Z.eqb String.eqb Transactions.customer_id
                (fun t => strftime_Ym (Transactions.transaction_date t))
                Z_eqb_spec String.eqb_spec c txs).
  reflexivity.
Qed.

(** The [customer_activity] expression of the retention query has exactly
    one row per customer id of the transactions table.  A row's
    [active_months] is the number of distinct calendar months of that
    customer's transactions and is at least 1; its first and last purchase
    months are months of that customer's transactions, the first no later
    and the last no earlier than any of them. *)
Theorem customer_activity_per_customer (txs : list transaction) :
  NoDup (map CustomerActivity.customer_id (CustomerActivity.rows txs)) /\
  (forall c, In c (map CustomerActivity.customer_id (CustomerActivity.rows txs)) <->
             In c (map Transactions.customer_id txs)) /\
  forall r, In r (CustomerActivity.rows txs) ->
    let ms := map (fun t => strftime_Ym (Transactions.transaction_date t))
                  (filter (fun t => Transactions.customer_id t
                                    =? CustomerActivity.customer_id r) txs) in
    CustomerActivity.active_months r = Z.of_nat (length (distinct String.eqb ms)) /\
    1 <= CustomerActivity.active_months r /\
    exists first last,
      CustomerActivity.first_purchase_month r = Some first /\
      CustomerActivity.last_purchase_month r = Some last /\
      In first ms /\ In last ms /\
      forall m, In m ms -> text_leb first m = true /\ text_leb m last = true.
Proof.
  split; [rewrite CustomerActivity_customers; exact (distinct_NoDup Z.eqb Z_eqb_spec _)|].
  split; [intros c; rewrite CustomerActivity_customers;
          exact (distinct_In Z.eqb Z_eqb_spec _ c)|].
  intros r Hr ms. unfold CustomerActivity.rows in Hr.
  apply in_map_iff in Hr. destruct Hr as ([c G] & <- & HG).
  pose proof (@group_by_nonempty _ _ Z.eqb CustomerPurchaseMonths.customer_id Z_eqb_spec _ _ _ HG) as Hne.
  rewrite (@group_by_In _ _ Z.eqb CustomerPurchaseMonths.customer_id Z_eqb_spec) in HG.
  destruct HG as [_ HG].
  pose proof (purchase_months_of c txs) as Hpm. rewrite <- HG in Hpm.
  cbn [CustomerActivity.customer_id CustomerActivity.select fst] in ms.
  fold ms in Hpm.
  cbn [CustomerActivity.active_months CustomerActivity.first_purchase_month
       CustomerActivity.last_purchase_month CustomerActivity.select fst snd].
  unfold CustomerActivity.months.
  rewrite non_null_Some, <- (map_map CustomerPurchaseMonths.purchase_month Some), Hpm.
  rewrite (@distinct_of_NoDup _ String.eqb String.eqb_spec _
             (@distinct_NoDup _ String.eqb String.eqb_spec ms)).
  assert (Hd : distinct String.eqb ms <> []).
  { rewrite <- Hpm. destruct G; [congruence | discriminate]. }
  split; [reflexivity|]. split.
  { destruct (distinct String.eqb ms); [congruence | simpl length; lia]. }
  destruct (@MIN_text_spec _ Hd) as (first & Hf & Hfin & Hfle).
  destruct (@MAX_text_spec _ Hd) as (last & Hl & Hlin & Hlle).
  exists first, last. rewrite (distinct_In String.eqb String.eqb_spec) in Hfin, Hlin.
  repeat split; auto.
  - apply Hfle. now rewrite (distinct_In String.eqb String.eqb_spec).
  - apply Hlle. now rewrite (distinct_In String.eqb String.eqb_spec).
Qed.

Lemma Retention_run_result (txs : list transaction) :
  Retention.result txs (Retention.run txs).
Proof.
  apply sort_rows_ordered; unfold Retention.before.
  - intros a b. rewrite !Z.leb_le. lia.
  - intros a b c. rewrite !Z.leb_le. lia.
Qed.

Lemma ROUND_share_bounds (c t : Z) :
  0 <= c <= t -> 0 < t ->
  (0 <= ROUND (inject_Z c * 100 / inject_Z t) 2)%Q /\
  (ROUND (inject_Z c * 100 / inject_Z t) 2 <= 100)%Q.
Proof.
  intros Hc Ht. destruct (share_bounds Hc Ht) as [Hx0 Hx100].
  pose proof (ROUND_monotone 2 Hx0) as H0.
  pose proof (ROUND_monotone 2 Hx100) as H100.
  pose proof (ROUND_integer 0 2) as E0. pose proof (ROUND_integer 100 2) as E100.
  change (inject_Z 0) with 0%Q in E0. change (inject_Z 100) with 100%Q in E100.
  rewrite E0 in H0. rewrite E100 in H100. now split.
Qed.

Lemma CustomerActivity_count (txs : list transaction) :
  Z.of_nat (length (CustomerActivity.rows txs)) = COUNT_DISTINCT (customer_ids txs).
Proof.
  rewrite <- (length_map CustomerActivity.customer_id), CustomerActivity_customers.
  unfold COUNT_DISTINCT, customer_ids. now rewrite non_null_Some.
Qed.

Lemma CustomerActivity_active (txs : list transaction) (a : CustomerActivity.row) :
  In a (CustomerActivity.rows txs) -> 1 <= CustomerActivity.active_months a.
Proof.
  intros Ha. unfold CustomerActivity.rows in Ha.
  apply in_map_iff in Ha. destruct Ha as ([c G] & <- & HG).
  pose proof (@group_by_nonempty _ _ Z.eqb CustomerPurchaseMonths.customer_id
                Z_eqb_spec _ _ _ HG) as Hne.
  cbn [CustomerActivity.active_months CustomerActivity.select snd].
  unfold CustomerActivity.months. rewrite non_null_Some.
  destruct G as [|g G]; [congruence|]. cbn [map distinct length]. lia.
Qed.

(** The retention query has a single possible result, since it is ordered
    by its grouping column.  Its customer counts add up to the number of
    distinct customers of the transactions table; each row counts the
    customers with that many active months, of which there is at least
    one, and its percentage lies between 0 and 100. *)
Theorem retention_rows (txs : list transaction) (out : list Retention.row) :
  Retention.result txs out ->
  out = Retention.run txs /\
  Zsum (map Retention.customer_count out) = COUNT_DISTINCT (customer_ids txs) /\
  forall r, In r out ->
    1 <= Retention.active_months r /\
    1 <= Retention.customer_count r /\
    Retention.customer_count r
    = Z.of_nat (length (filter (fun a => CustomerActivity.active_months a
                                         =? Retention.active_months r)
                               (CustomerActivity.rows txs))) /\
    (0 <= Retention.percentage r)%Q /\ (Retention.percentage r <= 100)%Q.
Proof.
  intros Hres. split; [|split].
  - apply (ordered_by_unique Retention.active_months (rows := Retention.groups txs)
             (before := Retention.before)).
    + intros a b. unfold Retention.before. rewrite !Z.leb_le. lia.
    + unfold Retention.groups. apply grouped_NoDup; [exact Z_eqb_spec | reflexivity].
    + exact Hres.
    + apply Retention_run_result.
  - destruct Hres as [Hperm _].
    rewrite <- (Zsum_Permutation (Permutation_map _ Hperm)).
    unfold Retention.groups. rewrite map_map.
    cbn [Retention.customer_count Retention.select]. unfold COUNT_star.
    rewrite <- CustomerActivity_count.
    pose proof (group_by_partition Z.eqb CustomerActivity.active_months
                  (fun _ => 1) Z_eqb_spec (CustomerActivity.rows txs)) as Hp.
    rewrite Zsum_ones in Hp. rewrite <- Hp. f_equal. apply map_ext. intros kg.
    now rewrite Zsum_ones.
  - intros r Hr. apply (ordered_by_In r Hres) in Hr.
    unfold Retention.groups in Hr.
    apply (@grouped_In _ _ _ Z.eqb CustomerActivity.active_months (Retention.select txs)
             (CustomerActivity.rows txs) r Z_eqb_spec) in Hr.
    destruct Hr as (a & Ha & ->).
    cbn [Retention.active_months Retention.customer_count Retention.percentage
         Retention.select fst snd].
    unfold COUNT_star, group_of.
    set (g := filter _ (CustomerActivity.rows txs)).
    assert (Hg : In a g).
    { apply filter_In. split; [exact Ha | apply Z.eqb_refl]. }
    assert (Hlen : (1 <= length g <= length (CustomerActivity.rows txs))%nat).
    { split; [destruct g; [contradiction | simpl; lia] | apply filter_length_le]. }
    split; [now apply CustomerActivity_active with txs|].
    split; [lia|]. split; [reflexivity|].
    rewrite <- CustomerActivity_count.
    apply ROUND_share_bounds; lia.
Qed.

Lemma retention_rows_witness :
  Retention.result scenario_transactions (Retention.run scenario_transactions) /\
  map Retention.active_months (Retention.run scenario_transactions) = [1; 2] /\
  Zsum (map Retention.customer_count (Retention.run scenario_transactions)) = 3.
Proof.
  pose proof (Retention_run_result scenario_transactions) as Hres.
  split; [exact Hres|]. split; [vm_compute; reflexivity|].
  rewrite (proj1 (proj2 (retention_rows Hres))). vm_compute. reflexivity.
Defined.

Lemma customer_activity_per_customer_witness :
  In {| CustomerActivity.customer_id := 1;
        CustomerActivity.active_months := 2;
        CustomerActivity.first_purchase_month := Some "2023-05"%string;
        CustomerActivity.last_purchase_month := Some "2023-06"%string |}
     (CustomerActivity.rows scenario_transactions) /\
  1 <= CustomerActivity.active_months
         {| CustomerActivity.customer_id := 1;
            CustomerActivity.active_months := 2;
            CustomerActivity.first_purchase_month := Some "2023-05"%string;
            CustomerActivity.last_purchase_month := Some "2023-06"%string |} /\
  NoDup (map CustomerActivity.customer_id (CustomerActivity.rows scenario_transactions)).
Proof.
  pose proof (customer_activity_per_customer scenario_transactions) as (Hnd & _ & Hrow).
  assert (Hr : In {| CustomerActivity.customer_id := 1;
                     CustomerActivity.active_months := 2;
                     CustomerActivity.first_purchase_month := Some "2023-05"%string;
                     CustomerActivity.last_purchase_month := Some "2023-06"%string |}
                  (CustomerActivity.rows scenario_transactions))
    by (vm_compute; auto).
  split; [exact Hr|]. split; [exact (proj1 (proj2 (Hrow _ Hr))) | exact Hnd].
Defined.

Lemma ProductPerformance_view_rows (ps : list product) (txs : list transaction) :
  NoDup (map Products.product_id ps) ->
  ProductPerformance.view ps txs
  = map (fun p => ProductPerformance.select p (left_rows on_product txs p)) ps.
Proof.
  intros Hpk. unfold ProductPerformance.view, ProductPerformance.joined.
  change (left_join on_product ps txs) with (flat_map (left_rows on_product txs) ps).
  pose proof (flat_groups Z.eqb Products.product_id (left_rows on_product txs)
                Z.eqb_spec (left_rows_fst on_product txs) ps Hpk) as Hg.
  match goal with
  | |- flat_map _ (group_by ?e ?k ?J) = _ =>
      match type of Hg with
      | _ = ?R => replace (group_by e k J) with R by (symmetry; exact Hg)
      end
  end.
  clear Hpk Hg. apply flat_map_collapse. intros p.
  pose proof (left_rows_nonempty on_product txs p) as Hne.
  pose proof (left_rows_fst on_product txs p) as Hfst.
  destruct (left_rows on_product txs p) as [|pt rs]; [congruence|].
  cbn [flat_map snd fst app]. rewrite (Hfst pt (or_introl eq_refl)). reflexivity.
Qed.

Lemma ProductPerformance_select_aggregates (p : product) (txs : list transaction) :
  let ts := filter (on_product p) txs in
  let m := ProductPerformance.select p (left_rows on_product txs p) in
  ProductPerformance.total_sales m = Z.of_nat (length ts) /\
  ProductPerformance.total_quantity_sold m = SUM (quantities ts) /\
  ProductPerformance.total_revenue m = SUM (amounts ts) /\
  ProductPerformance.avg_sale_amount m = AVG (amounts ts).
Proof.
  cbv zeta. unfold left_rows.
  destruct (filter (on_product p) txs) as [|t ts].
  - repeat split; reflexivity.
  - cbn [ProductPerformance.select ProductPerformance.total_sales
         ProductPerformance.total_quantity_sold ProductPerformance.total_revenue
         ProductPerformance.avg_sale_amount].
    unfold ProductPerformance.t_amounts, ProductPerformance.t_quantities.
    rewrite !map_map. cbn [snd option_map].
    split; [|split; [|split]]; try reflexivity.
    unfold COUNT. rewrite (non_null_Some Transactions.transaction_id). now rewrite length_map.
Qed.

(** When product ids are unique, [product_performance] has exactly one row
    per product, in table order, with the product's own columns and the
    count, quantity, revenue and average of the transactions that carry
    its id; a product never sold has a count of 0 and NULL sums and
    average. *)
Theorem product_performance_one_row_per_product
    (ps : list product) (txs : list transaction) :
  NoDup (map Products.product_id ps) ->
  Forall2
    (fun p m =>
       ProductPerformance.product_id m = Products.product_id p /\
       ProductPerformance.product_name m = Products.product_name p /\
       ProductPerformance.category m = Products.category p /\
       ProductPerformance.brand m = Products.brand p /\
       ProductPerformance.price m = decimal (Products.price p) /\
       ProductPerformance.total_sales m = Z.of_nat (length (filter (on_product p) txs)) /\
       ProductPerformance.total_quantity_sold m
         = SUM (quantities (filter (on_product p) txs)) /\
       ProductPerformance.total_revenue m = SUM (amounts (filter (on_product p) txs)) /\
       ProductPerformance.avg_sale_amount m = AVG (amounts (filter (on_product p) txs)) /\
       (filter (on_product p) txs = [] ->
          ProductPerformance.total_sales m = 0 /\
          ProductPerformance.total_quantity_sold m = None /\
          ProductPerformance.total_revenue m = None /\
          ProductPerformance.avg_sale_amount m = None))
    ps (ProductPerformance.view ps txs).
Proof.
  intros Hpk. rewrite (@ProductPerformance_view_rows ps txs Hpk).
  apply Forall2_map_r. intros p _.
  destruct (ProductPerformance_select_aggregates p txs) as (Hn & Hq & Hs & Ha).
  do 5 (split; [reflexivity|]).
  split; [exact Hn|]. split; [exact Hq|]. split; [exact Hs|]. split; [exact Ha|].
  intros He. rewrite Hn, Hq, Hs, Ha, He. repeat split.
Qed.

Lemma product_performance_one_row_per_product_witness :
  NoDup (map Products.product_id scenario_products) /\
  length (ProductPerformance.view scenario_products scenario_transactions)
  = length scenario_products.
Proof.
  assert (Hpk : NoDup (map Products.product_id scenario_products)).
  { simpl. repeat constructor; simpl; intuition discriminate. }
  split; [exact Hpk|].
  symmetry. exact (Forall2_length
    (@product_performance_one_row_per_product scenario_products scenario_transactions Hpk)).
Defined.

(** ** The lifetime-value query of the presentation *)

Lemma group_by_map (A B K : Type) (eqb : K -> K -> bool) (key : B -> K) (h : A -> B)
    (l : list A) :
  group_by eqb key (map h l)
  = map (fun kg => (fst kg, map h (snd kg))) (group_by eqb (fun a => key (h a)) l).
Proof.
  unfold group_by, group_of. rewrite !map_map. cbn [fst snd].
  apply map_ext. intros k. now rewrite filter_map_swap.
Qed.

Lemma filter_unique (A : Type) (key : A -> Z) (l : list A) (a : A) :
  NoDup (map key l) -> In a l -> filter (fun x => key a =? key x) l = [a].
Proof.
  induction l as [|x l IH]; intros Hnd Ha; [contradiction|].
  inversion Hnd as [|? ? Hnotin Hnd']; subst. cbn [filter].
  destruct Ha as [->|Ha].
  - rewrite Z.eqb_refl. f_equal. apply filter_none. intros x Hx.
    apply Z.eqb_neq. intros He. apply Hnotin. rewrite He. now apply in_map.
  - replace (key a =? key x) with false; [now apply IH|].
    symmetry. apply Z.eqb_neq. intros He. apply Hnotin. rewrite <- He. now apply in_map.
Qed.

Lemma join_on_key (A B : Type) (key : A -> Z) (key' : B -> Z) (M : A -> B) (l : list A) :
  (forall a, key' (M a) = key a) ->
  NoDup (map key l) ->
  inner_join (fun a b => key a =? key' b) l (map M l) = map (fun a => (a, M a)) l.
Proof.
  intros HM Hnd. unfold inner_join.
  assert (H : forall l', incl l' l ->
            flat_map (fun a => map (pair a) (filter (fun b => key a =? key' b) (map M l))) l'
            = map (fun a => (a, M a)) l').
  { induction l' as [|a l' IH]; intros Hincl; [reflexivity|].
    cbn [flat_map map]. rewrite IH by (intros x Hx; apply Hincl; now right).
    rewrite filter_map_swap.
    rewrite (filter_ext _ (fun x => key a =? key x)) by (intros x; now rewrite HM).
    rewrite (@filter_unique _ key l a Hnd (Hincl a (or_introl eq_refl))). reflexivity. }
  apply H, incl_refl.
Qed.

Lemma CustomerLifetimeValue_groups (cs : list customer) (txs : list transaction) :
  NoDup (map Customers.customer_id cs) ->
  CustomerLifetimeValue.groups cs txs
  = map segmentation_to_lifetime (CustomerSegmentation.groups cs txs).
Proof.
  intros Hpk. unfold CustomerLifetimeValue.groups, CustomerSegmentation.groups.
  rewrite (@CustomerMetrics_view_rows cs txs Hpk).
  set (M := fun c => CustomerMetrics.select c (left_rows on_customer txs c)).
  pose proof (@join_on_key _ _ Customers.customer_id CustomerMetrics.customer_id M cs
                (fun c => eq_refl) Hpk) as Hj.
  match goal with
  | |- context [inner_join ?o cs (map M cs)] =>
      replace (inner_join o cs (map M cs)) with (map (fun a => (a, M a)) cs)
        by (symmetry; exact Hj)
  end.
  rewrite !group_by_map, !map_map. apply map_ext. intros [k g].
  unfold segmentation_to_lifetime, CustomerLifetimeValue.select, CustomerSegmentation.select.
  cbn [fst snd CustomerSegmentation.customer_segment CustomerSegmentation.avg_customer_value
       CustomerSegmentation.avg_transactions_per_customer
       CustomerSegmentation.customer_count].
  unfold COUNT_star. rewrite !map_map, !length_map. reflexivity.
Qed.

Lemma StronglySorted_map (A B : Type) (R : B -> B -> Prop) (f : A -> B) (l : list A) :
  StronglySorted R (map f l) <-> StronglySorted (fun a b => R (f a) (f b)) l.
Proof.
  induction l as [|a l IH]; simpl; split; intros H; try constructor;
    inversion H as [|? ? Hs Hall]; subst.
  - now apply IH.
  - rewrite Forall_map in Hall. exact Hall.
  - now apply IH.
  - now rewrite Forall_map.
Qed.

Lemma ordered_by_map (A B : Type) (before : A -> A -> bool) (before' : B -> B -> bool)
    (f : A -> B) (rows : list A) (out' : list B) :
  (forall a b, before' (f a) (f b) = before a b) ->
  (ordered_by before' (map f rows) out' <->
   exists out, ordered_by before rows out /\ out' = map f out).
Proof.
  intros Hf. unfold ordered_by. split.
  - intros [Hperm Hsorted].
    destruct (Permutation_map_inv f rows (Permutation_sym Hperm)) as (out & -> & Hp).
    exists out. split; [|reflexivity]. split; [exact Hp|].
    apply StronglySorted_map in Hsorted.
    clear Hperm Hp. induction Hsorted as [|a l Hs IH Hall]; constructor; [exact IH|].
    eapply Forall_impl; [|exact Hall]. intros b Hb. simpl in Hb. now rewrite <- Hf.
  - intros (out & [Hperm Hsorted] & ->). split; [now apply Permutation_map|].
    apply StronglySorted_map.
    clear Hperm. induction Hsorted as [|a l Hs IH Hall]; constructor; [exact IH|].
    eapply Forall_impl; [|exact Hall]. intros b Hb. simpl. now rewrite Hf.
Qed.

(** The lifetime-value query of the presentation joins each customer with
    its own row of [customer_metrics]; when customer ids are unique it
    therefore computes, segment by segment, the customer count, average
    value and average number of transactions of query 4, and its possible
    results are those of query 4 without the [avg_order_value] column. *)
Theorem lifetime_value_is_segmentation (cs : list customer) (txs : list transaction) :
  NoDup (map Customers.customer_id cs) ->
  CustomerLifetimeValue.groups cs txs
  = map segmentation_to_lifetime (CustomerSegmentation.groups cs txs) /\
  forall out,
    CustomerLifetimeValue.result cs txs out <->
    exists out', CustomerSegmentation.result cs txs out' /\
                 out = map segmentation_to_lifetime out'.
Proof.
  intros Hpk. pose proof (@CustomerLifetimeValue_groups cs txs Hpk) as Hg.
  split; [exact Hg|]. intros out.
  unfold CustomerLifetimeValue.result, CustomerSegmentation.result. rewrite Hg.
  apply ordered_by_map. reflexivity.
Qed.

Lemma lifetime_value_is_segmentation_witness :
  NoDup (map Customers.customer_id scenario_customers) /\
  CustomerLifetimeValue.groups scenario_customers scenario_transactions
  = map segmentation_to_lifetime
        (CustomerSegmentation.groups scenario_customers scenario_transactions).
Proof.
  assert (Hpk : NoDup (map Customers.customer_id scenario_customers)).
  { simpl. repeat constructor; simpl; intuition discriminate. }
  split; [exact Hpk|].
  exact (proj1 (@lifetime_value_is_segmentation scenario_customers scenario_transactions Hpk)).
Defined.

(** ** The seasonal trend of the presentation *)

Section RollUp.
Variables A K1 K2 : Type.
Variable eq1 : K1 -> K1 -> bool.
Variable eq2 : K2 -> K2 -> bool.
Variable key1 : A -> K1.
Variable key2 : A -> K2.
Variable coarse : K1 -> K2.
Variable f : A -> Z.
Hypothesis eq1_spec : forall x y, reflect (x = y) (eq1 x y).
Hypothesis eq2_spec : forall x y, reflect (x = y) (eq2 x y).
Hypothesis coarse_key : forall a, coarse (key1 a) = key2 a.

End RollUp.






(** ** The validator under letter case and context *)

Lemma upper_char_idempotent (c : ascii) :
  Validator.upper_char (Validator.upper_char c) = Validator.upper_char c.
Proof. destruct c as [[] [] [] [] [] [] [] []]; reflexivity. Qed.

Lemma upper_idempotent (s : string) : Validator.upper (Validator.upper s) = Validator.upper s.
Proof.
  induction s as [|c s IH]; [reflexivity|].
  cbn [Validator.upper]. now rewrite upper_char_idempotent, IH.
Qed.

Lemma upper_app (a b : string) :
  Validator.upper (a ++ b) = (Validator.upper a ++ Validator.upper b)%string.
Proof.
  induction a as [|c a IH]; [reflexivity|].
  cbn [append Validator.upper]. now rewrite IH.
Qed.

Lemma string_app_assoc (a b c : string) : ((a ++ b) ++ c = a ++ (b ++ c))%string.
Proof. induction a as [|x a IH]; [reflexivity|]. cbn [append]. now rewrite IH. Qed.

Lemma string_app_nil_r (a : string) : (a ++ "")%string = a.
Proof. induction a as [|x a IH]; [reflexivity|]. cbn [append]. now rewrite IH. Qed.

Lemma occurs_in_context (k s pre post : string) :
  Validator.occurs_in k s -> Validator.occurs_in k (pre ++ s ++ post).
Proof.
  intros (b & a & ->). exists (pre ++ b)%string, (a ++ post)%string.
  now rewrite !string_app_assoc.
Qed.

Lemma validate_context (query pre post : string) (msg : string) :
  Validator.validate query = Validator.ValueError msg ->
  Validator.validate (pre ++ query ++ post) = Validator.ValueError msg.
Proof.
  intros Hq.
  assert (Hmsg : msg = "Modification queries not allowed"%string).
  { unfold Validator.validate in Hq. destruct (existsb _ _); [|discriminate Hq].
    now injection Hq. }
  destruct (proj1 (validate_rejects query) (ex_intro _ msg Hq)) as (k & Hk & Hocc).
  assert (Hrej : exists m, Validator.validate (pre ++ query ++ post) = Validator.ValueError m).
  { apply validate_rejects. exists k. split; [exact Hk|].
    rewrite !upper_app. now apply occurs_in_context. }
  destruct Hrej as (m & Hm). rewrite Hm. f_equal.
  unfold Validator.validate in Hm. destruct (existsb _ _); [|discriminate Hm].
  injection Hm as <-. now symmetry.
Qed.

(** The validator does not look at letter case, and what it rejects it
    rejects in every context: a rejected text stays rejected with any text
    put before and after it, so a text that passes has no rejected part. *)
Theorem validator_case_and_context (query pre post : string) :
  Validator.validate (Validator.upper query) = Validator.validate query /\
  (forall msg, Validator.validate query = Validator.ValueError msg ->
               Validator.validate (pre ++ query ++ post) = Validator.ValueError msg) /\
  (Validator.validate (pre ++ query ++ post) = Validator.Passed ->
   Validator.validate pre = Validator.Passed /\
   Validator.validate query = Validator.Passed /\
   Validator.validate post = Validator.Passed).
Proof.
  split; [|split].
  - unfold Validator.validate. now rewrite upper_idempotent.
  - intros msg. apply validate_context.
  - intros Hpass.
    assert (Hpart : forall part a b,
              (pre ++ query ++ post = a ++ part ++ b)%string ->
              Validator.validate part = Validator.Passed).
    { intros part a b E.
      destruct (Validator.validate part) as [|msg] eqn:Hv; [reflexivity|].
      pose proof (@validate_context part a b msg Hv) as Hrej.
      rewrite <- E, Hpass in Hrej. discriminate Hrej. }
    split; [|split].
    + apply (Hpart pre ""%string (query ++ post)%string). reflexivity.
    + apply (Hpart query pre post). reflexivity.
    + apply (Hpart post (pre ++ query)%string ""%string).
      now rewrite string_app_nil_r, string_app_assoc.
Qed.

Lemma validator_case_and_context_witness :
  Validator.validate "drop" = Validator.ValueError "Modification queries not allowed" /\
  Validator.validate ("SELECT 1; " ++ "drop" ++ " TABLE customers")
  = Validator.ValueError "Modification queries not allowed".
Proof.
  assert (H : Validator.validate "drop"
              = Validator.ValueError "Modification queries not allowed")
    by (vm_compute; reflexivity).
  split; [exact H|].
  exact (proj1 (proj2 (validator_case_and_context "drop" "SELECT 1; " " TABLE customers"))
           _ H).
Defined.

(** ** The role check *)

Lemma granted_In (operation : string) (granted : list string) :
  existsb (String.eqb operation) granted = true <-> In operation granted.
Proof.
  rewrite existsb_exists. split.
  - intros (x & Hx & He). apply String.eqb_eq in He. now subst x.
  - intros H. exists operation. split; [exact H | apply String.eqb_refl].
Qed.

(** [check_user_permission] grants an operation only to the roles viewer,
    analyst and admin and only among read, query and modify; whatever a
    viewer may do an analyst may do, and whatever an analyst may do an
    admin may do; modify is granted to admin alone, query to analyst and
    admin, read to all three.  Any other role name, in any other spelling,
    is granted nothing. *)
Theorem permissions_form_a_hierarchy (user_role operation : string) :
  (AccessControl.check_user_permission user_role operation = true ->
   In user_role ["viewer"; "analyst"; "admin"]%string /\
   In operation ["read"; "query"; "modify"]%string) /\
  (AccessControl.check_user_permission "viewer" operation = true ->
   AccessControl.check_user_permission "analyst" operation = true) /\
  (AccessControl.check_user_permission "analyst" operation = true ->
   AccessControl.check_user_permission "admin" operation = true) /\
  (AccessControl.check_user_permission user_role "modify" = true <->
   user_role = "admin"%string) /\
  (AccessControl.check_user_permission user_role "query" = true <->
   In user_role ["analyst"; "admin"]%string) /\
  (AccessControl.check_user_permission user_role "read" = true <->
   In user_role ["viewer"; "analyst"; "admin"]%string).
Proof.
  unfold AccessControl.check_user_permission. rewrite !granted_In.
  unfold AccessControl.permissions. cbn [AccessControl.get].
  destruct (String.eqb_spec "viewer" user_role) as [<-|Hv];
    [|destruct (String.eqb_spec "analyst" user_role) as [<-|Ha];
      [|destruct (String.eqb_spec "admin" user_role) as [<-|Hd]]];
    cbn [String.eqb Ascii.eqb Bool.eqb andb In];
    intuition (try discriminate; try congruence).
Qed.

Lemma permissions_form_a_hierarchy_witness :
  AccessControl.check_user_permission "viewer" "read" = true /\
  AccessControl.check_user_permission "analyst" "read" = true.
Proof.
  assert (H : AccessControl.check_user_permission "viewer" "read" = true) by reflexivity.
  split; [exact H|].
  exact (proj1 (proj2 (permissions_form_a_hierarchy "viewer" "read")) H).
Defined.

(** ** Charts of the dashboard *)

Lemma Qle_bool_false (x y : Q) : Qle_bool x y = false <-> (y < x)%Q.
Proof.
  split; intros H.
  - apply Qnot_le_lt. rewrite <- Qle_bool_iff. congruence.
  - apply not_true_is_false. rewrite Qle_bool_iff. lra.
Qed.

Lemma Qeq_bool_false (x y : Q) : Qeq_bool x y = false <-> ~ (x == y)%Q.
Proof.
  split; intros H.
  - intros E. apply Qeq_bool_iff in E. congruence.
  - apply not_true_is_false. now rewrite Qeq_bool_iff.
Qed.

Lemma maximum_spec (values : list Q) (m : Q) :
  Charts.maximum values = Some m ->
  In m values /\ forall v, In v values -> (v <= m)%Q.
Proof.
  revert m. induction values as [|a rest IH]; intros m H; [discriminate H|].
  cbn [Charts.maximum] in H. destruct (Charts.maximum rest) as [m'|] eqn:Hm.
  - destruct (IH m' eq_refl) as [Hin Hle].
    destruct (Qle_bool m' a) eqn:Hc; injection H as <-.
    + apply Qle_bool_iff in Hc. split; [now left|].
      intros v [<-|Hv]; [lra|]. specialize (Hle v Hv). lra.
    + apply Qle_bool_false in Hc. split; [now right|].
      intros v [<-|Hv]; [lra | now apply Hle].
  - injection H as <-. destruct rest as [|b rest'].
    + split; [now left|]. intros v [<-|[]]. lra.
    + cbn [Charts.maximum] in Hm. destruct (Charts.maximum rest'); discriminate Hm.
Qed.

Lemma minimum_spec (values : list Q) (m : Q) :
  Charts.minimum values = Some m ->
  In m values /\ forall v, In v values -> (m <= v)%Q.
Proof.
  revert m. induction values as [|a rest IH]; intros m H; [discriminate H|].
  cbn [Charts.minimum] in H. destruct (Charts.minimum rest) as [m'|] eqn:Hm.
  - destruct (IH m' eq_refl) as [Hin Hle].
    destruct (Qle_bool a m') eqn:Hc; injection H as <-.
    + apply Qle_bool_iff in Hc. split; [now left|].
      intros v [<-|Hv]; [lra|]. specialize (Hle v Hv). lra.
    + apply Qle_bool_false in Hc. split; [now right|].
      intros v [<-|Hv]; [lra | now apply Hle].
  - injection H as <-. destruct rest as [|b rest'].
    + split; [now left|]. intros v [<-|[]]. lra.
    + cbn [Charts.minimum] in Hm. destruct (Charts.minimum rest'); discriminate Hm.
Qed.

Lemma divide_positive (a d : Q) :
  (0 < d)%Q -> Charts.divide a (Charts.Finite d) = Charts.Finite (a / d).
Proof.
  intros Hd. unfold Charts.divide.
  replace (Qeq_bool d 0) with false; [reflexivity|].
  symmetry. apply Qeq_bool_false. lra.
Qed.

Lemma ratio_bounds (a d : Q) :
  (0 < d)%Q -> (0 <= a)%Q -> (a <= d)%Q -> (0 <= a / d)%Q /\ (a / d <= 1)%Q.
Proof.
  intros Hd H0 Had. split.
  - apply Qle_shift_div_l; [exact Hd | lra].
  - apply Qle_shift_div_r; [exact Hd | lra].
Qed.

Lemma ratio_monotone (a b d : Q) : (0 < d)%Q -> (a <= b)%Q -> (a / d <= b / d)%Q.
Proof.
  intros Hd Hab. apply Qmult_le_compat_r; [exact Hab|].
  apply Qlt_le_weak, Qinv_lt_0_compat, Hd.
Qed.

Lemma ratio_one (a d : Q) : (0 < d)%Q -> (a == d)%Q -> (a / d == 1)%Q.
Proof. intros Hd E. rewrite E. field. lra. Qed.

(** The shade of an intensity, as a place in the legend. *)
Lemma shade_of_ratio (r : Q) :
  let c := Charts.getIntensityColor r (Charts.Finite 1) in
  ((8 # 10 < r)%Q /\ c = "bg-purple-600"%string) \/
  ((6 # 10 < r)%Q /\ (r <= 8 # 10)%Q /\ c = "bg-purple-500"%string) \/
  ((4 # 10 < r)%Q /\ (r <= 6 # 10)%Q /\ c = "bg-purple-400"%string) \/
  ((2 # 10 < r)%Q /\ (r <= 4 # 10)%Q /\ c = "bg-purple-300"%string) \/
  ((r <= 2 # 10)%Q /\ c = "bg-purple-200"%string).
Proof.
  cbv zeta. unfold Charts.getIntensityColor.
  rewrite divide_positive by lra. unfold Charts.greater.
  assert (E : (r / 1 == r)%Q) by (field).
  destruct (Qle_bool (r / 1) (8 # 10)) eqn:H8; cbn [negb];
    [apply Qle_bool_iff in H8 | apply Qle_bool_false in H8; left; split; [lra | reflexivity]].
  destruct (Qle_bool (r / 1) (6 # 10)) eqn:H6; cbn [negb];
    [apply Qle_bool_iff in H6
    | apply Qle_bool_false in H6; right; left; repeat split; try lra].
  destruct (Qle_bool (r / 1) (4 # 10)) eqn:H4; cbn [negb];
    [apply Qle_bool_iff in H4
    | apply Qle_bool_false in H4; right; right; left; repeat split; try lra].
  destruct (Qle_bool (r / 1) (2 # 10)) eqn:H2; cbn [negb];
    [apply Qle_bool_iff in H2; right; right; right; right; split; [lra | reflexivity]
    | apply Qle_bool_false in H2; right; right; right; left; repeat split; try lra].
Qed.

Lemma colour_of_ratio (v m : Q) :
  (0 < m)%Q ->
  Charts.getIntensityColor v (Charts.Finite m)
  = Charts.getIntensityColor (v / m) (Charts.Finite 1).
Proof.
  intros Hm. unfold Charts.getIntensityColor.
  rewrite !divide_positive by lra. unfold Charts.greater.
  assert (E : (v / m / 1 == v / m)%Q) by (field; lra).
  assert (Hb : forall c, Qle_bool (v / m / 1) c = Qle_bool (v / m) c).
  { intros c. destruct (Qle_bool (v / m) c) eqn:H.
    - apply Qle_bool_iff. apply Qle_bool_iff in H. lra.
    - apply Qle_bool_false. apply Qle_bool_false in H. lra. }
  now rewrite !Hb.
Qed.

Lemma Math_max_Some (values : list Q) (m : Q) :
  Charts.maximum values = Some m -> Charts.Math_max values = Charts.Finite m.
Proof. intros H. unfold Charts.Math_max. now rewrite H. Qed.

(** On the heat map, when some state has a positive count, the states with
    the highest count are shown in the darkest colour of the legend, so the
    darkest colour is always in use, and a state with more transactions is
    never shown lighter than one with fewer.  When the highest count is
    zero every tile has the lightest colour. *)
Theorem heat_map_shades (transactions : list Q) (m : Q) :
  Charts.maximum transactions = Some m ->
  ((0 < m)%Q ->
     (forall v, (v == m)%Q ->
        Charts.getIntensityColor v (Charts.Math_max transactions) = "bg-purple-600"%string) /\
     In "bg-purple-600"%string (Charts.HeatMap_tiles transactions) /\
     (forall v1 v2, (v1 <= v2)%Q ->
        (Charts.place Charts.legend
           (Charts.getIntensityColor v1 (Charts.Math_max transactions))
         <= Charts.place Charts.legend
              (Charts.getIntensityColor v2 (Charts.Math_max transactions)))%nat)) /\
  ((m == 0)%Q ->
     forall c, In c (Charts.HeatMap_tiles transactions) -> c = "bg-purple-200"%string).
Proof.
  intros Hmax. destruct (maximum_spec _ Hmax) as [Hin Hle].
  unfold Charts.HeatMap_tiles. rewrite (Math_max_Some _ Hmax). split.
  - intros Hm.
    assert (Htop : forall v, (v == m)%Q ->
              Charts.getIntensityColor v (Charts.Finite m) = "bg-purple-600"%string).
    { intros v Hv. rewrite (colour_of_ratio v Hm).
      pose proof (ratio_one Hm Hv) as H1.
      destruct (shade_of_ratio (v / m)) as [[_ H]|[(_ & H & _)|[(_ & H & _)|[(_ & H & _)|[H _]]]]];
        [exact H | lra | lra | lra | lra]. }
    split; [exact Htop|]. split.
    + apply in_map_iff. exists m. split; [apply Htop; reflexivity | exact Hin].
    + intros v1 v2 Hv. rewrite (colour_of_ratio v1 Hm), (colour_of_ratio v2 Hm).
      pose proof (ratio_monotone Hm Hv) as Hr.
      destruct (shade_of_ratio (v1 / m)) as [[A1 ->]|[(A1 & B1 & ->)|[(A1 & B1 & ->)|[(A1 & B1 & ->)|[B1 ->]]]]];
      destruct (shade_of_ratio (v2 / m)) as [[A2 ->]|[(A2 & B2 & ->)|[(A2 & B2 & ->)|[(A2 & B2 & ->)|[B2 ->]]]]];
        try (exfalso; lra); cbn; lia.
  - intros Hm c Hc. apply in_map_iff in Hc. destruct Hc as (v & <- & Hv).
    specialize (Hle v Hv).
    unfold Charts.getIntensityColor, Charts.divide.
    replace (Qeq_bool m 0) with true by (symmetry; now apply Qeq_bool_iff).
    destruct (Qeq_bool v 0) eqn:Hv0; [reflexivity|].
    apply Qeq_bool_false in Hv0.
    replace (Qle_bool 0 v) with false; [reflexivity|].
    symmetry. apply Qle_bool_false. lra.
Qed.

Lemma heat_map_shades_witness :
  Charts.maximum [15420000; 12350000; 9800000]%Q = Some 15420000%Q /\
  Charts.HeatMap_tiles [15420000; 12350000; 9800000]%Q
  = ["bg-purple-600"; "bg-purple-600"; "bg-purple-500"]%string /\
  In "bg-purple-600"%string (Charts.HeatMap_tiles [15420000; 12350000; 9800000]%Q).
Proof.
  assert (H : Charts.maximum [15420000; 12350000; 9800000]%Q = Some 15420000%Q)
    by reflexivity.
  split; [exact H|]. split; [vm_compute; reflexivity|].
  refine (proj1 (proj2 (proj1 (heat_map_shades _ H) _))). reflexivity.
Defined.

Lemma slice_last_suffix (A : Type) (n : nat) (values : list A) :
  values = firstn (length values - n) values ++ Charts.slice_last n values /\
  length (Charts.slice_last n values) = Nat.min n (length values).
Proof.
  unfold Charts.slice_last. split.
  - symmetry. apply firstn_skipn.
  - rewrite length_skipn. lia.
Qed.

(** The bar charts show the last [n] entries of the series, in order.
    When no value is negative and the largest is positive, every bar is
    between 0 and 100 percent wide, and the bar of a largest value is 100
    percent wide. *)
Theorem bars_fill_the_track (n : nat) (values : list Q) (m : Q) :
  Charts.maximum values = Some m ->
  (0 < m)%Q ->
  (forall v, In v values -> (0 <= v)%Q) ->
  (exists front, values = front ++ Charts.slice_last n values) /\
  length (Charts.bars n values) = Nat.min n (length values) /\
  Forall2 (fun v bar =>
             exists w, bar = Charts.Finite w /\ (0 <= w)%Q /\ (w <= 100)%Q /\
                       ((v == m)%Q -> (w == 100)%Q))
          (Charts.slice_last n values) (Charts.bars n values).
Proof.
  intros Hmax Hm Hpos. destruct (maximum_spec _ Hmax) as [_ Hle].
  destruct (slice_last_suffix n values) as [Hsplit Hlen].
  split; [eexists; exact Hsplit|]. split.
  - unfold Charts.bars. now rewrite length_map.
  - unfold Charts.bars. apply Forall2_map_r. intros v Hv.
    assert (Hin : In v values).
    { rewrite Hsplit. apply in_or_app. now right. }
    unfold Charts.bar_width. rewrite (Math_max_Some _ Hmax), (divide_positive _ Hm).
    cbn [Charts.times]. eexists. split; [reflexivity|].
    destruct (ratio_bounds Hm (Hpos v Hin) (Hle v Hin)) as [H0 H1].
    repeat split; try lra.
    intros E. rewrite (ratio_one Hm E). reflexivity.
Qed.

Lemma bars_fill_the_track_witness :
  Charts.maximum [10; 40; 20]%Q = Some 40%Q /\
  length (Charts.bars 2 [10; 40; 20]%Q) = 2%nat.
Proof.
  assert (H : Charts.maximum [10; 40; 20]%Q = Some 40%Q) by reflexivity.
  split; [exact H|].
  refine (proj1 (proj2 (@bars_fill_the_track 2 [10; 40; 20]%Q 40%Q H _ _))).
  - reflexivity.
  - intros v [<-|[<-|[<-|[]]]]; discriminate.
Defined.

Lemma nth_error_combine_seq (A : Type) (values : list A) (start i : nat) (v : A) :
  nth_error values i = Some v ->
  nth_error (combine (seq start (length values)) values) i = Some ((start + i)%nat, v).
Proof.
  revert start i. induction values as [|a rest IH]; intros start i H.
  - destruct i; discriminate H.
  - destruct i as [|i]; cbn [length seq combine nth_error] in *.
    + injection H as <-. now rewrite Nat.add_0_r.
    + rewrite (IH (S start) i H). f_equal. f_equal. lia.
Qed.

Lemma distinct_extremes_length (values : list Q) (lo hi : Q) :
  Charts.minimum values = Some lo -> Charts.maximum values = Some hi ->
  (lo < hi)%Q -> (2 <= length values)%nat.
Proof.
  intros Hlo Hhi Hlt. destruct values as [|a [|b rest]]; [discriminate Hlo| |simpl; lia].
  cbn in Hlo, Hhi. injection Hlo as <-. injection Hhi as <-. lra.
Qed.

(** The line chart of a series whose values are not all equal has one
    point per entry, each inside the drawing area: [x] runs from 0 at the
    first entry to 800 at the last, [y] lies between 20, where the largest
    values are drawn, and 180, where the smallest are.  For a series whose
    values are all equal no [y] is a number. *)
Theorem line_chart_points (values : list Q) (lo hi : Q) :
  Charts.minimum values = Some lo ->
  Charts.maximum values = Some hi ->
  length (Charts.points values) = length values /\
  ((lo < hi)%Q ->
     forall i v, nth_error values i = Some v ->
       exists x y,
         nth_error (Charts.points values) i = Some (Charts.Finite x, Charts.Finite y) /\
         (0 <= x)%Q /\ (x <= 800)%Q /\ (20 <= y)%Q /\ (y <= 180)%Q /\
         (i = 0%nat -> (x == 0)%Q) /\
         (i = (length values - 1)%nat -> (x == 800)%Q) /\
         ((v == hi)%Q -> (y == 20)%Q) /\
         ((v == lo)%Q -> (y == 180)%Q)) /\
  ((lo == hi)%Q -> forall p, In p (Charts.points values) -> snd p = Charts.NaN).
Proof.
  intros Hlo Hhi.
  destruct (minimum_spec _ Hlo) as [_ Hmin]. destruct (maximum_spec _ Hhi) as [_ Hmax].
  unfold Charts.points. rewrite Hlo, Hhi. split; [|split].
  - rewrite length_map, length_combine, length_seq. lia.
  - intros Hlt i v Hv.
    pose proof (distinct_extremes_length _ Hlo Hhi Hlt) as Hlen.
    assert (Hi : (i < length values)%nat) by (apply nth_error_Some; congruence).
    assert (Hin : In v values) by (eapply nth_error_In; exact Hv).
    set (n := inject_Z (Z.of_nat (length values))).
    assert (Hn : (0 < n - 1)%Q).
    { assert (H2 : (2 <= n)%Q)
        by (unfold n; change 2%Q with (inject_Z 2); rewrite <- Zle_Qle; lia).
      lra. }
    assert (Hd : (0 < hi - lo)%Q) by lra.
    assert (Hi0 : (0 <= inject_Z (Z.of_nat i))%Q).
    { change 0%Q with (inject_Z 0). rewrite <- Zle_Qle. lia. }
    assert (Hin' : (inject_Z (Z.of_nat i) <= n - 1)%Q).
    { assert (H1 : (inject_Z (Z.of_nat i) + 1 <= n)%Q)
        by (unfold n; change 1%Q with (inject_Z 1);
            rewrite <- inject_Z_plus, <- Zle_Qle; lia).
      lra. }
    exists (inject_Z (Z.of_nat i) / (n - 1) * 800)%Q,
           (180 - (v - lo) / (hi - lo) * 160)%Q.
    split.
    { rewrite nth_error_map, (nth_error_combine_seq values 0 i Hv).
      cbn [option_map fst snd Nat.add]. unfold Charts.point. fold n.
      now rewrite (divide_positive _ Hn), (divide_positive _ Hd). }
    destruct (ratio_bounds Hn Hi0 Hin') as [Hx0 Hx1].
    assert (Hv0 : (0 <= v - lo)%Q) by (specialize (Hmin v Hin); lra).
    assert (Hv1 : (v - lo <= hi - lo)%Q) by (specialize (Hmax v Hin); lra).
    destruct (ratio_bounds Hd Hv0 Hv1) as [Hy0 Hy1].
    repeat split; try lra.
    + intros ->. change (inject_Z (Z.of_nat 0)) with 0%Q. field. lra.
    + intros ->.
      assert (E : (inject_Z (Z.of_nat (length values - 1)) == n - 1)%Q).
      { assert (H1 : (inject_Z (Z.of_nat (length values - 1)) + 1 == n)%Q).
        { unfold n. change 1%Q with (inject_Z 1). rewrite <- inject_Z_plus.
          replace (Z.of_nat (length values - 1) + 1) with (Z.of_nat (length values)) by lia.
          reflexivity. }
        lra. }
      rewrite (ratio_one Hn E). reflexivity.
    + intros E. assert (E' : (v - lo == hi - lo)%Q) by lra.
      rewrite (ratio_one Hd E'). reflexivity.
    + intros E. assert (E' : (v - lo == 0)%Q) by lra.
      rewrite E'. field. lra.
  - intros Heq p Hp. apply in_map_iff in Hp. destruct Hp as ([i v] & <- & Hiv).
    apply in_combine_r in Hiv. cbn [fst snd Charts.point].
    assert (Hv : (v == lo)%Q).
    { specialize (Hmin v Hiv). specialize (Hmax v Hiv). lra. }
    unfold Charts.divide.
    replace (Qeq_bool (hi - lo) 0) with true
      by (symmetry; apply Qeq_bool_iff; lra).
    replace (Qeq_bool (v - lo) 0) with true
      by (symmetry; apply Qeq_bool_iff; lra).
    reflexivity.
Qed.

Lemma line_chart_points_witness :
  Charts.minimum [45; 47; 49]%Q = Some 45%Q /\
  Charts.maximum [45; 47; 49]%Q = Some 49%Q /\
  length (Charts.points [45; 47; 49]%Q) = 3%nat.
Proof.
  assert (Hlo : Charts.minimum [45; 47; 49]%Q = Some 45%Q) by reflexivity.
  assert (Hhi : Charts.maximum [45; 47; 49]%Q = Some 49%Q) by reflexivity.
  split; [exact Hlo|]. split; [exact Hhi|].
  exact (proj1 (line_chart_points _ Hlo Hhi)).
Defined.

Lemma change_value (current previous c : Q) :
  Dashboard.change current previous = Some c ->
  ~ (previous == 0)%Q /\ (c * previous == (current - previous) * 100)%Q.
Proof.
  unfold Dashboard.change. destruct (Qeq_bool previous 0) eqn:Hp; [discriminate|].
  apply Qeq_bool_false in Hp. intros H. injection H as <-.
  split; [exact Hp | field; exact Hp].
Qed.

(** In the month-over-month cards the sign and the colour are chosen by
    comparing the two values, the percentage by the change formula.  For a
    positive previous value they agree: plus and green for a positive
    change, minus and red for a negative one, no sign for none.  For a
    negative previous value the sign shown is the opposite of the sign of
    the change. *)
Theorem change_sign_and_change (current previous c : Q) :
  Dashboard.change current previous = Some c ->
  (Charts.getChangeColor current previous = "text-green-600"%string <->
   Charts.change_sign current previous = "+"%string) /\
  (Charts.getChangeColor current previous = "text-red-600"%string <->
   Charts.change_sign current previous = "-"%string) /\
  ((0 < previous)%Q ->
     (Charts.change_sign current previous = "+"%string <-> (0 < c)%Q) /\
     (Charts.change_sign current previous = "-"%string <-> (c < 0)%Q) /\
     (Charts.change_sign current previous = ""%string <-> (c == 0)%Q)) /\
  ((previous < 0)%Q ->
     (Charts.change_sign current previous = "+"%string <-> (c < 0)%Q) /\
     (Charts.change_sign current previous = "-"%string <-> (0 < c)%Q)).
Proof.
  intros Hc. destruct (change_value _ _ Hc) as [Hp Hcp].
  unfold Charts.getChangeColor, Charts.change_sign.
  destruct (Qle_bool current previous) eqn:H1; cbn [negb];
    [apply Qle_bool_iff in H1 | apply Qle_bool_false in H1];
    (destruct (Qle_bool previous current) eqn:H2; cbn [negb];
     [apply Qle_bool_iff in H2 | apply Qle_bool_false in H2]);
    (split; [split; intros H; (discriminate H || reflexivity)|]);
    (split; [split; intros H; (discriminate H || reflexivity)|]);
    (split; intros Hs; repeat split; intros H;
     try discriminate H; try reflexivity; try (exfalso; nra); try nra).
Qed.

Lemma change_sign_and_change_witness :
  Dashboard.change 45000000 42000000
  = Some ((45000000 - 42000000) / 42000000 * 100)%Q /\
  (0 < 42000000)%Q /\
  (Charts.change_sign 45000000 42000000 = "+"%string <->
   (0 < (45000000 - 42000000) / 42000000 * 100)%Q).
Proof.
  assert (H : Dashboard.change 45000000 42000000
              = Some ((45000000 - 42000000) / 42000000 * 100)%Q) by reflexivity.
  split; [exact H|]. split; [reflexivity|].
  refine (proj1 (proj1 (proj2 (proj2 (change_sign_and_change _ _ H))) _)).
  reflexivity.
Defined.

Lemma toFixed1_near (x : Q) :
  (x - (1 # 20) <= Dashboard.toFixed1 x)%Q /\ (Dashboard.toFixed1 x <= x + (1 # 20))%Q.
Proof.
  unfold Dashboard.toFixed1. destruct (ROUND_near x 1) as [H1 H2].
  change (inject_Z (10 ^ Z.of_nat 1)) with 10%Q in H1, H2.
  assert (E : ((1 # 2) / 10 == 1 # 20)%Q) by reflexivity.
  rewrite E in H1, H2. now split.
Qed.

Lemma toFixed1_lower (x : Q) (lo : Z) :
  (inject_Z lo <= x)%Q -> (inject_Z lo <= Dashboard.toFixed1 x)%Q.
Proof.
  intros Hlo. unfold Dashboard.toFixed1.
  pose proof (ROUND_monotone 1 Hlo) as H. now rewrite ROUND_integer in H.
Qed.

Lemma toFixed1_upper (x : Q) (hi : Z) :
  (x <= inject_Z hi)%Q -> (Dashboard.toFixed1 x <= inject_Z hi)%Q.
Proof.
  intros Hhi. unfold Dashboard.toFixed1.
  pose proof (ROUND_monotone 1 Hhi) as H. now rewrite ROUND_integer in H.
Qed.

Lemma scaled_mantissa (num : Q) (u : Z) :
  0 < u -> (inject_Z u <= num)%Q ->
  (1 <= Dashboard.toFixed1 (num / inject_Z u))%Q /\
  (num / inject_Z u - (1 # 20) <= Dashboard.toFixed1 (num / inject_Z u))%Q /\
  (Dashboard.toFixed1 (num / inject_Z u) <= num / inject_Z u + (1 # 20))%Q /\
  ((num < 100 * inject_Z u)%Q -> (Dashboard.toFixed1 (num / inject_Z u) <= 100)%Q).
Proof.
  intros Hu Hnum.
  assert (Hu' : (0 < inject_Z u)%Q)
    by (change 0%Q with (inject_Z 0); now rewrite <- Zlt_Qlt).
  assert (H1 : (inject_Z 1 <= num / inject_Z u)%Q).
  { apply Qle_shift_div_l; [exact Hu'|]. change (inject_Z 1) with 1%Q. lra. }
  destruct (toFixed1_near (num / inject_Z u)) as [N1 N2].
  split; [|split; [exact N1|split; [exact N2|]]].
  - exact (@toFixed1_lower _ 1 H1).
  - intros Hlt. apply (@toFixed1_upper _ 100).
    apply Qle_shift_div_r; [exact Hu'|]. change (inject_Z 100) with 100%Q. lra.
Qed.

(** [formatNumber] prints a number below 1000 as it is.  From 1000 on it
    picks the largest of the units K (thousand), L (hundred thousand) and
    Cr (ten million) that the number reaches and prints the number of
    units with one decimal: a value at least 1.0 and within 0.05 of the
    exact quotient.  With K and L that value is at most 100.0, and it is
    100.0, not 1.0 of the next unit, for the numbers just below the next
    unit. *)
Theorem formatNumber_units (num : Q) :
  ((num < 1000)%Q -> Charts.formatNumber num = Charts.Plain num) /\
  ((1000 <= num)%Q ->
     exists mantissa unit,
       Charts.formatNumber num = Charts.Scaled mantissa unit /\
       In unit [" K"; " L"; " Cr"]%string /\
       (Charts.unit_value unit <= num)%Q /\
       (unit <> " Cr"%string -> (num < 100 * Charts.unit_value unit)%Q) /\
       (1 <= mantissa)%Q /\
       (num / Charts.unit_value unit - (1 # 20) <= mantissa)%Q /\
       (mantissa <= num / Charts.unit_value unit + (1 # 20))%Q /\
       (unit <> " Cr"%string -> (mantissa <= 100)%Q) /\
       ((unit <> " Cr"%string /\ 99950 * Charts.unit_value unit <= 1000 * num)%Q ->
        (mantissa == 100)%Q)).
Proof.
  unfold Charts.formatNumber. split.
  - intros Hlt.
    replace (Qle_bool 10000000 num) with false by (symmetry; apply Qle_bool_false; lra).
    replace (Qle_bool 100000 num) with false by (symmetry; apply Qle_bool_false; lra).
    replace (Qle_bool 1000 num) with false by (symmetry; apply Qle_bool_false; lra).
    reflexivity.
  - intros Hge.
    assert (Hedge : forall u : Z, 0 < u -> (inject_Z u <= num)%Q -> (num < 100 * inject_Z u)%Q ->
              (99950 * inject_Z u <= 1000 * num)%Q ->
              (Dashboard.toFixed1 (num / inject_Z u) == 100)%Q).
    { intros u Hu H1 H2 H3.
      assert (Hu' : (0 < inject_Z u)%Q)
        by (change 0%Q with (inject_Z 0); now rewrite <- Zlt_Qlt).
      destruct (scaled_mantissa Hu H1) as (_ & _ & _ & Hup). specialize (Hup H2).
      assert (Hq : ((9995 # 100) <= num / inject_Z u)%Q).
      { apply Qle_shift_div_l; [exact Hu'|]. lra. }
      unfold Dashboard.toFixed1 in *. unfold ROUND in *. rewrite Qred_correct in *.
      change (inject_Z (10 ^ Z.of_nat 1)) with 10%Q in *.
      assert (Hr : 1000 <= round_half_away (num / inject_Z u * 10)).
      { replace 1000 with (round_half_away ((9995 # 100) * 10)) by (vm_compute; reflexivity).
        apply round_half_away_monotone. lra. }
      rewrite Zle_Qle in Hr. change (inject_Z 1000) with 1000%Q in Hr.
      set (r := inject_Z (round_half_away (num / inject_Z u * 10))) in *.
      clearbody r.
      assert (E : (r / 10 == r * (1 # 10))%Q) by (field).
      rewrite E in *. lra. }
    destruct (Qle_bool 10000000 num) eqn:Hcr.
    + apply Qle_bool_iff in Hcr.
      destruct (@scaled_mantissa num 10000000 eq_refl Hcr) as (M1 & M2 & M3 & _).
      exists (Dashboard.toFixed1 (num / 10000000)), " Cr"%string.
      split; [reflexivity|]. split; [simpl; auto|].
      split; [exact Hcr|]. split; [congruence|].
      split; [exact M1|]. split; [exact M2|]. split; [exact M3|].
      split; [congruence|]. intros [H _]. congruence.
    + apply Qle_bool_false in Hcr. destruct (Qle_bool 100000 num) eqn:Hl.
      * apply Qle_bool_iff in Hl.
        destruct (@scaled_mantissa num 100000 eq_refl Hl) as (M1 & M2 & M3 & M4).
        exists (Dashboard.toFixed1 (num / 100000)), " L"%string.
        split; [reflexivity|]. split; [simpl; auto|].
        split; [exact Hl|].
        assert (Hlt : (num < 100 * Charts.unit_value " L")%Q) by exact Hcr.
        split; [intros _; exact Hlt|].
        split; [exact M1|]. split; [exact M2|]. split; [exact M3|].
        split; [intros _; exact (M4 Hlt)|].
        intros [_ H]. exact (Hedge 100000 eq_refl Hl Hlt H).
      * apply Qle_bool_false in Hl.
        replace (Qle_bool 1000 num) with true by (symmetry; now apply Qle_bool_iff).
        destruct (@scaled_mantissa num 1000 eq_refl Hge) as (M1 & M2 & M3 & M4).
        exists (Dashboard.toFixed1 (num / 1000)), " K"%string.
        split; [reflexivity|]. split; [simpl; auto|].
        split; [exact Hge|].
        assert (Hlt : (num < 100 * Charts.unit_value " K")%Q) by exact Hl.
        split; [intros _; exact Hlt|].
        split; [exact M1|]. split; [exact M2|]. split; [exact M3|].
        split; [intros _; exact (M4 Hlt)|].
        intros [_ H]. exact (Hedge 1000 eq_refl Hge Hlt H).
Qed.

Lemma formatNumber_units_witness :
  (1000 <= 99999)%Q /\
  Charts.formatNumber 99999 = Charts.Scaled 100 " K" /\
  exists mantissa unit, Charts.formatNumber 99999 = Charts.Scaled mantissa unit.
Proof.
  assert (H : (1000 <= 99999)%Q) by discriminate.
  split; [exact H|]. split; [vm_compute; reflexivity|].
  destruct (proj2 (formatNumber_units 99999) H) as (mantissa & unit & E & _).
  now exists mantissa, unit.
Defined.

(** ** Running the schema script *)

Lemma mem_In (name : string) (names : list string) :
  Schema.mem name names = true <-> In name names.
Proof.
  unfold Schema.mem. rewrite existsb_exists. split.
  - intros (x & Hx & He). apply String.eqb_eq in He. now subst x.
  - intros H. exists name. split; [exact H | apply String.eqb_refl].
Qed.

Lemma execute_keeps_views (s : Schema.statement) (c c' : Schema.catalog) (v : string) :
  Schema.execute s c = inl c' -> In v (Schema.views c) -> In v (Schema.views c').
Proof.
  destruct s as [t|t|i t|w]; cbn [Schema.execute]; intros H Hv.
  - destruct (Schema.mem t (Schema.views c)); [discriminate H|].
    injection H as <-. exact Hv.
  - destruct (Schema.name_in_use c t); [discriminate H|].
    injection H as <-. exact Hv.
  - destruct (Schema.name_in_use c i); [discriminate H|].
    destruct (Schema.mem t (Schema.tables c)); [|discriminate H].
    injection H as <-. exact Hv.
  - destruct (Schema.name_in_use c w); [discriminate H|].
    injection H as <-. cbn [Schema.views]. apply in_or_app. now left.
Qed.

Lemma execute_script_keeps_views (script : list Schema.statement)
    (c c' : Schema.catalog) (v : string) :
  Schema.execute_script script c = inl c' ->
  In v (Schema.views c) -> In v (Schema.views c').
Proof.
  revert c. induction script as [|s rest IH]; intros c H Hv; cbn [Schema.execute_script] in H.
  - injection H as <-. exact Hv.
  - destruct (Schema.execute s c) as [c1|e] eqn:Hs; [|discriminate H].
    apply (IH c1 H). exact (execute_keeps_views s c v Hs Hv).
Qed.

Lemma execute_script_app (s1 s2 : list Schema.statement) (c : Schema.catalog) :
  Schema.execute_script (s1 ++ s2) c
  = match Schema.execute_script s1 c with
    | inl c' => Schema.execute_script s2 c'
    | inr e => inr e
    end.
Proof.
  revert c. induction s1 as [|s rest IH]; intros c; [reflexivity|].
  cbn [app Schema.execute_script]. destruct (Schema.execute s c); [apply IH | reflexivity].
Qed.

Lemma create_view_creates (v : string) (c c' : Schema.catalog) :
  Schema.execute (Schema.CreateView v) c = inl c' -> In v (Schema.views c').
Proof.
  cbn [Schema.execute]. destruct (Schema.name_in_use c v); [discriminate|].
  intros H. injection H as <-. cbn [Schema.views]. apply in_or_app. right. now left.
Qed.

Lemma create_view_twice (v : string) (c : Schema.catalog) :
  In v (Schema.views c) ->
  Schema.execute (Schema.CreateView v) c = inr (Schema.AlreadyExists v).
Proof.
  intros Hv. cbn [Schema.execute]. unfold Schema.name_in_use.
  apply mem_In in Hv. rewrite Hv, !orb_true_r. reflexivity.
Qed.

(** A script with a [CREATE VIEW] and nothing that drops the view fails
    on every catalog that already has the view. *)
Lemma script_with_view_fails (before after : list Schema.statement) (v : string)
    (c : Schema.catalog) :
  In v (Schema.views c) ->
  exists e, Schema.execute_script (before ++ Schema.CreateView v :: after) c = inr e.
Proof.
  intros Hv. rewrite execute_script_app.
  destruct (Schema.execute_script before c) as [c1|e] eqn:H1; [|now exists e].
  cbn [Schema.execute_script].
  rewrite (create_view_twice v c1 (execute_script_keeps_views before c v H1 Hv)).
  now eexists.
Qed.

(** The schema script runs on an empty database and creates the four
    tables, six indexes and three views.  It never runs twice: whatever
    the database it succeeded on, the views are there afterwards, and as
    the script drops only tables, running it again ends with an error, at
    [CREATE VIEW customer_metrics] at the latest. *)
Theorem schema_script_runs_once :
  Schema.execute_script Schema.schema_script Schema.empty
  = inl {| Schema.tables := ["customers"; "products"; "transactions"; "sales_summary"];
           Schema.indexes :=
             [ ("idx_transactions_date", "transactions");
               ("idx_transactions_customer", "transactions");
               ("idx_transactions_product", "transactions");
               ("idx_customers_segment", "customers");
               ("idx_products_category", "products");
               ("idx_sales_summary_date", "sales_summary") ];
           Schema.views :=
             ["customer_metrics"; "product_performance"; "monthly_sales_trend"] |}%string /\
  (forall c, In "customer_metrics"%string (Schema.views c) ->
     exists e, Schema.execute_script Schema.schema_script c = inr e) /\
  (forall c c',
     Schema.execute_script Schema.schema_script c = inl c' ->
     In "customer_metrics"%string (Schema.views c') /\
     In "product_performance"%string (Schema.views c') /\
     In "monthly_sales_trend"%string (Schema.views c') /\
     exists e, Schema.execute_script Schema.schema_script c' = inr e).
Proof.
  assert (Hfail : forall c, In "customer_metrics"%string (Schema.views c) ->
            exists e, Schema.execute_script Schema.schema_script c = inr e).
  { intros c Hv.
    exact (script_with_view_fails (firstn 14 Schema.schema_script)
             (skipn 15 Schema.schema_script) "customer_metrics" c Hv). }
  split; [vm_compute; reflexivity|]. split; [exact Hfail|].
  intros c c' Hrun.
  assert (Hview : forall n v, nth_error Schema.schema_script n = Some (Schema.CreateView v) ->
            In v (Schema.views c')).
  { intros n v Hn.
    assert (Hsplit : Schema.schema_script
                     = firstn n Schema.schema_script
                       ++ [Schema.CreateView v] ++ skipn (S n) Schema.schema_script).
    { rewrite <- (firstn_skipn n Schema.schema_script) at 1. f_equal.
      clear Hrun. revert Hn. generalize Schema.schema_script. clear.
      induction n as [|n IH]; intros [|s l] H; try discriminate H.
      - injection H as ->. reflexivity.
      - exact (IH l H). }
    rewrite Hsplit, !execute_script_app in Hrun.
    destruct (Schema.execute_script (firstn n Schema.schema_script) c) as [c1|]; [|discriminate Hrun].
    cbn [app Schema.execute_script] in Hrun.
    destruct (Schema.execute (Schema.CreateView v) c1) as [c2|] eqn:Hc; [|discriminate Hrun].
    apply create_view_creates in Hc.
    exact (@execute_script_keeps_views _ c2 c' v Hrun Hc). }
  pose proof (Hview 14%nat "customer_metrics"%string eq_refl) as H1.
  pose proof (Hview 15%nat "product_performance"%string eq_refl) as H2.
  pose proof (Hview 16%nat "monthly_sales_trend"%string eq_refl) as H3.
  repeat split; try assumption. exact (Hfail c' H1).
Qed.

Lemma schema_script_runs_once_witness :
  (exists c', Schema.execute_script Schema.schema_script Schema.empty = inl c') /\
  forall c',
    Schema.execute_script Schema.schema_script Schema.empty = inl c' ->
    exists e, Schema.execute_script Schema.schema_script c' = inr e.
Proof.
  split; [eexists; vm_compute; reflexivity|].
  intros c' H.
  exact (proj2 (proj2 (proj2 (proj2 (proj2 schema_script_runs_once) Schema.empty c' H)))).
Defined.

(** ** Categories and their products *)




(* ================================================================== *)
(** * The reports are functions of the contents of the tables *)

(** ** Aggregates do not depend on the order of the rows *)

Lemma filter_Permutation (A : Type) (p : A -> bool) (l1 l2 : list A) :
  Permutation l1 l2 -> Permutation (filter p l1) (filter p l2).
Proof.
  induction 1 as [|x l1 l2 Hp IH|x y l|l1 l2 l3 H1 IH1 H2 IH2]; simpl.
  - constructor.
  - destruct (p x); [now constructor | exact IH].
  - destruct (p x), (p y); try reflexivity. apply perm_swap.
  - now transitivity (filter p l2).
Qed.



Lemma COUNT_star_Permutation (A : Type) (l1 l2 : list A) :
  Permutation l1 l2 -> COUNT_star l1 = COUNT_star l2.
Proof. intros H. unfold COUNT_star. f_equal. now apply Permutation_length. Qed.



Lemma distinct_Permutation (K : Type) (eqb : K -> K -> bool) (l1 l2 : list K) :
  (forall x y, reflect (x = y) (eqb x y)) ->
  Permutation l1 l2 -> Permutation (distinct eqb l1) (distinct eqb l2).
Proof.
  intros Hspec H. apply NoDup_Permutation.
  - exact (distinct_NoDup eqb Hspec l1).
  - exact (distinct_NoDup eqb Hspec l2).
  - intros k. rewrite !(distinct_In eqb Hspec). split; apply Permutation_in.
    + exact H.
    + now apply Permutation_sym.
Qed.













(** ** Grouping, joining and sorting *)

Section GroupedPermutation.
Variables A K R : Type.
Variable eqb : K -> K -> bool.
Variable key : A -> K.
Variables select select' : K * list A -> R.
Hypothesis eqb_spec : forall x y, reflect (x = y) (eqb x y).
Hypothesis select_Permutation :
  forall k g g', Permutation g g' -> select (k, g) = select' (k, g').

Lemma grouped_Permutation (rows rows' : list A) :
  Permutation rows rows' ->
  Permutation (map select (group_by eqb key rows))
              (map select' (group_by eqb key rows')).
Proof.
  intros H. unfold group_by. rewrite !map_map.
  transitivity (map (fun k => select' (k, group_of eqb key k rows'))
                    (distinct eqb (map key rows))).
  - assert (E : map (fun k => select (k, group_of eqb key k rows))
                    (distinct eqb (map key rows))
                = map (fun k => select' (k, group_of eqb key k rows'))
                      (distinct eqb (map key rows))); [|now rewrite E].
    apply map_ext. intros k. apply select_Permutation.
    unfold group_of. now apply filter_Permutation.
  - apply Permutation_map. apply (@distinct_Permutation _ eqb _ _ eqb_spec).
    now apply Permutation_map.
Qed.

End GroupedPermutation.


(** A sort by an order that tells any two rows apart has one result. *)
Lemma sort_rows_Permutation (A K : Type) (before : A -> A -> bool) (row_key : A -> K)
    (l l' : list A) :
  (forall a b, before a b = true \/ before b a = true) ->
  (forall a b c, before a b = true -> before b c = true -> before a c = true) ->
  (forall a b, before a b = true -> before b a = true -> row_key a = row_key b) ->
  NoDup (map row_key l) ->
  Permutation l l' ->
  sort_rows before l = sort_rows before l'.
Proof.
  intros Htotal Htrans Hanti Hnd Hperm.
  apply (ordered_by_unique row_key (rows := l) (before := before) Hanti Hnd).
  - now apply sort_rows_ordered.
  - destruct (sort_rows_ordered before Htotal Htrans l') as [Hp Hs].
    split; [now transitivity l' | exact Hs].
Qed.

(** ** The ten queries *)






















(** The final [SELECT] of query 8 does not depend on the order in which
    [customer_activity] holds its rows. *)
Lemma Retention_any_order (txs : list transaction) (activity : list CustomerActivity.row) :
  Permutation (CustomerActivity.rows txs) activity ->
  sort_rows Retention.before
    (map (Retention.select txs) (group_by Z.eqb CustomerActivity.active_months activity))
  = Retention.run txs.
Proof.
  intros H. symmetry. unfold Retention.run.
  apply (@sort_rows_Permutation _ _ Retention.before Retention.active_months);
    unfold Retention.before.
  - intros a b. rewrite !Z.leb_le. lia.
  - intros a b c. rewrite !Z.leb_le. lia.
  - intros a b. rewrite !Z.leb_le. lia.
  - unfold Retention.groups. apply grouped_NoDup; [exact Z_eqb_spec | reflexivity].
  - unfold Retention.groups.
    apply grouped_Permutation; [exact Z_eqb_spec | | exact H].
    intros k g g' Hg. unfold Retention.select. cbn [fst snd].
    now rewrite (COUNT_star_Permutation Hg).
Qed.








(** ** The growth figures of the dashboard *)









